(** * gammapy.analysis.config: the validated analysis configuration

    A shallow embedding of [gammapy/analysis/config.py]: the schema classes
    with their defaults, the validators, [AnalysisConfig.from_yaml],
    [AnalysisConfig.to_yaml] and [AnalysisConfig.update], with the parts of
    pydantic, astropy, pathlib and PyYAML they call taken as an interface
    ([Lib]) whose contracts are stated where a theorem needs them. *)

From Stdlib Require Import String List ZArith Bool Lia Ascii DecimalString.
Import ListNotations.
Open Scope string_scope.

Set Implicit Arguments.

(** ** Exceptions and results *)

Inductive exn : Type :=
| ValidationError   (* pydantic.ValidationError *)
| TypeError         (* dict(None), a call with keyword arguments that are no mapping *)
| YAMLError         (* yaml.safe_load on malformed text *)
| PyValueError.     (* ValueError: an ambiguous truth value, dict("foo") *)

Inductive result (A : Type) : Type :=
| Ok (a : A)
| Raise (e : exn).
Arguments Raise {A} e.

(** ** Enumerations of the module *)

Inductive enum : Type :=
| ReductionTypeEnum
| FrameEnum
| BackgroundMethodEnum
| MapSelectionEnum.

(** The values of the members, in declaration order. *)
Definition enum_values (e : enum) : list string :=
  match e with
  | ReductionTypeEnum => ["1d"; "3d"]
  | FrameEnum => ["icrs"; "galactic"]
  | BackgroundMethodEnum => ["reflected"]
  | MapSelectionEnum => ["counts"; "exposure"; "background"; "psf"; "edisp"]
  end.

Definition enum_eqb (a b : enum) : bool :=
  match a, b with
  | ReductionTypeEnum, ReductionTypeEnum => true
  | FrameEnum, FrameEnum => true
  | BackgroundMethodEnum, BackgroundMethodEnum => true
  | MapSelectionEnum, MapSelectionEnum => true
  | _, _ => false
  end.

(** ** Association lists: Python dicts with string keys, in insertion order *)

Fixpoint lookup {A : Type} (k : string) (kv : list (string * A)) : option A :=
  match kv with
  | [] => None
  | (k', v) :: rest => if String.eqb k k' then Some v else lookup k rest
  end.

(** [d[k] = v]: the value is replaced in place, a new key goes last. *)
Fixpoint set_item {A : Type} (k : string) (v : A) (kv : list (string * A))
  : list (string * A) :=
  match kv with
  | [] => [(k, v)]
  | (k', v') :: rest =>
      if String.eqb k k' then (k', v) :: rest else (k', v') :: set_item k v rest
  end.

Definition keys {A : Type} (kv : list (string * A)) : list string := map fst kv.

Definition mem (k : string) (ks : list string) : bool := existsb (String.eqb k) ks.

Section Config.

(** The astropy objects a configuration holds are opaque. *)
Variables angle quantity time : Type.

(** ** Python values *)

Unset Elimination Schemes.
Inductive data : Type :=
| DNone
| DBool (b : bool)
| DInt (z : Z)
| DStr (s : string)
| DPath (p : string)                  (* pathlib.Path, by its text *)
| DEnum (e : enum) (value : string)   (* a member of a (str, Enum) class *)
| DAngle (a : angle)                  (* astropy.coordinates.Angle *)
| DQuantity (q : quantity)            (* astropy.units.Quantity *)
| DTime (t : time)                    (* astropy.time.Time *)
| DList (l : list data)
| DDict (kv : list (string * data)).
Set Elimination Schemes.

Section data_induction.
Variable P : data -> Prop.
Hypothesis HNone : P DNone.
Hypothesis HBool : forall b, P (DBool b).
Hypothesis HInt : forall z, P (DInt z).
Hypothesis HStr : forall s, P (DStr s).
Hypothesis HPath : forall p, P (DPath p).
Hypothesis HEnum : forall e s, P (DEnum e s).
Hypothesis HAngle : forall a, P (DAngle a).
Hypothesis HQuantity : forall q, P (DQuantity q).
Hypothesis HTime : forall t, P (DTime t).
Hypothesis HList : forall l, Forall P l -> P (DList l).
Hypothesis HDict : forall kv, Forall (fun e => P (snd e)) kv -> P (DDict kv).

Fixpoint data_ind (d : data) : P d :=
  match d with
  | DNone => HNone
  | DBool b => HBool b
  | DInt z => HInt z
  | DStr s => HStr s
  | DPath p => HPath p
  | DEnum e s => HEnum e s
  | DAngle a => HAngle a
  | DQuantity q => HQuantity q
  | DTime t => HTime t
  | DList l =>
      HList ((fix go (l : list data) : Forall P l :=
                match l with
                | [] => Forall_nil _
                | x :: l' => Forall_cons x (data_ind x) (go l')
                end) l)
  | DDict kv =>
      HDict ((fix go (kv : list (string * data))
                : Forall (fun e => P (snd e)) kv :=
                match kv with
                | [] => Forall_nil _
                | e :: kv' =>
                    @Forall_cons _ (fun e => P (snd e)) e kv'
                      (data_ind (snd e)) (go kv')
                end) kv)
  end.
End data_induction.

(** ** The libraries the module calls

    What astropy, pydantic, pathlib, PyYAML and [gammapy.cube] compute is
    not in this module; each entry is the call named beside it. *)
Record Lib : Type := {
  (* astropy constructors, as the validators call them *)
  Angle : data -> option angle;            (* Angle(v) *)
  Quantity : data -> option quantity;      (* Quantity(v) *)
  Time : data -> option time;              (* Time(v) *)
  is_energy : quantity -> bool;            (* v.unit.physical_type == "energy" *)
  (* Python's == on and against astropy objects *)
  angle_eq : angle -> angle -> bool;
  quantity_eq : quantity -> quantity -> bool;
  time_eq : time -> time -> bool;
  str_eq_angle : string -> angle -> bool;        (* s == a *)
  str_eq_quantity : string -> quantity -> bool;
  str_eq_time : string -> time -> bool;
  (* whether such a comparison gives an array of more than one element,
     whose truth value is ambiguous: bool(a == b) raises ValueError *)
  angle_ambiguous : angle -> angle -> bool;
  quantity_ambiguous : quantity -> quantity -> bool;
  time_ambiguous : time -> time -> bool;
  str_ambiguous_angle : string -> angle -> bool;
  str_ambiguous_quantity : string -> quantity -> bool;
  str_ambiguous_time : string -> time -> bool;
  (* what the json encoders format *)
  angle_value_unit : angle -> string;      (* f"{v.value} {v.unit}" *)
  quantity_value_unit : quantity -> string;
  time_value : time -> string;             (* f"{v.value}" *)
  (* pathlib and the file system, which no call of this module changes *)
  path_text : string -> string;            (* str(Path(s)) *)
  is_file : string -> bool;                (* Path(s).is_file() *)
  (* pydantic's coercions of a value that is not yet of the field's type *)
  str_of : data -> option string;
  int_of : data -> option Z;
  bool_of : data -> option bool;
  dict_of : data -> option (list (string * data));   (* dict(v) *)
  dict_refusal : data -> exn;      (* what dict(v) raises where it refuses *)
  (* PyYAML *)
  yaml_dump : data -> string;
  yaml_load : string -> option data;
  (* gammapy.cube.MapDatasetMaker.available_selection *)
  available_selection : list string
}.

Variable L : Lib.

(** ** Python's [==] on the values a configuration holds

    A (str, Enum) member compares as its value; [True == 1]; two dicts are
    equal when they have as many keys and agree on each.  A comparison
    between kinds that no [default == value] test and no enum lookup of this
    module meets (a number against a Quantity, an Angle against a Time) is
    answered [false].

    [py_eq x y] is the truth value of [x == y] where it has one.  Against
    an Angle, a Quantity or a Time that holds more than one value the
    comparison gives an array, and the test of its truth raises
    [ValueError]: [ambiguous x y] tells so. *)
Fixpoint py_eq (x y : data) {struct x} : bool :=
  match x, y with
  | DNone, DNone => true
  | DBool a, DBool b => Bool.eqb a b
  | DBool a, DInt z | DInt z, DBool a => Z.eqb z (if a then 1 else 0)
  | DInt a, DInt b => Z.eqb a b
  | DStr s, DStr s' | DStr s, DEnum _ s'
  | DEnum _ s, DStr s' | DEnum _ s, DEnum _ s' => String.eqb s s'
  | DStr s, DAngle a | DEnum _ s, DAngle a
  | DAngle a, DStr s | DAngle a, DEnum _ s => L.(str_eq_angle) s a
  | DStr s, DQuantity q | DEnum _ s, DQuantity q
  | DQuantity q, DStr s | DQuantity q, DEnum _ s => L.(str_eq_quantity) s q
  | DStr s, DTime t | DEnum _ s, DTime t
  | DTime t, DStr s | DTime t, DEnum _ s => L.(str_eq_time) s t
  | DPath p, DPath p' => String.eqb p p'
  | DAngle a, DAngle b => L.(angle_eq) a b
  | DQuantity a, DQuantity b => L.(quantity_eq) a b
  | DTime a, DTime b => L.(time_eq) a b
  | DList l, DList l' =>
      (fix go (l l' : list data) : bool :=
         match l, l' with
         | [], [] => true
         | a :: r, b :: r' => py_eq a b && go r r'
         | _, _ => false
         end) l l'
  | DDict kv, DDict kv' =>
      Nat.eqb (length kv) (length kv')
      && (fix go (kv : list (string * data)) : bool :=
            match kv with
            | [] => true
            | (k, v) :: r =>
                match lookup k kv' with
                | Some v' => py_eq v v'
                | None => false
                end && go r
            end) kv
  | _, _ => false
  end.

(** The truth test of [x == y] raises.  Lists and dicts of different
    lengths are unequal before any element is compared; else the elements
    are compared in order up to the first pair that differs. *)
Fixpoint ambiguous (x y : data) {struct x} : bool :=
  match x, y with
  | DStr s, DAngle a | DEnum _ s, DAngle a
  | DAngle a, DStr s | DAngle a, DEnum _ s => L.(str_ambiguous_angle) s a
  | DStr s, DQuantity q | DEnum _ s, DQuantity q
  | DQuantity q, DStr s | DQuantity q, DEnum _ s => L.(str_ambiguous_quantity) s q
  | DStr s, DTime t | DEnum _ s, DTime t
  | DTime t, DStr s | DTime t, DEnum _ s => L.(str_ambiguous_time) s t
  | DAngle a, DAngle b => L.(angle_ambiguous) a b
  | DQuantity a, DQuantity b => L.(quantity_ambiguous) a b
  | DTime a, DTime b => L.(time_ambiguous) a b
  | DList l, DList l' =>
      Nat.eqb (length l) (length l')
      && (fix go (l l' : list data) : bool :=
            match l, l' with
            | a :: r, b :: r' => ambiguous a b || (py_eq a b && go r r')
            | _, _ => false
            end) l l'
  | DDict kv, DDict kv' =>
      Nat.eqb (length kv) (length kv')
      && (fix go (kv : list (string * data)) : bool :=
            match kv with
            | [] => false
            | (k, v) :: r =>
                match lookup k kv' with
                | Some v' => ambiguous v v' || (py_eq v v' && go r)
                | None => false
                end
            end) kv
  | _, _ => false
  end.

(** The comparisons of the elements in order, as [ambiguous] makes
    them. *)
Fixpoint ambiguous_in_list (l l' : list data) : bool :=
  match l, l' with
  | a :: r, b :: r' => ambiguous a b || (py_eq a b && ambiguous_in_list r r')
  | _, _ => false
  end.

Fixpoint ambiguous_in_dict (kv' kv : list (string * data)) : bool :=
  match kv with
  | [] => false
  | (k, v) :: r =>
      match lookup k kv' with
      | Some v' => ambiguous v v' || (py_eq v v' && ambiguous_in_dict kv' r)
      | None => false
      end
  end.

(** ** Field types and the schema *)

Inductive ftype : Type :=
| t_str
| t_int
| t_bool
| t_Path
| t_FilePath
| AngleType
| EnergyType
| TimeType
| t_Enum (e : enum)
| t_List (t : ftype).

(** A class of the schema is the list of its fields in declaration order;
    a field is a leaf with its type and declared default, or a nested class,
    whose default is always its instance built from no argument. *)
Unset Elimination Schemes.
Inductive schema : Type :=
| field (t : ftype) (default : data)
| model (fields : list (string * schema)).
Set Elimination Schemes.

Section schema_induction.
Variable P : schema -> Prop.
Hypothesis Hfield : forall t d, P (field t d).
Hypothesis Hmodel : forall fs, Forall (fun e => P (snd e)) fs -> P (model fs).

Fixpoint schema_ind (s : schema) : P s :=
  match s with
  | field t d => Hfield t d
  | model fs =>
      Hmodel ((fix go (fs : list (string * schema))
                 : Forall (fun e => P (snd e)) fs :=
                 match fs with
                 | [] => Forall_nil _
                 | e :: fs' =>
                     @Forall_cons _ (fun e => P (snd e)) e fs'
                       (schema_ind (snd e)) (go fs')
                 end) fs)
  end.
End schema_induction.

(** ** Validators *)

Definition is_None (v : data) : bool :=
  match v with DNone => true | _ => false end.

Fixpoint traverse {A B : Type} (f : A -> option B) (l : list A) : option (list B) :=
  match l with
  | [] => Some []
  | x :: r =>
      match f x, traverse f r with
      | Some y, Some r' => Some (y :: r')
      | _, _ => None
      end
  end.

(** pydantic's validator for [Path]: a [Path] is returned, text goes
    through [Path(v)], anything else is refused.  A [Path] holds its text
    as pathlib writes it. *)
Definition path_validator (v : data) : option string :=
  match v with
  | DPath p => Some (L.(path_text) p)
  | DStr s | DEnum _ s => Some (L.(path_text) s)
  | _ => None
  end.

(** [E(v)]: the member whose value equals [v]. *)
Definition enum_validator (e : enum) (v : data) : option string :=
  find (fun s => py_eq (DStr s) v) (enum_values e).

(** The validator of each field type on a value that is not [None].
    [AngleType.validate], [EnergyType.validate] and [TimeType.validate] are
    the module's own; the others are pydantic's for the annotation. *)
Fixpoint validate (t : ftype) (v : data) {struct t} : option data :=
  match v with
  | DNone => None
  | _ =>
      match t with
      | t_str =>
          match v with
          | DStr s => Some (DStr s)
          | _ => option_map DStr (L.(str_of) v)
          end
      | t_int =>
          match v with
          | DInt z => Some (DInt z)
          | _ => option_map DInt (L.(int_of) v)
          end
      | t_bool =>
          match v with
          | DBool b => Some (DBool b)
          | _ => option_map DBool (L.(bool_of) v)
          end
      | t_Path => option_map DPath (path_validator v)
      | t_FilePath =>
          match path_validator v with
          | Some p => if L.(is_file) p then Some (DPath p) else None
          | None => None
          end
      | AngleType => option_map DAngle (L.(Angle) v)
      | EnergyType =>
          match L.(Quantity) v with
          | Some q => if L.(is_energy) q then Some (DQuantity q) else None
          | None => None
          end
      | TimeType => option_map DTime (L.(Time) v)
      | t_Enum e => option_map (DEnum e) (enum_validator e v)
      | t_List t' =>
          match v with
          | DList l => option_map DList (traverse (validate t') l)
          | _ => None
          end
      end
  end.

(** A field whose declared default is [None] is optional: [None] passes
    without a validator; any other field refuses [None]. *)
Definition validate_field (t : ftype) (default v : data) : option data :=
  match v with
  | DNone => if is_None default then Some DNone else None
  | _ => validate t v
  end.

(** The keyword arguments a nested class is built from: a dict as it is,
    another value through [dict(v)]; [None] is refused before. *)
Definition as_mapping (v : data) : option (list (string * data)) :=
  match v with
  | DDict kv => Some kv
  | DNone => None
  | _ => L.(dict_of) v
  end.

(** ** Construction of an instance from keyword arguments

    [construct s (Some v)] validates the value [v] given for a field of
    schema [s], [construct s None] the field's default ([validate_all]).
    A class refuses a key that is not one of its fields ([extra = forbid]),
    then builds each field from the value under its name or from its
    default.  [None] is a [ValidationError]. *)
Section build.
Variable f : schema -> option data -> option data.
Variable kv : list (string * data).

Fixpoint build (fs : list (string * schema)) : option (list (string * data)) :=
  match fs with
  | [] => Some []
  | (name, s') :: rest =>
      match f s' (lookup name kv), build rest with
      | Some x, Some r => Some ((name, x) :: r)
      | _, _ => None
      end
  end.
End build.

Fixpoint construct (s : schema) (v : option data) {struct s} : option data :=
  match s with
  | field t d => validate_field t d (match v with Some x => x | None => d end)
  | model fs =>
      match (match v with Some x => as_mapping x | None => Some [] end) with
      | None => None
      | Some kv =>
          if forallb (fun k => mem k (keys fs)) (keys kv)
          then option_map DDict (build construct kv fs)
          else None
      end
  end.

(** ** The classes of the schema *)

Definition SkyCoordConfig : schema :=
  model [("frame", field (t_Enum FrameEnum) DNone);
         ("lon", field AngleType DNone);
         ("lat", field AngleType DNone)].

Definition EnergyAxisConfig : schema :=
  model [("min", field EnergyType (DStr "0.1 TeV"));
         ("max", field EnergyType (DStr "10 TeV"));
         ("nbins", field t_int (DInt 30))].

Definition SpatialCircleConfig : schema :=
  model [("frame", field (t_Enum FrameEnum) DNone);
         ("lon", field AngleType DNone);
         ("lat", field AngleType DNone);
         ("radius", field AngleType DNone)].

Definition EnergyRangeConfig : schema :=
  model [("min", field EnergyType (DStr "0.1 TeV"));
         ("max", field EnergyType (DStr "10 TeV"))].

Definition TimeRangeConfig : schema :=
  model [("start", field TimeType DNone);
         ("stop", field TimeType DNone)].

Definition FluxPointsConfig : schema :=
  model [("energy", EnergyAxisConfig)].

Definition FitConfig : schema :=
  model [("fit_range", EnergyRangeConfig)].

Definition BackgroundConfig : schema :=
  model [("method", field (t_Enum BackgroundMethodEnum)
                      (DEnum BackgroundMethodEnum "reflected"));
         ("exclusion", field t_FilePath DNone)].

Definition EnergyAxesConfig : schema :=
  model [("energy", EnergyAxisConfig);
         ("energy_true", EnergyAxisConfig)].

Definition SelectionConfig : schema :=
  model [("offset_max", field AngleType (DStr "2.5 deg"))].

Definition FovConfig : schema :=
  model [("width", field AngleType (DStr "5 deg"));
         ("height", field AngleType (DStr "5 deg"))].

Definition WcsConfig : schema :=
  model [("skydir", SkyCoordConfig);
         ("binsize", field AngleType (DStr "0.1 deg"));
         ("fov", FovConfig);
         ("binsize_irf", field AngleType (DStr "0.1 deg"));
         ("margin_irf", field AngleType (DStr "0.1 deg"))].

Definition GeomConfig : schema :=
  model [("wcs", WcsConfig);
         ("selection", SelectionConfig);
         ("axes", EnergyAxesConfig)].

Definition DatasetsConfig : schema :=
  model [("type", field (t_Enum ReductionTypeEnum)
                    (DEnum ReductionTypeEnum "1d"));
         ("stack", field t_bool (DBool true));
         ("geom", GeomConfig);
         ("map_selection", field (t_List (t_Enum MapSelectionEnum))
                             (DList (map DStr L.(available_selection))));
         ("background", BackgroundConfig);
         ("on_region", SpatialCircleConfig);
         ("containment_correction", field t_bool (DBool true))].

Definition ObservationsConfig : schema :=
  model [("datastore", field t_Path
                         (DPath (L.(path_text) "$GAMMAPY_DATA/hess-dl3-dr1/")));
         ("obs_ids", field (t_List t_int) (DList []));
         ("obs_file", field t_FilePath DNone);
         ("obs_cone", SpatialCircleConfig);
         ("obs_time", TimeRangeConfig)].

Definition LogConfig : schema :=
  model [("level", field t_str (DStr "info"));
         ("filename", field t_Path DNone);
         ("filemode", field t_str DNone);
         ("format", field t_str DNone);
         ("datefmt", field t_str DNone)].

Definition GeneralConfig : schema :=
  model [("log", LogConfig);
         ("outdir", field t_str (DStr "."))].

Definition AnalysisConfig : schema :=
  model [("general", GeneralConfig);
         ("observations", ObservationsConfig);
         ("datasets", DatasetsConfig);
         ("fit", FitConfig);
         ("flux_points", FluxPointsConfig)].

(** ** [self.dict(exclude_defaults=True)]

    A field is left out when the class's default for it equals its value
    ([default == value]): for a leaf the default is the declared one, as
    written in the class body; for a nested class it is the instance the
    class body built.  A nested instance that is kept is exported the same
    way. *)
Definition is_default (s : schema) (v : data) : bool :=
  match s with
  | field _ d => py_eq d v
  | model _ =>
      match construct s None with
      | Some d => py_eq d v
      | None => false
      end
  end.

Section export.
Variable skip : schema -> data -> bool.
Variable f : schema -> data -> data.
Variable kv : list (string * data).

Fixpoint export (fs : list (string * schema)) : list (string * data) :=
  match fs with
  | [] => []
  | (name, s') :: rest =>
      match lookup name kv with
      | Some v => if skip s' v then export rest else (name, f s' v) :: export rest
      | None => export rest
      end
  end.
End export.

Fixpoint dict_exclude_defaults (s : schema) (self : data) {struct s} : data :=
  match s, self with
  | model fs, DDict kv => DDict (export is_default dict_exclude_defaults kv fs)
  | _, _ => self
  end.

(** The export raises [ValueError] when the truth test of one of its
    [default == value] comparisons does: the test of a field of [self], or
    of a field of a nested instance that the export holds.
    [dict_exclude_defaults] is what the export holds when none does. *)
Definition is_default_raises (s : schema) (v : data) : bool :=
  match s with
  | field _ d => ambiguous d v
  | model _ =>
      match construct s None with
      | Some d => ambiguous d v
      | None => false
      end
  end.

Fixpoint export_raises (s : schema) (self : data) {struct s} : bool :=
  match s, self with
  | model fs, DDict kv =>
      existsb (fun e => match lookup (fst e) kv with
                        | Some v =>
                            is_default_raises (snd e) v
                            || (negb (is_default (snd e) v) && export_raises (snd e) v)
                        | None => false
                        end) fs
  | _, _ => false
  end.

(** [self.dict(exclude_defaults=True)], as a call. *)
Definition to_dict (s : schema) (self : data) : result data :=
  if export_raises s self then Raise PyValueError
  else Ok (dict_exclude_defaults s self).

(** ** [pydantic.utils.deep_update] *)

Definition update_loop (f : option data -> data -> data)
  (mapping updating : list (string * data)) : list (string * data) :=
  fold_left
    (fun updated e => set_item (fst e) (f (lookup (fst e) mapping) (snd e)) updated)
    updating mapping.

(** The value stored under a key: the recursive merge when the key is in
    [mapping] with a dict and the new value is a dict, the new value
    otherwise. *)
Fixpoint deep_update_value (old : option data) (v : data) {struct v} : data :=
  match v, old with
  | DDict updating, Some (DDict mapping) =>
      DDict (update_loop deep_update_value mapping updating)
  | _, _ => v
  end.

Definition deep_update (mapping updating : list (string * data))
  : list (string * data) :=
  update_loop deep_update_value mapping updating.

(** ** Methods of [AnalysisConfig] *)

(** [json.loads(self.json())]: the [json_encoders] of [GammapyBaseConfig]
    for Angle, Quantity and Time, pydantic's encoder for a Path, the str
    value of an enum member. *)
Fixpoint jsonable (v : data) : data :=
  match v with
  | DAngle a => DStr (L.(angle_value_unit) a)
  | DQuantity q => DStr (L.(quantity_value_unit) q)
  | DTime t => DStr (L.(time_value) t)
  | DPath p => DStr p
  | DEnum _ s => DStr s
  | DList l => DList (map jsonable l)
  | DDict kv => DDict (map (fun e => (fst e, jsonable (snd e))) kv)
  | _ => v
  end.

Definition to_yaml (self : data) : string :=
  L.(yaml_dump) (jsonable self).

Definition new_AnalysisConfig (kv : list (string * data)) : result data :=
  match construct AnalysisConfig (Some (DDict kv)) with
  | Some c => Ok c
  | None => Raise ValidationError
  end.

Definition from_yaml (config_str : string) : result data :=
  match L.(yaml_load) config_str with
  | None => Raise YAMLError
  | Some (DDict settings) => new_AnalysisConfig settings
  | Some _ => Raise TypeError
  end.

(** A method runs on its receiver: it reads [self], may write it, and
    returns or raises. *)
Definition M (A : Type) : Type := data -> result A * data.

Definition ret {A : Type} (a : A) : M A := fun self => (Ok a, self).
Definition raise {A : Type} (e : exn) : M A := fun self => (Raise e, self).
Definition bind {A B : Type} (m : M A) (f : A -> M B) : M B :=
  fun self =>
    match m self with
    | (Ok a, self') => f a self'
    | (Raise e, self') => (Raise e, self')
    end.
Definition get_self : M data := fun self => (Ok self, self).
Definition lift {A : Type} (r : result A) : M A := fun self => (r, self).

Notation "x <- m ;; f" := (bind m (fun x => f))
  (at level 61, m at next level, right associativity).

(** The argument of [update]. *)
Inductive arg : Type :=
| a_str (s : string)
| a_dict (kv : list (string * data))
| a_config (c : data)      (* an AnalysisConfig *)
| a_other.                 (* None, or any other object *)

(** [dict(yaml.safe_load(config))] *)
Definition dict_of_yaml (config : string) : result (list (string * data)) :=
  match L.(yaml_load) config with
  | None => Raise YAMLError
  | Some (DDict kv) => Ok kv
  | Some v =>
      match L.(dict_of) v with
      | Some kv => Ok kv
      | None => Raise (L.(dict_refusal) v)
      end
  end.

Definition update (config : arg) : M (option data) :=
  config <- match config with
            | a_str s => kv <- lift (dict_of_yaml s) ;; ret (a_dict kv)
            | _ => ret config
            end ;;
  config <- match config with
            | a_dict kv => c <- lift (new_AnalysisConfig kv) ;; ret (a_config c)
            | _ => ret config
            end ;;
  match config with
  | a_config c =>
      self <- get_self ;;
      mapping <- lift (to_dict AnalysisConfig self) ;;
      updating <- lift (to_dict AnalysisConfig c) ;;
      match mapping, updating with
      | DDict mapping, DDict updating =>
          let upd_config := deep_update mapping updating in
          r <- lift (new_AnalysisConfig upd_config) ;; ret (Some r)
      | _, _ => raise TypeError
      end
  | _ => ret None
  end.

(** ** Instances of the schema

    What an instance holds after validation: each leaf a value of its
    type, or [None] where the declared default is [None]; each nested
    class an instance with exactly its fields. *)
Fixpoint valid (t : ftype) (v : data) {struct t} : bool :=
  match t, v with
  | t_str, DStr _ => true
  | t_int, DInt _ => true
  | t_bool, DBool _ => true
  | t_Path, DPath p => String.eqb (L.(path_text) p) p
  | t_FilePath, DPath p => String.eqb (L.(path_text) p) p && L.(is_file) p
  | AngleType, DAngle _ => true
  | EnergyType, DQuantity q => L.(is_energy) q
  | TimeType, DTime _ => true
  | t_Enum e, DEnum e' s => enum_eqb e e' && mem s (enum_values e)
  | t_List t', DList l => forallb (valid t') l
  | _, _ => false
  end.

Definition item (kv : list (string * data)) (k : string) : data :=
  match lookup k kv with
  | Some v => v
  | None => DNone
  end.

Fixpoint keys_eqb (a b : list string) : bool :=
  match a, b with
  | [], [] => true
  | x :: a', y :: b' => String.eqb x y && keys_eqb a' b'
  | _, _ => false
  end.

Fixpoint conforms (s : schema) (c : data) {struct s} : bool :=
  match s with
  | field t d => (is_None d && is_None c) || valid t c
  | model fs =>
      match c with
      | DDict kv =>
          keys_eqb (keys kv) (keys fs)
          && forallb (fun e => conforms (snd e) (item kv (fst e))) fs
      | _ => false
      end
  end.

(** A mapping that holds validated values under some of the fields' names:
    what [dict()] exports from an instance, with or without defaults. *)
Fixpoint nodup_keys (ks : list string) : bool :=
  match ks with
  | [] => true
  | k :: r => negb (mem k r) && nodup_keys r
  end.

Fixpoint partial (s : schema) (x : data) {struct s} : bool :=
  match s with
  | field t d => conforms (field t d) x
  | model fs =>
      match x with
      | DDict kv =>
          nodup_keys (keys kv)
          && forallb (fun k => mem k (keys fs)) (keys kv)
          && forallb (fun e => match lookup (fst e) kv with
                               | Some v => partial (snd e) v
                               | None => true
                               end) fs
      | _ => false
      end
  end.

(** The keys of a Python dict are distinct. *)
Fixpoint unique_keys (v : data) : bool :=
  match v with
  | DList l => forallb unique_keys l
  | DDict kv => nodup_keys (keys kv) && forallb (fun e => unique_keys (snd e)) kv
  | _ => true
  end.

(** The shapes of the defaults the class bodies declare: text for an
    Angle or an energy, a member or its value for an enum, a value of the
    type otherwise. *)
Fixpoint declared (t : ftype) (d : data) {struct t} : bool :=
  match t, d with
  | t_str, DStr _ => true
  | t_int, DInt _ => true
  | t_bool, DBool _ => true
  | t_Path, DPath p => String.eqb (L.(path_text) p) p
  | AngleType, DStr _ => true
  | EnergyType, DStr _ => true
  | t_Enum _, DStr _ => true
  | t_Enum _, DEnum _ _ => true
  | t_List t', DList l => forallb (declared t') l
  | _, _ => false
  end.

(** The fields of a class have distinct names. *)
Fixpoint distinct_fields (s : schema) : bool :=
  match s with
  | field _ _ => true
  | model fs =>
      nodup_keys (keys fs) && forallb (fun e => distinct_fields (snd e)) fs
  end.

(** A schema as a class body can declare it: distinct field names, and
    each leaf's default [None] or of a declared shape. *)
Fixpoint wf_schema (s : schema) : bool :=
  match s with
  | field t d => is_None d || declared t d
  | model fs => nodup_keys (keys fs) && forallb (fun e => wf_schema (snd e)) fs
  end.

(** ** Access by path: [c.datasets.type] is [get ["datasets"; "type"] c] *)
Fixpoint get (p : list string) (c : data) {struct p} : option data :=
  match p with
  | [] => Some c
  | k :: p' =>
      match c with
      | DDict kv =>
          match lookup k kv with
          | Some v => get p' v
          | None => None
          end
      | _ => None
      end
  end.

(** The leaf of the schema a path names. *)
Fixpoint leaf_at (p : list string) (s : schema) {struct p} : option (ftype * data) :=
  match p, s with
  | [], field t d => Some (t, d)
  | k :: p', model fs =>
      match lookup k fs with
      | Some s' => leaf_at p' s'
      | None => None
      end
  | _, _ => None
  end.

(** What the export of an instance holds under a field's name, and what
    [deep_update] then stores under it. *)
Definition exported (s : schema) (v : data) : option data :=
  if is_default s v then None else Some (dict_exclude_defaults s v).

Definition stored (old new : option data) : option data :=
  match new with
  | Some v => Some (deep_update_value old v)
  | None => old
  end.

(** ** The merge as the specification words it

    Field by field: the override's value where it differs from the
    default, the base's value where that differs from the default, the
    default otherwise.  [d] is the all-defaults instance. *)
Definition overlay_leaf (d base override : data) : data :=
  if py_eq d override then (if py_eq d base then d else base) else override.

Fixpoint overlay (s : schema) (d base override : data) {struct s} : data :=
  match s with
  | field _ _ => overlay_leaf d base override
  | model fs =>
      match d, base, override with
      | DDict kd, DDict kb, DDict ko =>
          DDict (map (fun e => (fst e,
                                overlay (snd e) (item kd (fst e))
                                  (item kb (fst e)) (item ko (fst e)))) fs)
      | _, _, _ => override
      end
  end.

(** The comparisons an export of [c] can make have a truth value: at
    every leaf, that of the value with the declared default and with the
    validated default.  [d] is the all-defaults instance. *)
Fixpoint comparable (s : schema) (d c : data) {struct s} : bool :=
  match s with
  | field _ d' => negb (ambiguous d' c) && negb (ambiguous d c)
  | model fs =>
      match d, c with
      | DDict kd, DDict kc =>
          forallb (fun e => comparable (snd e) (item kd (fst e)) (item kc (fst e))) fs
      | _, _ => false
      end
  end.

(** The override that [update] merges, for each kind of argument. *)
Definition denotes (config : arg) (override : data) : Prop :=
  match config with
  | a_str s =>
      exists kv, dict_of_yaml s = Ok kv /\ new_AnalysisConfig kv = Ok override
  | a_dict kv => new_AnalysisConfig kv = Ok override
  | a_config c => c = override /\ conforms AnalysisConfig c = true
  | a_other => False
  end.


(** ** Contracts of the libraries *)

(** A constructor given an object of its own class returns it (a copy);
    [Path] text is already as pathlib writes it. *)
Record Revalidates : Prop := {
  Angle_of_Angle : forall a, L.(Angle) (DAngle a) = Some a;
  Quantity_of_Quantity : forall q, L.(Quantity) (DQuantity q) = Some q;
  Time_of_Time : forall t, L.(Time) (DTime t) = Some t;
  path_text_idem : forall s, L.(path_text) (L.(path_text) s) = L.(path_text) s
}.

(** Comparing an Angle or a Quantity with text compares it with what the
    text denotes, in its truth value and in whether it has one; and text
    denotes one value, which compares with itself. *)
Record LiteralEq : Prop := {
  str_eq_angle_spec : forall s a0,
    L.(Angle) (DStr s) = Some a0 ->
    forall a, L.(str_eq_angle) s a = L.(angle_eq) a0 a;
  str_eq_quantity_spec : forall s q0,
    L.(Quantity) (DStr s) = Some q0 ->
    forall q, L.(str_eq_quantity) s q = L.(quantity_eq) q0 q;
  str_ambiguous_angle_spec : forall s a0,
    L.(Angle) (DStr s) = Some a0 ->
    forall a, L.(str_ambiguous_angle) s a = L.(angle_ambiguous) a0 a;
  str_ambiguous_quantity_spec : forall s q0,
    L.(Quantity) (DStr s) = Some q0 ->
    forall q, L.(str_ambiguous_quantity) s q = L.(quantity_ambiguous) q0 q;
  angle_literal_single : forall s a0,
    L.(Angle) (DStr s) = Some a0 -> L.(angle_ambiguous) a0 a0 = false;
  quantity_literal_single : forall s q0,
    L.(Quantity) (DStr s) = Some q0 -> L.(quantity_ambiguous) q0 q0 = false
}.

(** What the encoder writes for each Angle, Quantity and Time that [v]
    holds, the constructor reads back as an equal object; a Quantity as an
    energy. *)
Fixpoint read_back (v : data) : bool :=
  match v with
  | DAngle a =>
      match L.(Angle) (DStr (L.(angle_value_unit) a)) with
      | Some a' => L.(angle_eq) a a' && negb (L.(angle_ambiguous) a a')
      | None => false
      end
  | DQuantity q =>
      match L.(Quantity) (DStr (L.(quantity_value_unit) q)) with
      | Some q' =>
          L.(is_energy) q' && L.(quantity_eq) q q'
          && negb (L.(quantity_ambiguous) q q')
      | None => false
      end
  | DTime t =>
      match L.(Time) (DStr (L.(time_value) t)) with
      | Some t' => L.(time_eq) t t' && negb (L.(time_ambiguous) t t')
      | None => false
      end
  | DList l => forallb read_back l
  | DDict kv => forallb (fun e => read_back (snd e)) kv
  | _ => true
  end.

End Config.

Arguments DNone {angle quantity time}.
Arguments DBool {angle quantity time} b.
Arguments DInt {angle quantity time} z.
Arguments DStr {angle quantity time} s.
Arguments DPath {angle quantity time} p.
Arguments DEnum {angle quantity time} e value.
Arguments DAngle {angle quantity time} a.
Arguments DQuantity {angle quantity time} q.
Arguments DTime {angle quantity time} t.
Arguments DList {angle quantity time} l.
Arguments DDict {angle quantity time} kv.
Arguments a_str {angle quantity time} s.
Arguments a_dict {angle quantity time} kv.
Arguments a_config {angle quantity time} c.
Arguments a_other {angle quantity time}.
Arguments SkyCoordConfig {angle quantity time}.
Arguments EnergyAxisConfig {angle quantity time}.
Arguments SpatialCircleConfig {angle quantity time}.
Arguments EnergyRangeConfig {angle quantity time}.
Arguments TimeRangeConfig {angle quantity time}.
Arguments FluxPointsConfig {angle quantity time}.
Arguments FitConfig {angle quantity time}.
Arguments BackgroundConfig {angle quantity time}.
Arguments EnergyAxesConfig {angle quantity time}.
Arguments SelectionConfig {angle quantity time}.
Arguments FovConfig {angle quantity time}.
Arguments WcsConfig {angle quantity time}.
Arguments GeomConfig {angle quantity time}.
Arguments LogConfig {angle quantity time}.
Arguments GeneralConfig {angle quantity time}.

(** ** A reference instance of the libraries

    Angles, quantities and times held as their text; one that holds
    several values is written with brackets, as numpy writes an array, and
    no constructor reads such text.  A quantity is an energy when its text
    names an eV unit, and quantities are compared in TeV.  PyYAML is a
    printer and a parser of flow mappings.  Used to run the model on
    concrete configurations. *)
Module Ref.

Definition is_eV (s : string) : bool :=
  match index 0 "eV" s with
  | Some _ => true
  | None => false
  end.

Definition is_array (s : string) : bool := String.prefix "[" s.

Definition of_text (own : data string string string -> option string)
  (v : data string string string) : option string :=
  match v with
  | DStr s => if is_array s then None else Some s
  | _ => own v
  end.

(** 100 GeV is 0.1 TeV. *)
Definition in_TeV (q : string) : string :=
  if String.eqb q "100 GeV" then "0.1 TeV" else q.

Definition same_quantity (a b : string) : bool :=
  String.eqb (in_TeV a) (in_TeV b).

(** A comparison with an array gives an array; text that no constructor
    reads is unequal to every object. *)
Definition several (a b : string) : bool := is_array a || is_array b.

Definition text_several (s a : string) : bool := negb (is_array s) && is_array a.

Definition cube_text : string := "datasets: {type: 3d}".
Definition bad_text : string := "datasets: {type: 2d}".

Definition cube_dict : list (string * data string string string) :=
  [("datasets", DDict [("type", DStr "3d")])].

Definition bad_dict : list (string * data string string string) :=
  [("datasets", DDict [("type", DStr "2d")])].

(** *** The printer *)

Definition quote : ascii := ascii_of_nat 34.
Definition newline : ascii := ascii_of_nat 10.

Fixpoint join (sep : string) (l : list string) : string :=
  match l with
  | [] => EmptyString
  | [x] => x
  | x :: r => x ++ sep ++ join sep r
  end.

(** Text in quotes, a list in brackets, a mapping in braces with a line
    for each entry. *)
Fixpoint dump (v : data string string string) : string :=
  match v with
  | DBool true => "true"
  | DBool false => "false"
  | DInt z => NilZero.string_of_int (Z.to_int z)
  | DStr s => String quote (s ++ String quote EmptyString)
  | DList l => "[" ++ join ", " (map dump l) ++ "]"
  | DDict kv =>
      "{"
      ++ String.concat EmptyString
           (map (fun e => String newline (fst e ++ ": " ++ dump (snd e) ++ ",")) kv)
      ++ String newline "}"
  | _ => "null"
  end.

(** *** The parser *)

Inductive goal : Type :=
| Value
| Items (acc : list (data string string string))
| Entries (acc : list (string * data string string string)).

Definition is_space (c : ascii) : bool :=
  Ascii.eqb c " " || Ascii.eqb c newline.

Fixpoint skip (s : string) : string :=
  match s with
  | String c r => if is_space c then skip r else s
  | EmptyString => EmptyString
  end.

(** The text before the first character that [stop] holds of, and the
    text from that character on. *)
Fixpoint before (stop : ascii -> bool) (s : string) : string * string :=
  match s with
  | EmptyString => (EmptyString, EmptyString)
  | String c r =>
      if stop c then (EmptyString, s)
      else let (t, r') := before stop r in (String c t, r')
  end.

Definition ends_scalar (c : ascii) : bool :=
  is_space c || Ascii.eqb c "," || Ascii.eqb c "]" || Ascii.eqb c "}".

Definition scalar (t : string) : option (data string string string) :=
  if String.eqb t "null" then Some DNone
  else if String.eqb t "true" then Some (DBool true)
  else if String.eqb t "false" then Some (DBool false)
  else option_map (fun i => DInt (Z.of_int i)) (NilZero.int_of_string t).

Fixpoint parse (fuel : nat) (g : goal) (s : string)
  : option (data string string string * string) :=
  match fuel with
  | O => None
  | S n =>
      match skip s with
      | EmptyString => None
      | String c r =>
          match g with
          | Value =>
              if Ascii.eqb c "{" then parse n (Entries []) r
              else if Ascii.eqb c "[" then parse n (Items []) r
              else if Ascii.eqb c quote then
                match before (Ascii.eqb quote) r with
                | (t, String _ r') => Some (DStr t, r')
                | (_, EmptyString) => None
                end
              else
                match before ends_scalar (String c r) with
                | (t, r') => option_map (fun d => (d, r')) (scalar t)
                end
          | Items acc =>
              if Ascii.eqb c "]" then Some (DList (rev acc), r)
              else if Ascii.eqb c "," then parse n (Items acc) r
              else
                match parse n Value (String c r) with
                | Some (v, r') => parse n (Items (v :: acc)) r'
                | None => None
                end
          | Entries acc =>
              if Ascii.eqb c "}" then Some (DDict (rev acc), r)
              else if Ascii.eqb c "," then parse n (Entries acc) r
              else
                match before (Ascii.eqb ":") (String c r) with
                | (k, String _ r') =>
                    match parse n Value r' with
                    | Some (v, r'') => parse n (Entries ((k, v) :: acc)) r''
                    | None => None
                    end
                | (_, EmptyString) => None
                end
          end
      end
  end.

Definition load (s : string) : option (data string string string) :=
  match parse (4 * String.length s + 4) Value s with
  | Some (d, r) =>
      match skip r with
      | EmptyString => Some d
      | _ => None
      end
  | None => None
  end.

(** *** The libraries *)

(** The library without a YAML parser: [yaml_load] reads nothing.
    [dict(v)] makes the empty dict of empty text and of the empty list; it
    refuses other text with [ValueError], a number with [TypeError]. *)
Definition lib0 : Lib string string string := {|
  Angle := of_text (fun v => match v with DAngle a => Some a | _ => None end);
  Quantity := of_text (fun v => match v with DQuantity q => Some q | _ => None end);
  Time := of_text (fun v => match v with DTime t => Some t | _ => None end);
  is_energy := is_eV;
  angle_eq := String.eqb;
  quantity_eq := same_quantity;
  time_eq := String.eqb;
  str_eq_angle := String.eqb;
  str_eq_quantity := same_quantity;
  str_eq_time := String.eqb;
  angle_ambiguous := several;
  quantity_ambiguous := several;
  time_ambiguous := several;
  str_ambiguous_angle := text_several;
  str_ambiguous_quantity := text_several;
  str_ambiguous_time := text_several;
  angle_value_unit := fun a => a;
  quantity_value_unit := fun q => q;
  time_value := fun t => t;
  path_text := fun s => s;
  is_file := fun _ => false;
  str_of := fun _ => None;
  int_of := fun _ => None;
  bool_of := fun _ => None;
  dict_of := fun v => match v with
                     | DStr EmptyString | DList [] => Some []
                     | _ => None
                     end;
  dict_refusal := fun v => match v with DStr _ => PyValueError | _ => TypeError end;
  yaml_dump := dump;
  yaml_load := fun _ => None;
  available_selection := ["counts"; "exposure"; "background"; "psf"; "edisp"]
|}.

(** [AnalysisConfig()] *)
Definition defaults : data string string string :=
  match construct lib0 (AnalysisConfig lib0) None with
  | Some c => c
  | None => DNone
  end.

(** PyYAML on the two documents of the examples, which are block
    mappings, and on what [dump] writes. *)
Definition load_text (s : string) : option (data string string string) :=
  if String.eqb s cube_text then Some (DDict cube_dict)
  else if String.eqb s bad_text then Some (DDict bad_dict)
  else load s.

Definition lib : Lib string string string := {|
  Angle := lib0.(Angle);
  Quantity := lib0.(Quantity);
  Time := lib0.(Time);
  is_energy := lib0.(is_energy);
  angle_eq := lib0.(angle_eq);
  quantity_eq := lib0.(quantity_eq);
  time_eq := lib0.(time_eq);
  str_eq_angle := lib0.(str_eq_angle);
  str_eq_quantity := lib0.(str_eq_quantity);
  str_eq_time := lib0.(str_eq_time);
  angle_ambiguous := lib0.(angle_ambiguous);
  quantity_ambiguous := lib0.(quantity_ambiguous);
  time_ambiguous := lib0.(time_ambiguous);
  str_ambiguous_angle := lib0.(str_ambiguous_angle);
  str_ambiguous_quantity := lib0.(str_ambiguous_quantity);
  str_ambiguous_time := lib0.(str_ambiguous_time);
  angle_value_unit := lib0.(angle_value_unit);
  quantity_value_unit := lib0.(quantity_value_unit);
  time_value := lib0.(time_value);
  path_text := lib0.(path_text);
  is_file := lib0.(is_file);
  str_of := lib0.(str_of);
  int_of := lib0.(int_of);
  bool_of := lib0.(bool_of);
  dict_of := lib0.(dict_of);
  dict_refusal := lib0.(dict_refusal);
  yaml_dump := lib0.(yaml_dump);
  yaml_load := load_text;
  available_selection := lib0.(available_selection)
|}.

Definition instance (l : Lib string string string)
  (kv : list (string * data string string string)) : data string string string :=
  match construct l (AnalysisConfig l) (Some (DDict kv)) with
  | Some c => c
  | None => DNone
  end.

(** The override of the example as an instance: [datasets.type = "3d"]. *)
Definition cube : data string string string :=
  match construct lib (AnalysisConfig lib) (Some (DDict cube_dict)) with
  | Some c => c
  | None => DNone
  end.

(** A base away from the defaults: 20 energy bins for the flux points,
    no stacking. *)
Definition base : data string string string :=
  match construct lib (AnalysisConfig lib)
          (Some (DDict [("datasets", DDict [("stack", DBool false)]);
                        ("flux_points",
                         DDict [("energy", DDict [("nbins", DInt 20)])])])) with
  | Some c => c
  | None => DNone
  end.

(** A configuration away from the defaults in fields of every kind. *)
Definition survey_dict : list (string * data string string string) :=
  [("general", DDict [("log", DDict [("level", DStr "debug")]);
                      ("outdir", DStr "out")]);
   ("observations",
    DDict [("obs_ids", DList [DInt 23523; DInt 23526]);
           ("obs_cone", DDict [("frame", DStr "icrs");
                               ("lon", DStr "83.6 deg");
                               ("lat", DStr "22.0 deg");
                               ("radius", DStr "5 deg")]);
           ("obs_time", DDict [("start", DStr "2004-01-01");
                               ("stop", DStr "2004-12-31")])]);
   ("datasets", DDict [("type", DStr "3d");
                       ("stack", DBool false);
                       ("map_selection", DList [DStr "counts"; DStr "exposure"])]);
   ("fit", DDict [("fit_range", DDict [("min", DStr "1 TeV")])])].

Definition survey : data string string string := instance lib survey_dict.

(** An override with an Angle of two values for the width of the field
    of view, and a base whose lower bound of the fit range is 100 GeV, the
    default 0.1 TeV in another unit. *)
Definition wide_dict : list (string * data string string string) :=
  [("datasets",
    DDict [("geom",
            DDict [("wcs",
                    DDict [("fov", DDict [("width", DAngle "[1. 2.] deg")])])])])].

Definition wide : data string string string := instance lib wide_dict.


(** As [lib], but text never equals an Angle or a Quantity: the answer
    of a [Quantity.__eq__] that does not parse its other operand. *)
Definition strict : Lib string string string := {|
  Angle := lib.(Angle);
  Quantity := lib.(Quantity);
  Time := lib.(Time);
  is_energy := lib.(is_energy);
  angle_eq := lib.(angle_eq);
  quantity_eq := lib.(quantity_eq);
  time_eq := lib.(time_eq);
  str_eq_angle := fun _ _ => false;
  str_eq_quantity := fun _ _ => false;
  str_eq_time := fun _ _ => false;
  angle_ambiguous := lib.(angle_ambiguous);
  quantity_ambiguous := lib.(quantity_ambiguous);
  time_ambiguous := lib.(time_ambiguous);
  str_ambiguous_angle := fun _ _ => false;
  str_ambiguous_quantity := fun _ _ => false;
  str_ambiguous_time := fun _ _ => false;
  angle_value_unit := lib.(angle_value_unit);
  quantity_value_unit := lib.(quantity_value_unit);
  time_value := lib.(time_value);
  path_text := lib.(path_text);
  is_file := lib.(is_file);
  str_of := lib.(str_of);
  int_of := lib.(int_of);
  bool_of := lib.(bool_of);
  dict_of := lib.(dict_of);
  dict_refusal := lib.(dict_refusal);
  yaml_dump := lib.(yaml_dump);
  yaml_load := lib.(yaml_load);
  available_selection := lib.(available_selection)
|}.

(** A base with a lower energy bound of 1 TeV for the flux points, and an
    override that sets only their number of bins. *)
Definition base_min : list (string * data string string string) :=
  [("flux_points", DDict [("energy", DDict [("min", DStr "1 TeV")])])].

Definition more_bins : list (string * data string string string) :=
  [("flux_points", DDict [("energy", DDict [("nbins", DInt 10)])])].

End Ref.

(** * The other methods of the module *)

(** ** Exceptions of the other methods *)

Inductive error : Type :=
| Exn (e : exn)          (* an exception of construction, of YAML or of update *)
| ValueError             (* an object has no such field; logging refuses a level *)
| AttributeError         (* an attribute read on a value that has none *)
| IOError                (* write: the file exists already *)
| FileNotFoundError      (* no file at the path; no directory to write it in *)
| PermissionError        (* the path may not be written *)
| IsADirectoryError      (* the path is a directory *)
| KeyError               (* from_template: no template of that name *)
| UnboundLocalError.     (* a local variable read before it is bound *)

Inductive outcome (A : Type) : Type :=
| Return (a : A)
| Throw (e : error).
Arguments Throw {A} e.

Definition of_result {A : Type} (r : result A) : outcome A :=
  match r with
  | Ok a => Return a
  | Raise e => Throw (Exn e)
  end.

(** ** Text *)

Definition nl : ascii := "010"%char.
Definition cr : ascii := "013"%char.
Definition tab : ascii := "009"%char.

(** [s.startswith(p)] *)
Definition startswith (s p : string) : bool := String.prefix p s.

(** [s.strip("\n")]: the newlines at both ends are removed. *)
Fixpoint lstrip_nl (s : string) : string :=
  match s with
  | String c r => if Ascii.eqb c nl then lstrip_nl r else s
  | EmptyString => EmptyString
  end.

Fixpoint rstrip_nl (s : string) : string :=
  match s with
  | EmptyString => EmptyString
  | String c r =>
      match rstrip_nl r with
      | EmptyString => if Ascii.eqb c nl then EmptyString else String c EmptyString
      | r' => String c r'
      end
  end.

Definition strip_nl (s : string) : string := rstrip_nl (lstrip_nl s).

(** [s.replace(old, new)] for a non-empty [old]: the occurrences are taken
    from the left and do not overlap; [skip] counts the characters of an
    occurrence still to pass. *)
Fixpoint replace_from (old new : string) (skip : nat) (s : string) : string :=
  match s with
  | EmptyString => EmptyString
  | String c r =>
      match skip with
      | S k => replace_from old new k r
      | O =>
          if String.prefix old s
          then new ++ replace_from old new (String.length old - 1) r
          else String c (replace_from old new 0 r)
      end
  end.

Definition replace (old new s : string) : string := replace_from old new 0 s.

(** [s.expandtabs(tabsize=4)]: a tab becomes the spaces up to the next
    multiple of four columns; a newline or a carriage return starts the
    columns again. *)
Fixpoint spaces (n : nat) : string :=
  match n with
  | O => EmptyString
  | S k => String " "%char (spaces k)
  end.

Fixpoint expandtabs (col : nat) (s : string) : string :=
  match s with
  | EmptyString => EmptyString
  | String c r =>
      if Ascii.eqb c tab then
        let incr := 4 - Nat.modulo col 4 in
        spaces incr ++ expandtabs (col + incr) r
      else if Ascii.eqb c nl || Ascii.eqb c cr then String c (expandtabs 0 r)
      else String c (expandtabs (col + 1) r)
  end.

Fixpoint no_tab (s : string) : bool :=
  match s with
  | EmptyString => true
  | String c r => negb (Ascii.eqb c tab) && no_tab r
  end.

(** ** [_get_doc_sections] and [help]

    The docs file is given by the lines that iterating over it yields.
    [doc] is the [defaultdict(str)], in insertion order. *)
Definition section_mark : string := "# Section: ".

Definition doc_get (doc : list (string * string)) (k : string) : string :=
  match lookup k doc with
  | Some text => text
  | None => EmptyString
  end.

Fixpoint doc_loop (lines : list string) (keyword : option string)
  (doc : list (string * string)) : outcome (list (string * string)) :=
  match lines with
  | [] => Return doc
  | raw :: rest =>
      if startswith raw "---" then doc_loop rest keyword doc
      else
        let line := strip_nl raw in
        let keyword :=
          if startswith line section_mark
          then Some (replace section_mark "" line)
          else keyword in
        match keyword with
        | None => Throw UnboundLocalError
        | Some k =>
            doc_loop rest keyword
              (set_item k (doc_get doc k ++ line ++ String nl EmptyString) doc)
        end
  end.

Definition _get_doc_sections (lines : list string)
  : outcome (list (string * string)) :=
  doc_loop lines None [].

(** [help(section)]: what it prints, one entry per call of [print]. *)
Definition help (lines : list string) (section : string) : outcome (list string) :=
  match _get_doc_sections lines with
  | Throw e => Throw e
  | Return doc =>
      Return (map snd
                (filter (fun e => String.eqb section "" || String.eqb section (fst e))
                   doc))
  end.

(** What the loop is to compute: each kept line with the keyword it falls
    under, the last header at or before it. *)
Fixpoint tagged (lines : list string) (keyword : option string)
  : list (option string * string) :=
  match lines with
  | [] => []
  | raw :: rest =>
      if startswith raw "---" then tagged rest keyword
      else
        let line := strip_nl raw in
        let keyword :=
          if startswith line section_mark
          then Some (replace section_mark "" line)
          else keyword in
        (keyword, line) :: tagged rest keyword
  end.

Definition opt_eqb (a : option string) (k : string) : bool :=
  match a with
  | Some k' => String.eqb k' k
  | None => false
  end.

(** The lines under keyword [k], each followed by a newline. *)
Fixpoint block (k : string) (tl : list (option string * string)) : string :=
  match tl with
  | [] => EmptyString
  | (a, line) :: rest =>
      if opt_eqb a k then line ++ String nl EmptyString ++ block k rest
      else block k rest
  end.

(** The keywords in the order the loop first meets them. *)
Definition add_key (acc : list string) (k : string) : list string :=
  if mem k acc then acc else acc ++ [k].

Fixpoint keywords (tl : list (option string * string)) : list string :=
  match tl with
  | [] => []
  | (Some k, _) :: rest => k :: keywords rest
  | (None, _) :: rest => keywords rest
  end.

Definition sections (lines : list string) : list string :=
  fold_left add_key (keywords (tagged lines None)) [].

(** ** Files *)

Definition ANALYSIS_TEMPLATES : list (string * string) :=
  [("1d", "template-1d.yaml"); ("3d", "template-3d.yaml")].

(** The file system, by the text of each file. *)
Definition files : Type := string -> option string.

Definition write_text (fs : files) (path text : string) : files :=
  fun q => if String.eqb q path then Some text else fs q.

Section Methods.

Variables angle quantity time : Type.
Variable L : Lib angle quantity time.

#[local] Abbreviation data := (data angle quantity time).
#[local] Abbreviation schema := (schema angle quantity time).

(** What the standard library, pathlib and [gammapy.utils.scripts]
    compute; a file is a text file, known by the text of its path. *)
Record Sys : Type := {
  upper : string -> string;                   (* str.upper *)
  basicConfig : data -> bool;                 (* logging.basicConfig returns *)
  make_path : string -> string;               (* make_path(path), by its text *)
  config_file : string -> string;             (* CONFIG_PATH / name, by its text *)
  open_w : files -> string -> option error;   (* what opening the path to write
                                                 raises, where it does; a file
                                                 that is opened is written whole *)
  read_yaml : files -> string -> outcome data (* read_yaml(path) *)
}.

Variable sys : Sys.

(** Modelled from the spec: [read_yaml(path)], of [gammapy.utils.scripts],
    loads the structured text of the file at [make_path(path)] into a
    nested mapping with PyYAML; a file that does not exist is an error. *)
Definition read_yaml_loads : Prop :=
  forall fs path,
    sys.(read_yaml) fs path
    = match fs (sys.(make_path) path) with
      | None => Throw FileNotFoundError
      | Some text =>
          match L.(yaml_load) text with
          | Some d => Return d
          | None => Throw (Exn YAMLError)
          end
      end.

(** ** [read] and [write] *)

Definition read (fs : files) (path : string) : outcome data :=
  match sys.(read_yaml) fs path with
  | Throw e => Throw e
  | Return (DDict config) => of_result (new_AnalysisConfig L config)
  | Return _ => Throw (Exn TypeError)
  end.

Definition write (self : data) (path : string) (overwrite : bool) (fs : files)
  : outcome unit * files :=
  let path := sys.(make_path) path in
  let exists_ := match fs path with Some _ => true | None => false end in
  if exists_ && negb overwrite then (Throw IOError, fs)
  else
    (* path.write_text(self.to_yaml()) *)
    match sys.(open_w) fs path with
    | Some e => (Throw e, fs)
    | None => (Return tt, write_text fs path (to_yaml L self))
    end.

(** ** [from_template] *)

Definition from_template (fs : files) (template : string) : outcome data :=
  match lookup template ANALYSIS_TEMPLATES with
  | None => Throw KeyError
  | Some name => read fs (sys.(config_file) name)
  end.

(** ** [__str__] *)

Definition __str__ (self : data) : string :=
  let info := "AnalysisConfig" ++ String nl (String nl (String tab EmptyString)) in
  let data := to_yaml L self in
  let data := replace (String nl EmptyString) (String nl (String tab EmptyString)) data in
  expandtabs 0 (info ++ data).

(** ** Assignment ([validate_assignment = True])

    [setattr s self name value]: the value is validated as the field's and
    stored; a name that is no field is refused. *)
Definition setattr (s : schema) (self : data) (name : string) (value : data)
  : outcome data :=
  match s, self with
  | model fs, DDict kv =>
      match lookup name fs with
      | None => Throw ValueError
      | Some s' =>
          match construct L s' (Some value) with
          | Some v => Return (DDict (set_item name v kv))
          | None => Throw (Exn ValidationError)
          end
      end
  | _, _ => Throw AttributeError
  end.

(** [self.a.b.c = value]: the objects on the way are read, the last one is
    assigned to; they are parts of [self]. *)
Fixpoint assign (s : schema) (self : data) (p : list string) (value : data)
  {struct p} : outcome data :=
  match p with
  | [] => Throw AttributeError
  | [name] => setattr s self name value
  | name :: p' =>
      match s, self with
      | model fs, DDict kv =>
          match lookup name fs, lookup name kv with
          | Some s', Some v =>
              match assign s' v p' value with
              | Return v' => Return (DDict (set_item name v' kv))
              | Throw e => Throw e
              end
          | _, _ => Throw AttributeError
          end
      | _, _ => Throw AttributeError
      end
  end.

(** ** [set_logging] *)

Definition set_logging (self : data) : outcome unit * data :=
  match get ["general"; "log"; "level"] self with
  | Some (DStr level) =>
      match assign (AnalysisConfig L) self ["general"; "log"; "level"]
              (DStr (sys.(upper) level)) with
      | Throw e => (Throw e, self)
      | Return self' =>
          match get ["general"; "log"] self' with
          | Some log =>
              if sys.(basicConfig) log then (Return tt, self')
              else (Throw ValueError, self')
          | None => (Throw AttributeError, self')
          end
      end
  | _ => (Throw AttributeError, self)
  end.

(** ** Shapes of values *)



(** The keyword arguments hold, at the class path [p] leads to, a key [k]
    that is no field of the class. *)
Fixpoint extra_key (p : list string) (k : string) (s : schema) (raw : data)
  {struct p} : bool :=
  match s, raw with
  | model fs, DDict kv =>
      match p with
      | [] => mem k (keys kv) && negb (mem k (keys fs))
      | name :: p' =>
          match lookup name fs, lookup name kv with
          | Some s', Some v => extra_key p' k s' v
          | _, _ => false
          end
      end
  | _, _ => false
  end.

(** The field of the schema a path names, a leaf or a nested class. *)
Fixpoint field_at (p : list string) (s : schema) {struct p} : option schema :=
  match p with
  | [] => Some s
  | k :: p' =>
      match s with
      | model fs =>
          match lookup k fs with
          | Some s' => field_at p' s'
          | None => None
          end
      | field _ _ => None
      end
  end.

(** A field is optional when its declared default is [None]. *)
Definition optional (s : schema) : bool :=
  match s with
  | field _ d => is_None d
  | model _ => false
  end.

(** The path [q] starts with the path [p]: it names the field at [p] or
    a field inside it. *)
Fixpoint starts_with (q p : list string) : bool :=
  match p, q with
  | [], _ => true
  | k :: p', k' :: q' => String.eqb k k' && starts_with q' p'
  | _ :: _, [] => false
  end.

(** Every leaf of the schema meets [P]. *)
Fixpoint all_leaves (P : ftype -> data -> bool) (s : schema) {struct s} : bool :=
  match s with
  | field t d => P t d
  | model fs => forallb (fun e => all_leaves P (snd e)) fs
  end.

End Methods.

(** A reference instance: upper case of the ASCII letters, a logging that
    knows the standard level names, paths as they are, no directory
    [nodir]. *)
Module RefSys.

Definition upper_char (c : ascii) : ascii :=
  let n := nat_of_ascii c in
  if (97 <=? n)%nat && (n <=? 122)%nat then ascii_of_nat (n - 32) else c.

Fixpoint upper_ascii (s : string) : string :=
  match s with
  | EmptyString => EmptyString
  | String c r => String (upper_char c) (upper_ascii r)
  end.

Definition levels : list string :=
  ["CRITICAL"; "ERROR"; "WARNING"; "INFO"; "DEBUG"; "NOTSET"].

Definition knows_level (log : data string string string) : bool :=
  match get ["level"] log with
  | Some (DStr level) => mem level levels
  | _ => false
  end.

Definition load_file (fs : files) (path : string)
  : outcome (data string string string) :=
  match fs path with
  | None => Throw FileNotFoundError
  | Some text =>
      match Ref.lib.(yaml_load) text with
      | Some d => Return d
      | None => Throw (Exn YAMLError)
      end
  end.

Definition sys : Sys string string string := {|
  upper := upper_ascii;
  basicConfig := knows_level;
  make_path := fun p => p;
  config_file := fun name => "config/" ++ name;
  open_w := fun _ p => if String.prefix "nodir/" p then Some FileNotFoundError else None;
  read_yaml := load_file
|}.

Definition no_files : files := fun _ => None.

(** A file system that holds the 3d template. *)
Definition templates : files :=
  fun q => if String.eqb q "config/template-3d.yaml" then Some Ref.cube_text else None.

Definition docs : list string :=
  ["---" ++ String nl "";
   "# Section: general" ++ String nl "";
   "# General settings" ++ String nl "";
   "---" ++ String nl "";
   "# Section: datasets" ++ String nl "";
   "# Datasets settings" ++ String nl ""].

End RefSys.


(** * Properties *)

Unset Implicit Arguments.

Section Properties.

Variables angle quantity time : Type.
Variable L : Lib angle quantity time.

#[local] Abbreviation data := (data angle quantity time).
#[local] Abbreviation schema := (schema angle quantity time).

(** ** Association lists *)

Lemma mem_In (k : string) (ks : list string) : mem k ks = true <-> In k ks.
Proof.
  unfold mem. rewrite existsb_exists. split.
  - intros [x [Hx He]]. apply String.eqb_eq in He. now subst.
  - intros H. exists k. split; [exact H | apply String.eqb_refl].
Qed.

Lemma mem_false (k : string) (ks : list string) : mem k ks = false <-> ~ In k ks.
Proof.
  rewrite <- mem_In. destruct (mem k ks); split; congruence.
Qed.

Lemma nodup_keys_NoDup (ks : list string) : nodup_keys ks = true <-> NoDup ks.
Proof.
  induction ks as [|k r IH]; simpl.
  - split; [constructor | reflexivity].
  - rewrite andb_true_iff, negb_true_iff, mem_false, IH. split.
    + intros [H1 H2]. now constructor.
    + intros H. inversion H; subst. now split.
Qed.

Lemma keys_eqb_eq (a b : list string) : keys_eqb a b = true <-> a = b.
Proof.
  revert b. induction a as [|x a IH]; intros [|y b]; simpl; try (split; congruence).
  rewrite andb_true_iff, String.eqb_eq, IH. split.
  - intros [-> ->]. reflexivity.
  - intros H. inversion H. now split.
Qed.

Section assoc.
Variable A : Type.
Implicit Types (kv : list (string * A)) (k : string).

Lemma lookup_None kv k : lookup k kv = None <-> ~ In k (keys kv).
Proof.
  induction kv as [|[k' v] r IH]; simpl.
  - tauto.
  - destruct (String.eqb_spec k k') as [->|Hne].
    + split; [discriminate | intros H; exfalso; apply H; now left].
    + rewrite IH. split; intros H; [intros [E|I]; [congruence | tauto] | tauto].
Qed.

Lemma lookup_In kv k v : lookup k kv = Some v -> In (k, v) kv.
Proof.
  induction kv as [|[k' v'] r IH]; simpl; [discriminate|].
  destruct (String.eqb_spec k k') as [->|Hne].
  - intros [= ->]. now left.
  - intros H. right. now apply IH.
Qed.

Lemma lookup_Some_key kv k v : lookup k kv = Some v -> In k (keys kv).
Proof.
  intros H. apply lookup_In in H. unfold keys. now apply (in_map fst) in H.
Qed.

Lemma key_lookup kv k : In k (keys kv) -> exists v, lookup k kv = Some v.
Proof.
  intros H. destruct (lookup k kv) as [v|] eqn:E; [now exists v|].
  apply lookup_None in E. contradiction.
Qed.

Lemma In_lookup kv k v : NoDup (keys kv) -> In (k, v) kv -> lookup k kv = Some v.
Proof.
  induction kv as [|[k' v'] r IH]; simpl; [tauto|].
  intros Hnd [E|I].
  - inversion E; subst. now rewrite String.eqb_refl.
  - inversion Hnd as [|? ? Hn Hr]; subst.
    destruct (String.eqb_spec k k') as [->|Hne].
    + exfalso. apply Hn. unfold keys. now apply (in_map fst) in I.
    + now apply IH.
Qed.

Lemma lookup_set_item kv k k' (v : A) :
  lookup k (set_item k' v kv) = if String.eqb k k' then Some v else lookup k kv.
Proof.
  induction kv as [|[k1 v1] r IH]; simpl.
  - reflexivity.
  - destruct (String.eqb_spec k' k1) as [->|Hne]; simpl.
    + destruct (String.eqb k k1); reflexivity.
    + destruct (String.eqb_spec k k1) as [->|Hne1].
      * destruct (String.eqb_spec k1 k'); [congruence | reflexivity].
      * exact IH.
Qed.

Lemma keys_set_item kv k k' (v : A) :
  In k (keys (set_item k' v kv)) <-> k = k' \/ In k (keys kv).
Proof.
  split.
  - intros H. apply key_lookup in H. destruct H as [x Hx].
    rewrite lookup_set_item in Hx.
    destruct (String.eqb_spec k k'); [now left | right].
    now apply lookup_Some_key in Hx.
  - intros H.
    assert (Hl : lookup k (set_item k' v kv) <> None).
    { rewrite lookup_set_item. destruct (String.eqb_spec k k'); [discriminate|].
      destruct H as [H|H]; [contradiction|].
      apply key_lookup in H. destruct H as [x ->]. discriminate. }
    destruct (lookup k (set_item k' v kv)) eqn:E; [|contradiction].
    now apply lookup_Some_key in E.
Qed.
End assoc.

(** *** The loops over a class's fields and over a mapping *)

Lemma update_loop_fold (f : option data -> data -> data)
  (mapping updating acc : list (string * data)) (k : string) :
  NoDup (keys updating) ->
  lookup k (fold_left
              (fun updated e =>
                 set_item (fst e) (f (lookup (fst e) mapping) (snd e)) updated)
              updating acc)
  = match lookup k updating with
    | Some x => Some (f (lookup k mapping) x)
    | None => lookup k acc
    end.
Proof.
  revert acc. induction updating as [|[k1 x1] u IH]; intros acc Hnd; simpl.
  - reflexivity.
  - inversion Hnd as [|? ? Hn Hu]; subst.
    rewrite IH by exact Hu. rewrite lookup_set_item.
    destruct (String.eqb_spec k k1) as [->|Hne].
    + apply lookup_None in Hn. now rewrite Hn.
    + reflexivity.
Qed.

Lemma lookup_update_loop (f : option data -> data -> data)
  (mapping updating : list (string * data)) (k : string) :
  NoDup (keys updating) ->
  lookup k (update_loop f mapping updating)
  = match lookup k updating with
    | Some x => Some (f (lookup k mapping) x)
    | None => lookup k mapping
    end.
Proof. apply update_loop_fold. Qed.

Lemma keys_update_fold (f : option data -> data -> data)
  (mapping updating acc : list (string * data)) (k : string) :
  In k (keys (fold_left
                (fun updated e =>
                   set_item (fst e) (f (lookup (fst e) mapping) (snd e)) updated)
                updating acc)) ->
  In k (keys acc) \/ In k (keys updating).
Proof.
  revert acc. induction updating as [|[k1 x1] u IH]; intros acc; simpl.
  - now left.
  - intros H. apply IH in H. destruct H as [H|H]; [|now right; right].
    apply keys_set_item in H. destruct H as [->|H]; [right; now left | now left].
Qed.

Lemma keys_update_loop (f : option data -> data -> data)
  (mapping updating : list (string * data)) (k : string) :
  In k (keys (update_loop f mapping updating)) ->
  In k (keys mapping) \/ In k (keys updating).
Proof. apply keys_update_fold. Qed.

Lemma deep_update_value_dicts (m u : list (string * data)) :
  deep_update_value (Some (DDict m)) (DDict u) = DDict (deep_update m u).
Proof. reflexivity. Qed.

Lemma deep_update_value_new (v : data) : deep_update_value None v = v.
Proof. destruct v; reflexivity. Qed.

Lemma build_keys (f : schema -> option data -> option data)
  (kv : list (string * data)) (fs : list (string * schema)) r :
  build f kv fs = Some r -> keys r = keys fs.
Proof.
  revert r. induction fs as [|[name s'] rest IH]; simpl; intros r.
  - now intros [= <-].
  - destruct (f s' (lookup name kv)); [|discriminate].
    destruct (build f kv rest) as [r'|]; [|discriminate].
    intros [= <-]. simpl. f_equal. now apply IH.
Qed.

Lemma build_lookup (f : schema -> option data -> option data)
  (kv : list (string * data)) (fs : list (string * schema)) r name s' :
  NoDup (keys fs) ->
  build f kv fs = Some r ->
  lookup name fs = Some s' ->
  lookup name r = f s' (lookup name kv) /\ lookup name r <> None.
Proof.
  revert r. induction fs as [|[n s1] rest IH]; simpl; intros r Hnd; [discriminate|].
  inversion Hnd as [|? ? Hn Hr]; subst.
  destruct (f s1 (lookup n kv)) as [x|] eqn:Ex; [|discriminate].
  destruct (build f kv rest) as [r'|] eqn:Er; [|discriminate].
  intros [= <-]. simpl.
  destruct (String.eqb_spec name n) as [->|Hne].
  - intros [= <-]. rewrite Ex. split; [reflexivity | discriminate].
  - intros Hl. now apply IH.
Qed.

Lemma build_map (f : schema -> option data -> option data)
  (kv : list (string * data)) (fs : list (string * schema))
  (g : string * schema -> data) :
  (forall e, In e fs -> f (snd e) (lookup (fst e) kv) = Some (g e)) ->
  build f kv fs = Some (map (fun e => (fst e, g e)) fs).
Proof.
  induction fs as [|[n s1] rest IH]; simpl; intros H.
  - reflexivity.
  - pose proof (H (n, s1) (or_introl eq_refl)) as H1. simpl in H1. rewrite H1.
    rewrite IH by (intros e He; apply H; now right). reflexivity.
Qed.

Lemma lookup_export (skip : schema -> data -> bool) (f : schema -> data -> data)
  (kv : list (string * data)) (fs : list (string * schema)) name s' :
  NoDup (keys fs) ->
  lookup name fs = Some s' ->
  lookup name (export skip f kv fs)
  = match lookup name kv with
    | Some v => if skip s' v then None else Some (f s' v)
    | None => None
    end.
Proof.
  induction fs as [|[n s1] rest IH]; simpl; intros Hnd; [discriminate|].
  inversion Hnd as [|? ? Hn Hr]; subst.
  assert (Hskip : forall k, ~ In k (keys rest) -> lookup k (export skip f kv rest) = None).
  { clear. intros k. induction rest as [|[n2 s2] r IH2]; simpl; intros Hk; [reflexivity|].
    destruct (lookup n2 kv) as [v|]; [|apply IH2; tauto].
    destruct (skip s2 v); [apply IH2; tauto|]. simpl.
    destruct (String.eqb_spec k n2) as [->|_]; [exfalso; apply Hk; now left | apply IH2; tauto]. }
  destruct (String.eqb_spec name n) as [->|Hne].
  - intros [= <-]. destruct (lookup n kv) as [v|]; [|now apply Hskip].
    destruct (skip s1 v); [now apply Hskip|]. simpl. now rewrite String.eqb_refl.
  - intros Hl. destruct (lookup n kv) as [v|]; [|now apply IH].
    destruct (skip s1 v); [now apply IH|]. simpl.
    destruct (String.eqb_spec name n); [congruence | now apply IH].
Qed.

Lemma keys_export (skip : schema -> data -> bool) (f : schema -> data -> data)
  (kv : list (string * data)) (fs : list (string * schema)) k :
  In k (keys (export skip f kv fs)) -> In k (keys fs).
Proof.
  induction fs as [|[n s1] rest IH]; simpl; [tauto|].
  destruct (lookup n kv) as [v|]; [|intros H; right; now apply IH].
  destruct (skip s1 v); [intros H; right; now apply IH|]. simpl.
  intros [H|H]; [now left | right; now apply IH].
Qed.

Lemma NoDup_keys_export (skip : schema -> data -> bool) (f : schema -> data -> data)
  (kv : list (string * data)) (fs : list (string * schema)) :
  NoDup (keys fs) -> NoDup (keys (export skip f kv fs)).
Proof.
  induction fs as [|[n s1] rest IH]; simpl; intros Hnd; [constructor|].
  inversion Hnd as [|? ? Hn Hr]; subst.
  destruct (lookup n kv) as [v|]; [|now apply IH].
  destruct (skip s1 v); [now apply IH|]. simpl. constructor; [|now apply IH].
  intros H. apply Hn. now apply keys_export in H.
Qed.

(** *** Equality of dicts *)

Lemma py_eq_dict (kv kv' : list (string * data)) :
  py_eq L (DDict kv) (DDict kv')
  = Nat.eqb (length kv) (length kv')
    && forallb (fun e => match lookup (fst e) kv' with
                         | Some v' => py_eq L (snd e) v'
                         | None => false
                         end) kv.
Proof.
  simpl. f_equal. induction kv as [|[k v] r IH]; simpl; [reflexivity|].
  now rewrite IH.
Qed.

Lemma py_eq_list (l l' : list data) :
  py_eq L (DList l) (DList l')
  = match l, l' with
    | [], [] => true
    | a :: r, b :: r' => py_eq L a b && py_eq L (DList r) (DList r')
    | _, _ => false
    end.
Proof. destruct l, l'; reflexivity. Qed.

(** *** Validators *)

Lemma find_eqb_Some (s0 : string) (l : list string) s :
  find (fun s' => String.eqb s' s0) l = Some s -> s = s0 /\ In s0 l.
Proof.
  intros H. apply find_some in H. destruct H as [Hin He].
  apply String.eqb_eq in He. subst. now split.
Qed.

Lemma find_eqb_In (s0 : string) (l : list string) :
  In s0 l -> find (fun s' => String.eqb s' s0) l = Some s0.
Proof.
  induction l as [|x r IH]; simpl; [tauto|].
  destruct (String.eqb_spec x s0) as [->|Hne]; [reflexivity|].
  intros [E|I]; [congruence | now apply IH].
Qed.

Lemma enum_validator_In (e : enum) (v : data) s :
  enum_validator L e v = Some s -> In s (enum_values e).
Proof. intros H. apply find_some in H. tauto. Qed.

Lemma enum_eqb_eq (a b : enum) : enum_eqb a b = true <-> a = b.
Proof. destruct a, b; simpl; split; congruence. Qed.

Lemma traverse_Some {A B : Type} (f : A -> option B) (l : list A) (r : list B) :
  traverse f l = Some r -> Forall2 (fun x y => f x = Some y) l r.
Proof.
  revert r. induction l as [|x l IH]; simpl; intros r.
  - intros [= <-]. constructor.
  - destruct (f x) as [y|] eqn:E; [|discriminate].
    destruct (traverse f l) as [r'|]; [|discriminate].
    intros [= <-]. constructor; [exact E | now apply IH].
Qed.

Lemma traverse_id {A : Type} (f : A -> option A) (l : list A) :
  Forall (fun x => f x = Some x) l -> traverse f l = Some l.
Proof.
  induction 1 as [|x l Hx _ IH]; simpl; [reflexivity|]. now rewrite Hx, IH.
Qed.

Lemma valid_not_None (t : ftype) (v : data) : valid L t v = true -> v <> DNone.
Proof. destruct t; intros H E; subst; discriminate. Qed.

Lemma valid_not_dict (t : ftype) (v : data) kv : valid L t v = true -> v <> DDict kv.
Proof. destruct t; intros H E; subst; discriminate. Qed.

Section revalidation.
Hypothesis HR : Revalidates L.

Lemma enum_eqb_refl (e : enum) : enum_eqb e e = true.
Proof. now destruct e. Qed.

Lemma validate_valid (t : ftype) : forall v x,
  validate L t v = Some x -> valid L t x = true.
Proof.
  assert (Hpath : forall v p, path_validator L v = Some p ->
                              String.eqb (path_text L p) p = true).
  { intros v p Hp. apply String.eqb_eq.
    destruct v; simpl in Hp; try discriminate;
      injection Hp as <-; apply (path_text_idem HR). }
  induction t as [| | | | | | | | e | t' IH]; intros v x H.
  - destruct v; simpl in H; try discriminate;
      try (injection H as <-; reflexivity);
      (destruct (str_of L _); simpl in H; [injection H as <-; reflexivity | discriminate]).
  - destruct v; simpl in H; try discriminate;
      try (injection H as <-; reflexivity);
      (destruct (int_of L _); simpl in H; [injection H as <-; reflexivity | discriminate]).
  - destruct v; simpl in H; try discriminate;
      try (injection H as <-; reflexivity);
      (destruct (bool_of L _); simpl in H; [injection H as <-; reflexivity | discriminate]).
  - assert (H' : option_map DPath (path_validator L v) = Some x)
      by (destruct v; try discriminate; exact H).
    destruct (path_validator L v) as [p|] eqn:Ep; [|discriminate].
    injection H' as <-. simpl. eapply Hpath, Ep.
  - assert (H' : match path_validator L v with
                 | Some p => if is_file L p then Some (DPath p) else None
                 | None => None
                 end = Some x)
      by (destruct v; try discriminate; exact H).
    destruct (path_validator L v) as [p|] eqn:Ep; [|discriminate].
    destruct (is_file L p) eqn:Ef; [|discriminate].
    injection H' as <-. simpl. now rewrite (Hpath _ _ Ep), Ef.
  - assert (H' : option_map DAngle (Angle L v) = Some x)
      by (destruct v; try discriminate; exact H).
    destruct (Angle L v); [|discriminate]. now injection H' as <-.
  - assert (H' : match Quantity L v with
                 | Some q => if is_energy L q then Some (DQuantity q) else None
                 | None => None
                 end = Some x)
      by (destruct v; try discriminate; exact H).
    destruct (Quantity L v) as [q0|]; [|discriminate].
    destruct (is_energy L q0) eqn:Eq; [|discriminate].
    injection H' as <-. exact Eq.
  - assert (H' : option_map DTime (Time L v) = Some x)
      by (destruct v; try discriminate; exact H).
    destruct (Time L v); [|discriminate]. now injection H' as <-.
  - assert (H' : option_map (DEnum e) (enum_validator L e v) = Some x)
      by (destruct v; try discriminate; exact H).
    destruct (enum_validator L e v) as [s0|] eqn:Es; [|discriminate].
    injection H' as <-. simpl. apply enum_validator_In, mem_In in Es.
    now rewrite Es, enum_eqb_refl.
  - destruct v; simpl in H; try discriminate.
    destruct (traverse (validate L t') l) as [r|] eqn:Et; simpl in H; [|discriminate].
    injection H as <-. simpl. apply traverse_Some in Et.
    apply forallb_forall. intros y Hy.
    induction Et as [|x' y' l' r' Hxy _ IHr]; [contradiction|].
    destruct Hy as [->|Hy]; [now apply (IH x') | now apply IHr].
Qed.

Lemma revalidate (t : ftype) : forall v,
  valid L t v = true -> validate L t v = Some v.
Proof.
  induction t as [| | | | | | | | e | t' IH]; intros v H;
    destruct v; simpl in H; try discriminate; simpl.
  - reflexivity.
  - reflexivity.
  - reflexivity.
  - apply String.eqb_eq in H. now rewrite H.
  - apply andb_true_iff in H. destruct H as [H1 H2].
    apply String.eqb_eq in H1. now rewrite H1, H2.
  - now rewrite (Angle_of_Angle HR).
  - now rewrite (Quantity_of_Quantity HR), H.
  - now rewrite (Time_of_Time HR).
  - apply andb_true_iff in H. destruct H as [H1 H2].
    apply enum_eqb_eq in H1. subst e0. apply mem_In in H2.
    unfold enum_validator. simpl. now rewrite (find_eqb_In _ _ H2).
  - rewrite traverse_id; [reflexivity|].
    rewrite forallb_forall in H. apply Forall_forall. intros x Hx. apply IH, H, Hx.
Qed.

Lemma validate_field_conforms (t : ftype) (d v x : data) :
  validate_field L t d v = Some x -> conforms L (field t d) x = true.
Proof.
  unfold validate_field. simpl. intros H.
  assert (Hv : validate L t v = Some x -> valid L t x = true) by apply validate_valid.
  destruct v; try (rewrite (Hv H); apply orb_true_r).
  destruct (is_None d); [|discriminate]. now injection H as <-.
Qed.

Lemma revalidate_field (t : ftype) (d v : data) :
  conforms L (field t d) v = true -> validate_field L t d v = Some v.
Proof.
  simpl. intros H. apply orb_true_iff in H. destruct H as [H|H].
  - apply andb_true_iff in H. destruct H as [Hd Hv].
    destruct v; try discriminate. simpl. now rewrite Hd.
  - pose proof (valid_not_None _ _ H) as Hn. pose proof (revalidate _ _ H) as Hr.
    destruct v; try exact Hr. contradiction.
Qed.
End revalidation.

(** *** Instances and defaults *)

Lemma item_lookup (kv : list (string * data)) (k : string) :
  In k (keys kv) -> lookup k kv = Some (item kv k).
Proof.
  intros H. apply key_lookup in H. destruct H as [v Hv]. unfold item. now rewrite Hv.
Qed.

Lemma conforms_model (fs : list (string * schema)) (c : data) :
  conforms L (model fs) c = true ->
  exists kv, c = DDict kv /\ keys kv = keys fs
             /\ forall e, In e fs -> conforms L (snd e) (item kv (fst e)) = true.
Proof.
  destruct c; simpl; try discriminate. intros H.
  apply andb_true_iff in H. destruct H as [Hk Hf].
  exists kv. split; [reflexivity|]. split; [now apply keys_eqb_eq|].
  now apply forallb_forall.
Qed.

Lemma conforms_leaf_not_dict (t : ftype) (d v : data) kv :
  conforms L (field t d) v = true -> v <> DDict kv.
Proof.
  simpl. intros H E. subst v. rewrite andb_false_r in H. simpl in H.
  now apply (valid_not_dict _ _ kv) in H.
Qed.

Lemma deep_update_value_leaf (old : option data) (v : data) :
  (forall kv, v <> DDict kv) -> deep_update_value old v = v.
Proof.
  intros H. destruct v; try reflexivity. now destruct (H kv).
Qed.

Lemma In_keys {A : Type} (fs : list (string * A)) (e : string * A) :
  In e fs -> In (fst e) (keys fs).
Proof. intros H. now apply (in_map fst) in H. Qed.

Lemma In_lookup_field (fs : list (string * schema)) (e : string * schema) :
  NoDup (keys fs) -> In e fs -> lookup (fst e) fs = Some (snd e).
Proof. intros Hnd He. apply In_lookup; [exact Hnd | now destruct e]. Qed.

Lemma construct_model_defaults (fs : list (string * schema)) (d : data) :
  construct L (model fs) None = Some d ->
  exists kd, d = DDict kd /\ build (construct L) [] fs = Some kd.
Proof.
  simpl. destruct (build (construct L) [] fs) as [kd|]; simpl; [|discriminate].
  intros [= <-]. now exists kd.
Qed.

Lemma default_item (fs : list (string * schema)) (kd : list (string * data))
  (e : string * schema) :
  NoDup (keys fs) -> build (construct L) [] fs = Some kd -> In e fs ->
  construct L (snd e) None = Some (item kd (fst e)).
Proof.
  intros Hnd Hb He.
  destruct (build_lookup _ _ _ _ (fst e) (snd e) Hnd Hb (In_lookup_field _ _ Hnd He))
    as [Hl Hn].
  simpl in Hl. rewrite <- Hl. unfold item.
  destruct (lookup (fst e) kd); [reflexivity | contradiction].
Qed.

Lemma wf_model (fs : list (string * schema)) :
  wf_schema L (model fs) = true ->
  NoDup (keys fs) /\ forall e, In e fs -> wf_schema L (snd e) = true.
Proof.
  simpl. intros H. apply andb_true_iff in H. destruct H as [H1 H2].
  split; [now apply nodup_keys_NoDup | now apply forallb_forall].
Qed.

Lemma distinct_model (fs : list (string * schema)) :
  distinct_fields (model fs) = true ->
  NoDup (keys fs) /\ forall e, In e fs -> distinct_fields (snd e) = true.
Proof.
  simpl. intros H. apply andb_true_iff in H. destruct H as [H1 H2].
  split; [now apply nodup_keys_NoDup | now apply forallb_forall].
Qed.

Lemma wf_distinct (s : schema) : wf_schema L s = true -> distinct_fields s = true.
Proof.
  induction s as [t d|fs IH] using schema_ind; intros Hwf; [reflexivity|].
  destruct (wf_model _ Hwf) as [Hnd Hwfs]. simpl.
  apply andb_true_iff. split; [now apply nodup_keys_NoDup|].
  apply forallb_forall. intros e He. rewrite Forall_forall in IH.
  exact (IH e He (Hwfs e He)).
Qed.

(** Equal dicts hold equal values under each key. *)
Lemma py_eq_dict_item (kd kb : list (string * data)) (k : string) :
  NoDup (keys kd) -> py_eq L (DDict kd) (DDict kb) = true -> In k (keys kd) ->
  py_eq L (item kd k) (item kb k) = true.
Proof.
  intros Hnd H Hk. rewrite py_eq_dict in H. apply andb_true_iff in H.
  destruct H as [_ H]. rewrite forallb_forall in H.
  apply key_lookup in Hk. destruct Hk as [v Hv].
  pose proof (H (k, v) (lookup_In _ _ _ _ Hv)) as Hkv. simpl in Hkv.
  unfold item. rewrite Hv. destruct (lookup k kb); [exact Hkv | discriminate].
Qed.

Section literal_defaults.
Hypothesis HE : LiteralEq L.

(** A declared default and its validated form compare alike with every
    value of the field's type. *)
Lemma declared_eq (t : ftype) : forall x x',
  declared L t x = true -> validate L t x = Some x' ->
  forall y, valid L t y = true -> py_eq L x y = py_eq L x' y.
Proof.
  induction t as [| | | | | | | | e | t' IH]; intros x x' Hd Hv y Hy;
    destruct x; simpl in Hd; try discriminate; simpl in Hv.
  - now injection Hv as <-.
  - now injection Hv as <-.
  - now injection Hv as <-.
  - apply String.eqb_eq in Hd. rewrite Hd in Hv. now injection Hv as <-.
  - destruct (Angle L (DStr s)) as [a0|] eqn:Ea; [|discriminate].
    injection Hv as <-. destruct y; try discriminate. simpl.
    apply (str_eq_angle_spec HE _ Ea).
  - destruct (Quantity L (DStr s)) as [q0|] eqn:Eq; [|discriminate].
    destruct (is_energy L q0); [|discriminate].
    injection Hv as <-. destruct y; try discriminate. simpl.
    apply (str_eq_quantity_spec HE _ Eq).
  - unfold enum_validator in Hv. simpl in Hv.
    destruct (find (fun s' => String.eqb s' s) (enum_values e)) as [s1|] eqn:Ef;
      [|discriminate].
    apply find_eqb_Some in Ef. destruct Ef as [-> _].
    injection Hv as <-. destruct y; try discriminate. reflexivity.
  - unfold enum_validator in Hv. simpl in Hv.
    destruct (find (fun s' => String.eqb s' value) (enum_values e)) as [s1|] eqn:Ef;
      [|discriminate].
    apply find_eqb_Some in Ef. destruct Ef as [-> _].
    injection Hv as <-. destruct y; try discriminate. reflexivity.
  - destruct (traverse (validate L t') l) as [l'|] eqn:Et; [|discriminate].
    injection Hv as <-. apply traverse_Some in Et.
    destruct y as [| | | | | | | | |ly|]; try discriminate. simpl in Hy.
    revert ly Hy. induction Et as [|a a' r r' Ha _ IHr]; intros ly Hy.
    + reflexivity.
    + rewrite (py_eq_list (a :: r)), (py_eq_list (a' :: r')).
      simpl in Hd. apply andb_true_iff in Hd. destruct Hd as [Hda Hdr].
      destruct ly as [|b ly']; [reflexivity|].
      simpl in Hy. apply andb_true_iff in Hy. destruct Hy as [Hb Hly].
      rewrite (IH a a' Hda Ha b Hb). f_equal. now apply IHr.
Qed.

Lemma field_default_eq (t : ftype) (d0 d v : data) :
  wf_schema L (field t d0) = true ->
  validate_field L t d0 d0 = Some d ->
  conforms L (field t d0) v = true ->
  py_eq L d0 v = py_eq L d v.
Proof.
  simpl. intros Hwf Hd Hv.
  destruct (is_None d0) eqn:En.
  - destruct d0; try discriminate. simpl in Hd. now injection Hd as <-.
  - simpl in Hwf, Hv.
    assert (Hd' : validate L t d0 = Some d) by (destruct d0; try discriminate; exact Hd).
    now apply (declared_eq t d0 d Hwf Hd').
Qed.

Lemma is_default_validated (s : schema) (d v : data) :
  wf_schema L s = true -> construct L s None = Some d ->
  conforms L s v = true -> is_default L s v = py_eq L d v.
Proof.
  destruct s as [t d0|fs]; intros Hwf Hd Hv.
  - simpl. simpl in Hd. now apply (field_default_eq t).
  - unfold is_default. now rewrite Hd.
Qed.
End literal_defaults.

(** *** The merge builds the overlay *)

Section merge.
Hypothesis HR : Revalidates L.
Hypothesis HE : LiteralEq L.

(** What [construct] makes of a mapping that holds, under each field's
    name, what [deep_update] stores there. *)
Lemma construct_fields (fs : list (string * schema))
  (kd kb ko kvm : list (string * data)) :
  (forall e, In e fs ->
     construct L (snd e)
       (stored (exported L (snd e) (item kb (fst e)))
                 (exported L (snd e) (item ko (fst e))))
     = Some (overlay L (snd e) (item kd (fst e)) (item kb (fst e)) (item ko (fst e)))) ->
  (forall k, In k (keys kvm) -> In k (keys fs)) ->
  (forall e, In e fs ->
     lookup (fst e) kvm
     = stored (exported L (snd e) (item kb (fst e)))
                (exported L (snd e) (item ko (fst e)))) ->
  construct L (model fs) (Some (DDict kvm))
  = Some (overlay L (model fs) (DDict kd) (DDict kb) (DDict ko)).
Proof.
  intros Hf Hk Hl. simpl.
  replace (forallb (fun k => mem k (keys fs)) (keys kvm)) with true.
  2:{ symmetry. apply forallb_forall. intros k Hin. now apply mem_In, Hk. }
  rewrite (build_map (construct L) kvm fs
             (fun e => overlay L (snd e) (item kd (fst e)) (item kb (fst e))
                         (item ko (fst e)))).
  - reflexivity.
  - intros e He. rewrite (Hl e He). now apply Hf.
Qed.

Lemma lookup_exported (fs : list (string * schema)) (kv : list (string * data))
  (e : string * schema) :
  NoDup (keys fs) -> keys kv = keys fs -> In e fs ->
  lookup (fst e) (export (is_default L) (dict_exclude_defaults L) kv fs)
  = exported L (snd e) (item kv (fst e)).
Proof.
  intros Hnd Hk He.
  rewrite (lookup_export _ _ _ _ (fst e) (snd e) Hnd (In_lookup_field _ _ Hnd He)).
  rewrite item_lookup by (rewrite Hk; now apply In_keys).
  reflexivity.
Qed.

Lemma stored_new (x : option data) : stored None x = x.
Proof. destruct x as [v|]; simpl; [now rewrite deep_update_value_new | reflexivity]. Qed.

Lemma lookup_deep_update (m u : list (string * data)) (k : string) :
  NoDup (keys u) ->
  lookup k (deep_update m u) = stored (lookup k m) (lookup k u).
Proof.
  intros Hnd. unfold deep_update. rewrite lookup_update_loop by exact Hnd.
  now destruct (lookup k u).
Qed.

Lemma merge_construct (s : schema) :
  wf_schema L s = true ->
  forall d b o,
    construct L s None = Some d ->
    conforms L s b = true -> conforms L s o = true ->
    construct L s (stored (exported L s b) (exported L s o))
    = Some (overlay L s d b o).
Proof.
  induction s as [t d0|fs IH] using schema_ind; intros Hwf d b o Hd Hb Ho.
  - (* a leaf *)
    simpl in Hd. unfold exported. simpl is_default.
    assert (Hdb : dict_exclude_defaults L (field t d0) b = b) by (now destruct b).
    assert (Hdo : dict_exclude_defaults L (field t d0) o = o) by (now destruct o).
    rewrite Hdb, Hdo.
    rewrite (field_default_eq HE t d0 d b Hwf Hd Hb).
    rewrite (field_default_eq HE t d0 d o Hwf Hd Ho).
    simpl overlay. unfold overlay_leaf.
    destruct (py_eq L d o); simpl stored.
    + destruct (py_eq L d b).
      * exact Hd.
      * simpl. now apply revalidate_field.
    + rewrite deep_update_value_leaf
        by (intros kv; now apply (conforms_leaf_not_dict t d0)).
      simpl. now apply revalidate_field.
  - (* a class *)
    destruct (wf_model _ Hwf) as [Hnd Hwfs].
    destruct (construct_model_defaults _ _ Hd) as [kd [-> Hkd]].
    destruct (conforms_model _ _ Hb) as [kb [-> [Hkb Hfb]]].
    destruct (conforms_model _ _ Ho) as [ko [-> [Hko Hfo]]].
    rewrite Forall_forall in IH.
    assert (Hf : forall e, In e fs ->
               construct L (snd e)
                 (stored (exported L (snd e) (item kb (fst e)))
                           (exported L (snd e) (item ko (fst e))))
               = Some (overlay L (snd e) (item kd (fst e)) (item kb (fst e))
                         (item ko (fst e)))).
    { intros e He. apply (IH e He (Hwfs e He)).
      - exact (default_item fs kd e Hnd Hkd He).
      - now apply Hfb.
      - now apply Hfo. }
    assert (Hkeyd : keys kd = keys fs) by (now apply build_keys in Hkd).
    assert (Hskip : forall kv, keys kv = keys fs ->
               (forall e, In e fs -> conforms L (snd e) (item kv (fst e)) = true) ->
               py_eq L (DDict kd) (DDict kv) = true ->
               forall e, In e fs -> exported L (snd e) (item kv (fst e)) = None).
    { intros kv Hkv Hfv Heq e He. unfold exported.
      rewrite (is_default_validated HE (snd e) (item kd (fst e)) _ (Hwfs e He)
                 (default_item _ _ _ Hnd Hkd He) (Hfv e He)).
      rewrite (py_eq_dict_item kd kv (fst e)); [reflexivity | | exact Heq |].
      - now rewrite Hkeyd.
      - rewrite Hkeyd. now apply In_keys. }
    unfold exported at 1 2. unfold is_default. rewrite Hd.
    simpl dict_exclude_defaults.
    destruct (py_eq L (DDict kd) (DDict ko)) eqn:Eo;
      destruct (py_eq L (DDict kd) (DDict kb)) eqn:Eb; simpl stored.
    + change (construct L (model fs) None)
        with (construct L (model fs) (Some (DDict []))).
      apply construct_fields; [exact Hf | intros k [] |].
      intros e He. rewrite (Hskip kb Hkb Hfb Eb e He), (Hskip ko Hko Hfo Eo e He).
      reflexivity.
    + apply construct_fields; [exact Hf | apply keys_export |].
      intros e He. rewrite (Hskip ko Hko Hfo Eo e He). simpl.
      now apply lookup_exported.
    + apply construct_fields; [exact Hf | apply keys_export |].
      intros e He. rewrite (Hskip kb Hkb Hfb Eb e He), stored_new.
      now apply lookup_exported.
    + match goal with
      | |- context [update_loop ?f ?m ?u] =>
          change (update_loop f m u) with (deep_update m u)
      end.
      apply construct_fields; [exact Hf | |].
      * intros k Hk. apply keys_update_loop in Hk.
        destruct Hk as [Hk|Hk]; now apply keys_export in Hk.
      * intros e He. rewrite lookup_deep_update by (now apply NoDup_keys_export).
        now rewrite !lookup_exported.
Qed.

(** The root: [self.dict(exclude_defaults=True)] is exported whatever
    [self] holds. *)
Lemma merge_root (fs : list (string * schema)) (d b o : data) :
  wf_schema L (model fs) = true ->
  construct L (model fs) None = Some d ->
  conforms L (model fs) b = true -> conforms L (model fs) o = true ->
  exists m u,
    dict_exclude_defaults L (model fs) b = DDict m
    /\ dict_exclude_defaults L (model fs) o = DDict u
    /\ construct L (model fs) (Some (DDict (deep_update m u)))
       = Some (overlay L (model fs) d b o).
Proof.
  intros Hwf Hd Hb Ho.
  destruct (wf_model _ Hwf) as [Hnd Hwfs].
  destruct (construct_model_defaults _ _ Hd) as [kd [-> Hkd]].
  destruct (conforms_model _ _ Hb) as [kb [-> [Hkb Hfb]]].
  destruct (conforms_model _ _ Ho) as [ko [-> [Hko Hfo]]].
  simpl dict_exclude_defaults.
  eexists. eexists. split; [reflexivity|]. split; [reflexivity|].
  apply construct_fields.
  - intros e He. apply (merge_construct (snd e) (Hwfs e He)).
    + exact (default_item fs kd e Hnd Hkd He).
    + now apply Hfb.
    + now apply Hfo.
  - intros k Hk. apply keys_update_loop in Hk.
    destruct Hk as [Hk|Hk]; now apply keys_export in Hk.
  - intros e He. rewrite lookup_deep_update by (now apply NoDup_keys_export).
    now rewrite !lookup_exported.
Qed.
End merge.

(** *** What construction yields *)

Lemma construct_model_eq (fs : list (string * schema)) (v : option data) :
  construct L (model fs) v
  = match (match v with Some x => as_mapping L x | None => Some [] end) with
    | None => None
    | Some kv =>
        if forallb (fun k => mem k (keys fs)) (keys kv)
        then option_map DDict (build (construct L) kv fs)
        else None
    end.
Proof. reflexivity. Qed.

Lemma construct_model_inv (fs : list (string * schema)) (v : option data) (c : data) :
  construct L (model fs) v = Some c ->
  exists kv kc,
    match v with Some x => as_mapping L x | None => Some [] end = Some kv
    /\ c = DDict kc
    /\ (forall k, In k (keys kv) -> In k (keys fs))
    /\ build (construct L) kv fs = Some kc.
Proof.
  rewrite construct_model_eq.
  destruct (match v with Some x => as_mapping L x | None => Some [] end)
    as [kv|] eqn:Ev; [|discriminate].
  destruct (forallb (fun k => mem k (keys fs)) (keys kv)) eqn:Ek; [|discriminate].
  destruct (build (construct L) kv fs) as [kc|] eqn:Eb; [|discriminate].
  simpl. intros [= <-]. exists kv, kc.
  split; [reflexivity|]. split; [reflexivity|]. split; [|exact Eb].
  intros k Hk. rewrite forallb_forall in Ek. now apply mem_In, Ek.
Qed.

Lemma build_total (f : schema -> option data -> option data)
  (kv : list (string * data)) (fs : list (string * schema)) :
  (forall e, In e fs -> f (snd e) (lookup (fst e) kv) <> None) ->
  exists r, build f kv fs = Some r.
Proof.
  induction fs as [|[n s1] rest IH]; simpl; intros H.
  - now exists [].
  - destruct (f s1 (lookup n kv)) as [x|] eqn:Ex.
    + destruct IH as [r Hr]; [intros e He; apply H; now right|].
      rewrite Hr. now eexists.
    + exfalso. now apply (H (n, s1) (or_introl eq_refl)).
Qed.

Lemma build_each (f : schema -> option data -> option data)
  (kv : list (string * data)) (fs : list (string * schema)) r :
  build f kv fs = Some r ->
  forall e, In e fs -> f (snd e) (lookup (fst e) kv) <> None.
Proof.
  revert r. induction fs as [|[n s1] rest IH]; simpl; intros r H e He; [contradiction|].
  destruct (f s1 (lookup n kv)) as [x|] eqn:Ex; [|discriminate].
  destruct (build f kv rest) as [r'|] eqn:Er; [|discriminate].
  destruct He as [<-|He]; [simpl; now rewrite Ex | now apply (IH r')].
Qed.

Lemma lookup_map_fields {A : Type} (fs : list (string * A)) (g : string * A -> data)
  (k : string) (s' : A) :
  lookup k fs = Some s' ->
  lookup k (map (fun e => (fst e, g e)) fs) = Some (g (k, s')).
Proof.
  induction fs as [|[n s1] rest IH]; simpl; [discriminate|].
  destruct (String.eqb_spec k n) as [->|Hne]; [now intros [= <-] | exact IH].
Qed.

Section constructed.
Hypothesis HR : Revalidates L.

Lemma construct_conforms (s : schema) :
  distinct_fields s = true ->
  forall v c, construct L s v = Some c -> conforms L s c = true.
Proof.
  induction s as [t d0|fs IH] using schema_ind; intros Hwf v c Hc.
  - simpl in Hc. now apply (validate_field_conforms HR t d0 _ c Hc).
  - destruct (distinct_model _ Hwf) as [Hnd Hwfs].
    destruct (construct_model_inv _ _ _ Hc) as [kv [kc [_ [-> [_ Hb]]]]].
    simpl. rewrite (build_keys _ _ _ _ Hb).
    replace (keys_eqb (keys fs) (keys fs)) with true
      by (symmetry; now apply keys_eqb_eq).
    simpl. apply forallb_forall. intros e He.
    rewrite Forall_forall in IH.
    destruct (build_lookup _ _ _ _ (fst e) (snd e) Hnd Hb (In_lookup_field _ _ Hnd He))
      as [Hl Hn].
    apply (IH e He (Hwfs e He) (lookup (fst e) kv)).
    rewrite <- Hl. unfold item. destruct (lookup (fst e) kc); [reflexivity|contradiction].
Qed.

End constructed.

(** *** The overlay, read by path *)


(** *** The schema of the module *)

Lemma declared_selection (e : enum) (l : list string) :
  forallb (declared L (t_Enum e)) (map DStr l) = true.
Proof. induction l as [|s r IH]; simpl; [reflexivity | exact IH]. Qed.

Lemma wf_AnalysisConfig : Revalidates L -> wf_schema L (AnalysisConfig L) = true.
Proof.
  intros HR.
  unfold AnalysisConfig, GeneralConfig, LogConfig, ObservationsConfig, DatasetsConfig,
    FitConfig, FluxPointsConfig, GeomConfig, WcsConfig, FovConfig, SelectionConfig,
    EnergyAxesConfig, BackgroundConfig, TimeRangeConfig, EnergyRangeConfig,
    SpatialCircleConfig, EnergyAxisConfig, SkyCoordConfig.
  cbn. rewrite (path_text_idem HR), String.eqb_refl.
  change (forallb _ (map DStr (available_selection L)))
    with (forallb (declared L (t_Enum MapSelectionEnum)) (map DStr (available_selection L))).
  now rewrite declared_selection.
Qed.

Lemma get_cons (k : string) (p : list string) (c v : data) :
  get [k] c = Some v -> get (k :: p) c = get p v.
Proof.
  simpl. destruct c; try discriminate. destruct (lookup k kv); [|discriminate].
  now intros [= ->].
Qed.

Lemma get_conforms (p : list string) : forall (s : schema) (t : ftype) (d0 c : data),
  distinct_fields s = true -> leaf_at p s = Some (t, d0) -> conforms L s c = true ->
  exists v, get p c = Some v.
Proof.
  induction p as [|k p IH]; intros s t d0 c Hwf Hs Hc.
  - now exists c.
  - destruct s as [|fs]; [discriminate|]. simpl in Hs.
    destruct (lookup k fs) as [s'|] eqn:Ek; [|discriminate].
    destruct (distinct_model _ Hwf) as [Hnd Hwfs].
    destruct (conforms_model _ _ Hc) as [kv [-> [Hk Hf]]].
    pose proof (lookup_In _ _ _ _ Ek) as Hin.
    simpl. rewrite item_lookup by (rewrite Hk; now apply lookup_Some_key in Ek).
    apply (IH s' t d0); [exact (Hwfs _ Hin) | exact Hs | exact (Hf _ Hin)].
Qed.

Lemma construct_get (fs : list (string * schema)) (v : option data)
  (kv : list (string * data)) (c : data) (k : string) (s' : schema) :
  NoDup (keys fs) ->
  match v with Some x => as_mapping L x | None => Some [] end = Some kv ->
  construct L (model fs) v = Some c ->
  lookup k fs = Some s' ->
  exists x, get [k] c = Some x /\ construct L s' (lookup k kv) = Some x.
Proof.
  intros Hnd Hv Hc Hk.
  destruct (construct_model_inv _ _ _ Hc) as [kv' [kc [Hv' [-> [_ Hb]]]]].
  assert (kv' = kv) by congruence. subst kv'.
  destruct (build_lookup _ _ _ _ k s' Hnd Hb Hk) as [Hl Hn].
  simpl. destruct (lookup k kc) as [x|]; [|contradiction].
  exists x. split; [reflexivity | now symmetry].
Qed.

(** *** The truth tests of an export *)

Lemma ambiguous_list (l l' : list data) :
  ambiguous L (DList l) (DList l')
  = Nat.eqb (length l) (length l') && ambiguous_in_list L l l'.
Proof.
  reflexivity.
Qed.

Lemma ambiguous_dict (kv kv' : list (string * data)) :
  ambiguous L (DDict kv) (DDict kv')
  = Nat.eqb (length kv) (length kv') && ambiguous_in_dict L kv' kv.
Proof.
  simpl. f_equal. induction kv as [|[k v] r IH]; simpl; [reflexivity|].
  now rewrite IH.
Qed.

Lemma ambiguous_in_list_false (l l' : list data) :
  Forall2 (fun a b => ambiguous L a b = false) l l' ->
  ambiguous_in_list L l l' = false.
Proof.
  induction 1 as [|a b r r' Hab _ IH]; simpl; [reflexivity|].
  rewrite Hab, IH. now destruct (py_eq L a b).
Qed.

Lemma ambiguous_in_dict_false (kv' : list (string * data)) :
  forall kv,
    (forall k v v', In (k, v) kv -> lookup k kv' = Some v' ->
                    ambiguous L v v' = false) ->
    ambiguous_in_dict L kv' kv = false.
Proof.
  induction kv as [|[k v] r IH]; intros H; simpl; [reflexivity|].
  destruct (lookup k kv') as [v'|] eqn:E; [|reflexivity].
  rewrite (H k v v' (or_introl eq_refl) E).
  rewrite IH by (intros k0 v0 v0' Hin; apply H; now right).
  now destruct (py_eq L v v').
Qed.

(** Where two dicts are equal, every pair of values was compared. *)
Lemma ambiguous_in_dict_compared (kv' : list (string * data)) :
  forall kv,
    forallb (fun e => match lookup (fst e) kv' with
                      | Some v' => py_eq L (snd e) v'
                      | None => false
                      end) kv = true ->
    ambiguous_in_dict L kv' kv = false ->
    forall k v v', In (k, v) kv -> lookup k kv' = Some v' ->
                   ambiguous L v v' = false.
Proof.
  induction kv as [|[k0 v0] r IH]; intros Heq Ham k v v' Hin Hl; [contradiction|].
  simpl in Heq, Ham. apply andb_true_iff in Heq. destruct Heq as [He0 Her].
  destruct (lookup k0 kv') as [v0'|] eqn:E0; [|discriminate].
  rewrite He0 in Ham. apply orb_false_iff in Ham. destruct Ham as [Ha0 Har].
  simpl in Har. destruct Hin as [Hin|Hin].
  - injection Hin as -> ->. rewrite E0 in Hl. now injection Hl as <-.
  - exact (IH Her Har k v v' Hin Hl).
Qed.

Lemma item_of_entry (kv : list (string * data)) (k : string) (v : data) :
  NoDup (keys kv) -> In (k, v) kv -> item kv k = v.
Proof. intros Hnd Hin. unfold item. now rewrite (In_lookup _ kv k v Hnd Hin). Qed.

Lemma item_of_lookup (kv : list (string * data)) (k : string) (v : data) :
  lookup k kv = Some v -> item kv k = v.
Proof. intros H. unfold item. now rewrite H. Qed.

Lemma field_of_key (fs : list (string * schema)) (k : string) :
  In k (keys fs) -> exists s', In (k, s') fs.
Proof.
  intros H. apply in_map_iff in H. destruct H as [[k' s'] [E Hin]].
  simpl in E. subst k'. now exists s'.
Qed.

Lemma comparable_model (fs : list (string * schema)) (kd kc : list (string * data)) :
  comparable L (model fs) (DDict kd) (DDict kc) = true
  <-> forall e, In e fs ->
        comparable L (snd e) (item kd (fst e)) (item kc (fst e)) = true.
Proof. simpl. now rewrite forallb_forall. Qed.

(** Where every leaf compares, the instances do. *)
Lemma comparable_ambiguous (s : schema) :
  distinct_fields s = true ->
  forall d c, conforms L s d = true -> conforms L s c = true ->
              comparable L s d c = true -> ambiguous L d c = false.
Proof.
  induction s as [t d'|fs IH] using schema_ind; intros Hdist d c Hd Hc H.
  - simpl in H. apply andb_true_iff in H. destruct H as [_ H].
    now apply negb_true_iff in H.
  - destruct (distinct_model _ Hdist) as [Hnd Hds].
    destruct (conforms_model _ _ Hd) as [kd [-> [Hkd Hfd]]].
    destruct (conforms_model _ _ Hc) as [kc [-> [Hkc Hfc]]].
    simpl in H. rewrite forallb_forall in H. rewrite Forall_forall in IH.
    rewrite ambiguous_dict. apply andb_false_iff. right.
    apply ambiguous_in_dict_false. intros k v v' Hin Hl.
    assert (Hk : In k (keys fs)) by (rewrite <- Hkd; exact (In_keys _ _ Hin)).
    destruct (field_of_key fs k Hk) as [s' Hs'].
    assert (Hndd : NoDup (keys kd)) by (now rewrite Hkd).
    pose proof (H _ Hs') as Hcmp. simpl in Hcmp.
    rewrite (item_of_entry kd k v Hndd Hin), (item_of_lookup kc k v' Hl) in Hcmp.
    pose proof (Hfd _ Hs') as Hcd. pose proof (Hfc _ Hs') as Hcc. simpl in Hcd, Hcc.
    rewrite (item_of_entry kd k v Hndd Hin) in Hcd.
    rewrite (item_of_lookup kc k v' Hl) in Hcc.
    exact (IH _ Hs' (Hds _ Hs') v v' Hcd Hcc Hcmp).
Qed.

Section exports.
Hypothesis HR : Revalidates L.

(** Where every leaf compares, the export raises nothing. *)
Lemma comparable_exports (s : schema) :
  distinct_fields s = true ->
  forall d c, construct L s None = Some d -> conforms L s c = true ->
              comparable L s d c = true -> export_raises L s c = false.
Proof.
  induction s as [t d'|fs IH] using schema_ind; intros Hdist d c Hd Hc H.
  - now destruct c.
  - destruct (distinct_model _ Hdist) as [Hnd Hds].
    pose proof (construct_conforms HR _ Hdist _ _ Hd) as Hcd.
    destruct (construct_model_defaults _ _ Hd) as [kd [-> Hkd]].
    destruct (conforms_model _ _ Hc) as [kc [-> [Hkc Hfc]]].
    destruct (conforms_model _ _ Hcd) as [kd' [E [_ Hfd]]]. injection E as <-.
    simpl in H. rewrite forallb_forall in H. rewrite Forall_forall in IH.
    simpl. apply not_true_is_false. intros Hex.
    apply existsb_exists in Hex. destruct Hex as [e [He Hr]].
    rewrite (item_lookup kc (fst e)) in Hr by (rewrite Hkc; now apply In_keys).
    pose proof (default_item fs kd e Hnd Hkd He) as Hde.
    pose proof (H e He) as Hcmp.
    assert (H1 : is_default_raises L (snd e) (item kc (fst e)) = false).
    { revert Hde Hcmp. generalize (Hds e He) (Hfd e He) (Hfc e He).
      generalize (item kd (fst e)) (item kc (fst e)).
      destruct (snd e) as [t d'|fs']; intros dd cc Hdi Hcdd Hccc Hde Hcmp.
      - simpl in Hcmp |- *. apply andb_true_iff in Hcmp. destruct Hcmp as [Hcmp _].
        now apply negb_true_iff in Hcmp.
      - unfold is_default_raises. rewrite Hde.
        exact (comparable_ambiguous (model fs') Hdi dd cc Hcdd Hccc Hcmp). }
    rewrite H1 in Hr. simpl in Hr.
    rewrite (IH e He (Hds e He) _ _ Hde (Hfc e He) Hcmp) in Hr.
    now rewrite andb_false_r in Hr.
Qed.

Lemma to_dict_returns (s : schema) (d c : data) :
  distinct_fields s = true -> construct L s None = Some d ->
  conforms L s c = true -> comparable L s d c = true ->
  to_dict L s c = Ok (dict_exclude_defaults L s c).
Proof.
  intros Hdist Hd Hc H. unfold to_dict.
  now rewrite (comparable_exports s Hdist d c Hd Hc H).
Qed.
End exports.

(** *** What an export that returns has compared *)

Lemma item_map_fields (fs : list (string * schema)) (g : string * schema -> data)
  (e : string * schema) :
  NoDup (keys fs) -> In e fs ->
  item (map (fun e => (fst e, g e)) fs) (fst e) = g e.
Proof.
  intros Hnd He. unfold item.
  rewrite (lookup_map_fields fs g (fst e) (snd e) (In_lookup_field fs e Hnd He)).
  now destruct e.
Qed.

Lemma Forall2_length_eqb {A B : Type} (R : A -> B -> Prop) (l : list A) (l' : list B)
  (n : nat) :
  Forall2 R l l' -> Nat.eqb (length l) n = Nat.eqb (length l') n.
Proof. intros H. now rewrite (Forall2_length H). Qed.

Section compared.
Hypothesis HR : Revalidates L.
Hypothesis HE : LiteralEq L.

(** A declared default and its validated form compare with every value
    of the field's type with a truth value, or neither does. *)
Lemma declared_ambiguous (t : ftype) : forall x x',
  declared L t x = true -> validate L t x = Some x' ->
  forall y, valid L t y = true -> ambiguous L x y = ambiguous L x' y.
Proof.
  induction t as [| | | | | | | | e | t' IH]; intros x x' Hd Hv y Hy;
    destruct x; simpl in Hd; try discriminate; simpl in Hv.
  - now injection Hv as <-.
  - now injection Hv as <-.
  - now injection Hv as <-.
  - apply String.eqb_eq in Hd. rewrite Hd in Hv. now injection Hv as <-.
  - destruct (Angle L (DStr s)) as [a0|] eqn:Ea; [|discriminate].
    injection Hv as <-. destruct y; try discriminate. simpl.
    apply (str_ambiguous_angle_spec HE _ Ea).
  - destruct (Quantity L (DStr s)) as [q0|] eqn:Eq; [|discriminate].
    destruct (is_energy L q0); [|discriminate].
    injection Hv as <-. destruct y; try discriminate. simpl.
    apply (str_ambiguous_quantity_spec HE _ Eq).
  - unfold enum_validator in Hv. simpl in Hv.
    destruct (find (fun s' => String.eqb s' s) (enum_values e)) as [s1|]; [|discriminate].
    injection Hv as <-. destruct y; try discriminate. reflexivity.
  - unfold enum_validator in Hv. simpl in Hv.
    destruct (find (fun s' => String.eqb s' value) (enum_values e)) as [s1|];
      [|discriminate].
    injection Hv as <-. destruct y; try discriminate. reflexivity.
  - destruct (traverse (validate L t') l) as [l'|] eqn:Et; [|discriminate].
    injection Hv as <-. apply traverse_Some in Et.
    destruct y as [| | | | | | | | |ly|]; try discriminate. simpl in Hy.
    rewrite !ambiguous_list.
    rewrite (Forall2_length_eqb _ l l' (length ly) Et). f_equal.
    revert ly Hy. induction Et as [|a a' r r' Ha Hr IHr]; intros ly Hy.
    + reflexivity.
    + simpl in Hd. apply andb_true_iff in Hd. destruct Hd as [Hda Hdr].
      destruct ly as [|b ly']; [reflexivity|].
      simpl in Hy. apply andb_true_iff in Hy. destruct Hy as [Hb Hly].
      simpl. rewrite (IH a a' Hda Ha b Hb), (declared_eq HE t' a a' Hda Ha b Hb).
      now rewrite (IHr Hdr ly' Hly).
Qed.

Lemma field_default_ambiguous (t : ftype) (d0 d v : data) :
  wf_schema L (field t d0) = true ->
  validate_field L t d0 d0 = Some d ->
  conforms L (field t d0) v = true ->
  ambiguous L d0 v = ambiguous L d v.
Proof.
  simpl. intros Hwf Hd Hv.
  destruct (is_None d0) eqn:En.
  - destruct d0; try discriminate. simpl in Hd. now injection Hd as <-.
  - simpl in Hwf, Hv.
    assert (Hd' : validate L t d0 = Some d) by (destruct d0; try discriminate; exact Hd).
    now apply (declared_ambiguous t d0 d Hwf Hd').
Qed.

(** A declared default compares with its validated form, and that with
    itself. *)
Lemma declared_self (t : ftype) : forall x x',
  declared L t x = true -> validate L t x = Some x' ->
  ambiguous L x x' = false /\ ambiguous L x' x' = false.
Proof.
  induction t as [| | | | | | | | e | t' IH]; intros x x' Hd Hv;
    destruct x; simpl in Hd; try discriminate; simpl in Hv.
  - now injection Hv as <-.
  - now injection Hv as <-.
  - now injection Hv as <-.
  - now injection Hv as <-.
  - destruct (Angle L (DStr s)) as [a0|] eqn:Ea; [|discriminate].
    injection Hv as <-. simpl.
    rewrite (str_ambiguous_angle_spec HE _ Ea), (angle_literal_single HE _ Ea).
    now split.
  - destruct (Quantity L (DStr s)) as [q0|] eqn:Eq; [|discriminate].
    destruct (is_energy L q0); [|discriminate].
    injection Hv as <-. simpl.
    rewrite (str_ambiguous_quantity_spec HE _ Eq), (quantity_literal_single HE _ Eq).
    now split.
  - destruct (enum_validator L e (DStr s)) as [s1|]; [|discriminate].
    now injection Hv as <-.
  - destruct (enum_validator L e (DEnum e0 value)) as [s1|]; [|discriminate].
    now injection Hv as <-.
  - destruct (traverse (validate L t') l) as [l'|] eqn:Et; [|discriminate].
    injection Hv as <-. apply traverse_Some in Et.
    assert (H : Forall2 (fun a b => ambiguous L a b = false) l l'
                /\ Forall2 (fun a b => ambiguous L a b = false) l' l').
    { induction Et as [|a a' r r' Ha Hr IHr]; [split; constructor|].
      simpl in Hd. apply andb_true_iff in Hd. destruct Hd as [Hda Hdr].
      destruct (IH a a' Hda Ha) as [H1 H2]. destruct (IHr Hdr) as [H3 H4].
      split; now constructor. }
    destruct H as [H1 H2]. rewrite !ambiguous_list.
    rewrite (ambiguous_in_list_false l l' H1), (ambiguous_in_list_false l' l' H2).
    now rewrite !andb_false_r.
Qed.

(** The defaults compare with themselves. *)
Lemma defaults_comparable (s : schema) :
  wf_schema L s = true ->
  forall d, construct L s None = Some d -> comparable L s d d = true.
Proof.
  induction s as [t d0|fs IH] using schema_ind; intros Hwf d Hd.
  - simpl in Hd, Hwf. simpl.
    destruct (is_None d0) eqn:En.
    + destruct d0; try discriminate. simpl in Hd. now injection Hd as <-.
    + simpl in Hwf.
      assert (Hd' : validate L t d0 = Some d) by (destruct d0; try discriminate; exact Hd).
      destruct (declared_self t d0 d Hwf Hd') as [H1 H2]. now rewrite H1, H2.
  - destruct (wf_model _ Hwf) as [Hnd Hws].
    destruct (construct_model_defaults _ _ Hd) as [kd [-> Hkd]].
    rewrite Forall_forall in IH. apply comparable_model. intros e He.
    exact (IH e He (Hws e He) _ (default_item fs kd e Hnd Hkd He)).
Qed.

(** Where an instance equals the defaults, every leaf was compared. *)
Lemma compared_comparable (s : schema) :
  wf_schema L s = true ->
  forall d c, construct L s None = Some d -> conforms L s c = true ->
              py_eq L d c = true -> ambiguous L d c = false ->
              comparable L s d c = true.
Proof.
  induction s as [t d0|fs IH] using schema_ind; intros Hwf d c Hd Hc He Ha.
  - simpl. simpl in Hd.
    rewrite (field_default_ambiguous t d0 d c Hwf Hd Hc), Ha. reflexivity.
  - destruct (wf_model _ Hwf) as [Hnd Hws].
    pose proof (construct_conforms HR _ (wf_distinct _ Hwf) _ _ Hd) as Hcd.
    destruct (construct_model_defaults _ _ Hd) as [kd [-> Hkd]].
    destruct (conforms_model _ _ Hc) as [kc [-> [Hkc Hfc]]].
    destruct (conforms_model _ _ Hcd) as [kd' [E [Hkd' _]]]. injection E as <-.
    rewrite Forall_forall in IH. apply comparable_model. intros e He'.
    assert (Hndd : NoDup (keys kd)) by (now rewrite Hkd').
    assert (Hin : In (fst e) (keys kd)) by (rewrite Hkd'; now apply In_keys).
    apply (IH e He' (Hws e He') _ _ (default_item fs kd e Hnd Hkd He') (Hfc e He')).
    + exact (py_eq_dict_item kd kc (fst e) Hndd He Hin).
    + pose proof He as He2. rewrite py_eq_dict in He2.
      apply andb_true_iff in He2. destruct He2 as [Hlen Hall].
      rewrite ambiguous_dict, Hlen in Ha. simpl in Ha.
      assert (Hl : lookup (fst e) kc = Some (item kc (fst e)))
        by (apply item_lookup; rewrite Hkc; now apply In_keys).
      apply (ambiguous_in_dict_compared kc kd Hall Ha (fst e)); [|exact Hl].
      apply lookup_In. apply item_lookup. exact Hin.
Qed.

(** Where the export of an instance returns, every leaf was compared, or
    a class that holds it was. *)
Lemma exported_fields_comparable (fs : list (string * schema)) :
  (forall e, In e fs ->
     forall d c, construct L (snd e) None = Some d -> conforms L (snd e) c = true ->
       is_default_raises L (snd e) c = false ->
       is_default L (snd e) c = true \/ export_raises L (snd e) c = false ->
       comparable L (snd e) d c = true) ->
  NoDup (keys fs) ->
  forall d c, construct L (model fs) None = Some d -> conforms L (model fs) c = true ->
              export_raises L (model fs) c = false ->
              comparable L (model fs) d c = true.
Proof.
  intros IH Hnd d c Hd Hc Hex.
  destruct (construct_model_defaults _ _ Hd) as [kd [-> Hkd]].
  destruct (conforms_model _ _ Hc) as [kc [-> [Hkc Hfc]]].
  apply comparable_model. intros e He.
  simpl in Hex.
  assert (Hall : forall x, In x fs ->
            match lookup (fst x) kc with
            | Some v => is_default_raises L (snd x) v
                        || (negb (is_default L (snd x) v) && export_raises L (snd x) v)
            | None => false
            end = false).
  { intros x Hx. destruct (match lookup (fst x) kc with
                           | Some v => _ | None => false end) eqn:E; [|reflexivity].
    rewrite <- Hex. symmetry. apply existsb_exists. exists x. now split. }
  pose proof (Hall e He) as H.
  rewrite (item_lookup kc (fst e)) in H by (rewrite Hkc; now apply In_keys).
  apply orb_false_iff in H. destruct H as [H1 H2].
  apply (IH e He _ _ (default_item fs kd e Hnd Hkd He) (Hfc e He) H1).
  destruct (is_default L (snd e) (item kc (fst e))); [now left | now right].
Qed.

Lemma exported_field_comparable (s : schema) :
  wf_schema L s = true ->
  forall d c, construct L s None = Some d -> conforms L s c = true ->
    is_default_raises L s c = false ->
    is_default L s c = true \/ export_raises L s c = false ->
    comparable L s d c = true.
Proof.
  induction s as [t d0|fs IH] using schema_ind; intros Hwf d c Hd Hc H1 H2.
  - simpl in H1. simpl. simpl in Hd.
    rewrite <- (field_default_ambiguous t d0 d c Hwf Hd Hc), H1. reflexivity.
  - destruct (wf_model _ Hwf) as [Hnd Hws]. rewrite Forall_forall in IH.
    unfold is_default_raises in H1. unfold is_default in H2. rewrite Hd in H1, H2.
    destruct H2 as [H2|H2].
    + exact (compared_comparable (model fs) Hwf d c Hd Hc H2 H1).
    + apply (exported_fields_comparable fs); try assumption.
      intros e He. exact (IH e He (Hws e He)).
Qed.

Lemma exported_comparable (fs : list (string * schema)) (d c : data) :
  wf_schema L (model fs) = true ->
  construct L (model fs) None = Some d -> conforms L (model fs) c = true ->
  export_raises L (model fs) c = false ->
  comparable L (model fs) d c = true.
Proof.
  intros Hwf Hd Hc Hex. destruct (wf_model _ Hwf) as [Hnd Hws].
  apply (exported_fields_comparable fs); try assumption.
  intros e He. exact (exported_field_comparable (snd e) (Hws e He)).
Qed.
End compared.

(** The result of the merge compares where the defaults, the base and
    the override do. *)
Lemma comparable_overlay (s : schema) :
  distinct_fields s = true ->
  forall d b o,
    conforms L s d = true -> conforms L s b = true -> conforms L s o = true ->
    comparable L s d d = true -> comparable L s d b = true ->
    comparable L s d o = true ->
    comparable L s d (overlay L s d b o) = true.
Proof.
  induction s as [t d0|fs IH] using schema_ind; intros Hdist d b o Hd Hb Ho Hdd Hdb Hdo.
  - simpl overlay. unfold overlay_leaf.
    destruct (py_eq L d o); [destruct (py_eq L d b)|]; assumption.
  - destruct (distinct_model _ Hdist) as [Hnd Hds].
    destruct (conforms_model _ _ Hd) as [kd [-> [Hkd Hfd]]].
    destruct (conforms_model _ _ Hb) as [kb [-> [Hkb Hfb]]].
    destruct (conforms_model _ _ Ho) as [ko [-> [Hko Hfo]]].
    rewrite Forall_forall in IH.
    change (overlay L (model fs) (DDict kd) (DDict kb) (DDict ko))
      with (DDict (map (fun e => (fst e,
                                  overlay L (snd e) (item kd (fst e))
                                    (item kb (fst e)) (item ko (fst e)))) fs)).
    apply comparable_model. intros e He.
    rewrite (item_map_fields fs
               (fun e => overlay L (snd e) (item kd (fst e)) (item kb (fst e))
                           (item ko (fst e))) e Hnd He).
    apply (IH e He (Hds e He) _ _ _ (Hfd e He) (Hfb e He) (Hfo e He)).
    + exact (proj1 (comparable_model fs kd kd) Hdd e He).
    + exact (proj1 (comparable_model fs kd kb) Hdb e He).
    + exact (proj1 (comparable_model fs kd ko) Hdo e He).
Qed.

(** *** [update] *)

Section update.
Hypothesis HR : Revalidates L.
Hypothesis HE : LiteralEq L.
Variable d0 : data.
Hypothesis Hd0 : construct L (AnalysisConfig L) None = Some d0.

Lemma update_config (base ov : data) :
  conforms L (AnalysisConfig L) base = true ->
  conforms L (AnalysisConfig L) ov = true ->
  comparable L (AnalysisConfig L) d0 base = true ->
  comparable L (AnalysisConfig L) d0 ov = true ->
  update L (a_config ov) base
  = (Ok (Some (overlay L (AnalysisConfig L) d0 base ov)), base).
Proof.
  intros Hb Ho Hcb Hco. pose proof (wf_AnalysisConfig HR) as Hwf. pose proof Hd0 as Hd.
  assert (Hdist : distinct_fields (AnalysisConfig L) = true) by reflexivity.
  pose proof (to_dict_returns HR _ d0 base Hdist Hd0 Hb Hcb) as Htb.
  pose proof (to_dict_returns HR _ d0 ov Hdist Hd0 Ho Hco) as Hto.
  unfold update, new_AnalysisConfig.
  cbv beta iota delta [bind ret get_self lift raise].
  rewrite Htb. cbv beta iota. rewrite Hto. cbv beta iota.
  assert (HAC : exists fs, AnalysisConfig L = model fs) by (eexists; reflexivity).
  destruct HAC as [fs HAC]. rewrite HAC in *.
  destruct (merge_root HR HE fs d0 base ov Hwf Hd Hb Ho) as [m [u [Hm [Hu Hc]]]].
  rewrite Hm, Hu, Hc. reflexivity.
Qed.

Lemma denotes_conforms (config : arg angle quantity time) (ov : data) :
  denotes L config ov -> conforms L (AnalysisConfig L) ov = true.
Proof.
  pose proof (wf_AnalysisConfig HR) as Hwf.
  assert (Hnew : forall kv, new_AnalysisConfig L kv = Ok ov ->
                            conforms L (AnalysisConfig L) ov = true).
  { intros kv. unfold new_AnalysisConfig.
    destruct (construct L (AnalysisConfig L) (Some (DDict kv))) as [c|] eqn:Ec;
      [|discriminate].
    intros [= <-]. exact (construct_conforms HR _ (wf_distinct _ Hwf) _ _ Ec). }
  destruct config as [s|kv|c|]; unfold denotes.
  - intros [kv [_ H]]. now apply (Hnew kv).
  - apply Hnew.
  - now intros [<- H].
  - contradiction.
Qed.

Lemma update_denoted (config : arg angle quantity time) (base ov : data) :
  denotes L config ov ->
  update L config base = update L (a_config ov) base.
Proof.
  destruct config as [s|kv|c|]; unfold denotes.
  - intros [kv [Hy Hn]]. unfold update.
    cbv beta iota delta [bind ret get_self lift raise]. now rewrite Hy, Hn.
  - intros Hn. unfold update.
    cbv beta iota delta [bind ret get_self lift raise]. now rewrite Hn.
  - now intros [<- _].
  - contradiction.
Qed.

Lemma defaults_conform : conforms L (AnalysisConfig L) d0 = true.
Proof. exact (construct_conforms HR _ (wf_distinct _ (wf_AnalysisConfig HR)) _ _ Hd0). Qed.

End update.

(** *** [to_yaml] then [from_yaml] *)

Lemma py_eq_refl_str (s : string) : py_eq L (DStr s) (DStr s) = true.
Proof. apply String.eqb_refl. Qed.

Lemma lookup_jsonable (kv : list (string * data)) (k : string) :
  lookup k (map (fun e => (fst e, jsonable L (snd e))) kv)
  = option_map (jsonable L) (lookup k kv).
Proof.
  induction kv as [|[k' v] r IH]; simpl; [reflexivity|].
  now destruct (String.eqb k k').
Qed.

Lemma keys_jsonable (kv : list (string * data)) :
  keys (map (fun e => (fst e, jsonable L (snd e))) kv) = keys kv.
Proof. unfold keys. rewrite map_map. reflexivity. Qed.

Lemma jsonable_dict (kv : list (string * data)) :
  jsonable L (DDict kv) = DDict (map (fun e => (fst e, jsonable L (snd e))) kv).
Proof. reflexivity. Qed.

Section round_trip.

Lemma read_back_item (kv : list (string * data)) (k : string) :
  read_back L (DDict kv) = true -> read_back L (item kv k) = true.
Proof.
  intros H. unfold item. destruct (lookup k kv) as [v|] eqn:E; [|reflexivity].
  simpl in H. rewrite forallb_forall in H. exact (H _ (lookup_In _ _ _ _ E)).
Qed.

Lemma round_trip_value (t : ftype) : forall v,
  valid L t v = true -> read_back L v = true ->
  exists v', validate L t (jsonable L v) = Some v'
             /\ valid L t v' = true /\ py_eq L v v' = true
             /\ ambiguous L v v' = false.
Proof.
  induction t as [| | | | | | | | e | t' IH]; intros v H Hrb;
    destruct v; simpl in H; try discriminate.
  - exists (DStr s). repeat split. apply String.eqb_refl.
  - exists (DInt z). repeat split. apply Z.eqb_refl.
  - exists (DBool b). repeat split. now destruct b.
  - exists (DPath p). apply String.eqb_eq in H. simpl.
    rewrite H, String.eqb_refl. now repeat split.
  - apply andb_true_iff in H. destruct H as [H1 H2]. apply String.eqb_eq in H1.
    exists (DPath p). simpl. rewrite H1, H2, String.eqb_refl. now repeat split.
  - simpl in Hrb.
    destruct (Angle L (DStr (angle_value_unit L a))) as [a'|] eqn:Ha; [|discriminate].
    apply andb_true_iff in Hrb. destruct Hrb as [He Hamb].
    apply negb_true_iff in Hamb.
    exists (DAngle a'). simpl. rewrite Ha. now repeat split.
  - simpl in Hrb.
    destruct (Quantity L (DStr (quantity_value_unit L q))) as [q'|] eqn:Hq;
      [|discriminate].
    apply andb_true_iff in Hrb. destruct Hrb as [Hrb Hamb].
    apply andb_true_iff in Hrb. destruct Hrb as [Hen He].
    apply negb_true_iff in Hamb.
    exists (DQuantity q'). simpl. rewrite Hq, Hen. now repeat split.
  - simpl in Hrb.
    destruct (Time L (DStr (time_value L t))) as [t'|] eqn:Ht; [|discriminate].
    apply andb_true_iff in Hrb. destruct Hrb as [He Hamb].
    apply negb_true_iff in Hamb.
    exists (DTime t'). simpl. rewrite Ht. now repeat split.
  - apply andb_true_iff in H. destruct H as [H1 H2].
    apply enum_eqb_eq in H1. subst e0. exists (DEnum e value).
    simpl. unfold enum_validator. simpl.
    rewrite (find_eqb_In _ _ (proj1 (mem_In _ _) H2)). simpl.
    rewrite H2, enum_eqb_refl, String.eqb_refl. now repeat split.
  - assert (Hl : exists l', traverse (validate L t') (map (jsonable L) l) = Some l'
                            /\ forallb (valid L t') l' = true
                            /\ py_eq L (DList l) (DList l') = true
                            /\ Forall2 (fun a b => ambiguous L a b = false) l l').
    { simpl in Hrb. induction l as [|x r IHr].
      - exists []. repeat split. constructor.
      - simpl in H. apply andb_true_iff in H. destruct H as [Hx Hr].
        simpl in Hrb. apply andb_true_iff in Hrb. destruct Hrb as [Hbx Hbr].
        destruct (IH x Hx Hbx) as [x' [Hvx [Hx' [Hex Hax]]]].
        destruct (IHr Hr Hbr) as [r' [Hvr [Hr' [Her Har]]]].
        exists (x' :: r'). simpl traverse. rewrite Hvx, Hvr.
        split; [reflexivity|]. split; [|split].
        + simpl. now rewrite Hx', Hr'.
        + rewrite py_eq_list. now rewrite Hex, Her.
        + now constructor. }
    destruct Hl as [l' [Hv [Hl' [He Ha]]]]. exists (DList l').
    simpl validate. change ((fix jsonable (v : data) : data := _)) with (jsonable L).
    fold (map (jsonable L) l). rewrite Hv.
    split; [reflexivity|]. split; [exact Hl'|]. split; [exact He|].
    rewrite ambiguous_list, (ambiguous_in_list_false l l' Ha). apply andb_false_r.
Qed.

Lemma round_trip_field (t : ftype) (d v : data) :
  conforms L (field t d) v = true -> read_back L v = true ->
  exists v', validate_field L t d (jsonable L v) = Some v'
             /\ conforms L (field t d) v' = true /\ py_eq L v v' = true
             /\ ambiguous L v v' = false.
Proof.
  simpl. intros H Hrb. apply orb_true_iff in H. destruct H as [H|H].
  - apply andb_true_iff in H. destruct H as [Hd Hv]. destruct v; try discriminate.
    exists DNone. simpl. rewrite Hd. now repeat split.
  - destruct (round_trip_value t v H Hrb) as [v' [Hv [Hv' [He Ha]]]].
    exists v'. split; [|split; [now rewrite Hv', orb_true_r | now split]].
    unfold validate_field.
    destruct (jsonable L v) eqn:Ej; try exact Hv.
    destruct t; discriminate.
Qed.

Lemma round_trip_instance (s : schema) :
  distinct_fields s = true ->
  forall c, conforms L s c = true -> read_back L c = true ->
  exists c', construct L s (Some (jsonable L c)) = Some c'
             /\ conforms L s c' = true /\ py_eq L c c' = true
             /\ ambiguous L c c' = false.
Proof.
  induction s as [t d|fs IH] using schema_ind; intros Hdist c Hc Hrb.
  - now apply round_trip_field.
  - destruct (distinct_model _ Hdist) as [Hnd Hds].
    destruct (conforms_model _ _ Hc) as [kv [-> [Hk Hf]]].
    rewrite Forall_forall in IH.
    set (kvj := map (fun e => (fst e, jsonable L (snd e))) kv).
    assert (Hlk : forall e, In e fs ->
              lookup (fst e) kvj = Some (jsonable L (item kv (fst e)))).
    { intros e He. unfold kvj. rewrite lookup_jsonable, item_lookup; [reflexivity|].
      rewrite Hk. now apply In_keys. }
    destruct (build_total (construct L) kvj fs) as [r Hr].
    { intros e He. rewrite (Hlk e He).
      destruct (IH e He (Hds e He) _ (Hf e He) (read_back_item kv (fst e) Hrb))
        as [x' [Hx' _]]. now rewrite Hx'. }
    assert (Hitem : forall e, In e fs ->
              conforms L (snd e) (item r (fst e)) = true
              /\ py_eq L (item kv (fst e)) (item r (fst e)) = true
              /\ ambiguous L (item kv (fst e)) (item r (fst e)) = false).
    { intros e He.
      destruct (build_lookup _ _ _ _ (fst e) (snd e) Hnd Hr (In_lookup_field _ _ Hnd He))
        as [Hl _].
      destruct (IH e He (Hds e He) _ (Hf e He) (read_back_item kv (fst e) Hrb))
        as [x' [Hx' [Hcx [Hex Hax]]]].
      rewrite (Hlk e He), Hx' in Hl. unfold item at 1 3 5. now rewrite Hl. }
    assert (Hpair : forall k v, In (k, v) kv ->
              exists s', In (k, s') fs /\ item kv k = v).
    { intros k v Hin.
      assert (Hkin : In k (keys fs)) by (rewrite <- Hk; exact (In_keys kv (k, v) Hin)).
      destruct (key_lookup _ _ _ Hkin) as [s' Hs']. exists s'.
      split; [exact (lookup_In _ _ _ _ Hs')|].
      unfold item. rewrite (In_lookup _ kv k v); [reflexivity | now rewrite Hk | exact Hin]. }
    exists (DDict r). split; [|split; [|split]].
    + rewrite jsonable_dict. fold kvj. rewrite construct_model_eq.
      simpl as_mapping. cbv iota.
      replace (forallb (fun k => mem k (keys fs)) (keys kvj)) with true.
      * now rewrite Hr.
      * symmetry. apply forallb_forall. intros k Hin. apply mem_In.
        unfold kvj in Hin. rewrite keys_jsonable, Hk in Hin. exact Hin.
    + simpl. rewrite (build_keys _ _ _ _ Hr).
      replace (keys_eqb (keys fs) (keys fs)) with true
        by (symmetry; now apply keys_eqb_eq).
      simpl. apply forallb_forall. intros e He. now apply Hitem.
    + rewrite py_eq_dict. apply andb_true_iff. split.
      * apply Nat.eqb_eq.
        rewrite <- (length_map fst kv), <- (length_map fst r).
        fold (keys kv). fold (keys r). now rewrite Hk, (build_keys _ _ _ _ Hr).
      * apply forallb_forall. intros [k v] Hin. simpl.
        destruct (Hpair k v Hin) as [s' [Hs' Hv]].
        destruct (Hitem (k, s') Hs') as [_ [He _]]. simpl in He.
        rewrite Hv in He. unfold item in He.
        destruct (lookup k r) as [v'|] eqn:Er; [exact He|].
        exfalso. apply lookup_None in Er. apply Er.
        rewrite (build_keys _ _ _ _ Hr). exact (In_keys fs (k, s') Hs').
    + rewrite ambiguous_dict. apply andb_false_iff. right.
      apply ambiguous_in_dict_false. intros k v v' Hin Hl.
      destruct (Hpair k v Hin) as [s' [Hs' Hv]].
      destruct (Hitem (k, s') Hs') as [_ [_ Ha]]. simpl in Ha.
      now rewrite Hv, (item_of_lookup r k v' Hl) in Ha.
Qed.

Lemma py_eq_get (p : list string) : forall (s : schema) (t : ftype) (d0 c c' : data),
  distinct_fields s = true -> leaf_at p s = Some (t, d0) ->
  conforms L s c = true -> conforms L s c' = true -> py_eq L c c' = true ->
  exists v v', get p c = Some v /\ get p c' = Some v' /\ py_eq L v v' = true.
Proof.
  induction p as [|k p IH]; intros s t d0 c c' Hdist Hs Hc Hc' He.
  - exists c, c'. now repeat split.
  - destruct s as [|fs]; [discriminate|]. simpl in Hs.
    destruct (lookup k fs) as [s'|] eqn:Ek; [|discriminate].
    destruct (distinct_model _ Hdist) as [Hnd Hds].
    destruct (conforms_model _ _ Hc) as [kv [-> [Hk Hf]]].
    destruct (conforms_model _ _ Hc') as [kv' [-> [Hk' Hf']]].
    pose proof (lookup_In _ _ _ _ Ek) as Hin.
    assert (Hkin : In k (keys fs)) by (now apply lookup_Some_key in Ek).
    simpl. rewrite !item_lookup by (rewrite ?Hk, ?Hk'; exact Hkin).
    apply (IH s' t d0); [exact (Hds _ Hin) | exact Hs | exact (Hf _ Hin)
                        | exact (Hf' _ Hin) |].
    apply py_eq_dict_item; [now rewrite Hk | exact He | now rewrite Hk].
Qed.
End round_trip.

(** *** A composite that does not validate *)

Lemma build_None (f : schema -> option data -> option data)
  (kv : list (string * data)) (fs : list (string * schema)) (e : string * schema) :
  In e fs -> f (snd e) (lookup (fst e) kv) = None -> build f kv fs = None.
Proof.
  intros He Hf. destruct (build f kv fs) as [r|] eqn:Er; [|reflexivity].
  exfalso. exact (build_each _ _ _ _ Er e He Hf).
Qed.

Lemma deep_update_value_over_leaf (b v : data) :
  (forall kv, b <> DDict kv) -> deep_update_value (Some b) v = v.
Proof.
  intros H. destruct v; try reflexivity.
  destruct b; try reflexivity. now destruct (H kv0).
Qed.

Lemma partial_model (fs : list (string * schema)) (x : data) :
  partial L (model fs) x = true ->
  exists kv, x = DDict kv /\ NoDup (keys kv)
             /\ (forall k, In k (keys kv) -> In k (keys fs))
             /\ forall e v, In e fs -> lookup (fst e) kv = Some v ->
                            partial L (snd e) v = true.
Proof.
  destruct x; simpl; try discriminate. intros H.
  apply andb_true_iff in H. destruct H as [H H3].
  apply andb_true_iff in H. destruct H as [H1 H2].
  exists kv. split; [reflexivity|]. split; [now apply nodup_keys_NoDup|]. split.
  - intros k Hk. rewrite forallb_forall in H2. now apply mem_In, H2.
  - intros e v He Hv. rewrite forallb_forall in H3. specialize (H3 e He).
    now rewrite Hv in H3.
Qed.


Lemma exported_partial (s : schema) :
  distinct_fields s = true ->
  forall c, conforms L s c = true -> partial L s (dict_exclude_defaults L s c) = true.
Proof.
  induction s as [t d|fs IH] using schema_ind; intros Hdist c Hc.
  - now destruct c.
  - destruct (distinct_model _ Hdist) as [Hnd Hds].
    destruct (conforms_model _ _ Hc) as [kv [-> [Hk Hf]]].
    rewrite Forall_forall in IH. simpl.
    apply andb_true_iff. split; [apply andb_true_iff; split|].
    + now apply nodup_keys_NoDup, NoDup_keys_export.
    + apply forallb_forall. intros k Hin. apply mem_In.
      now apply keys_export in Hin.
    + apply forallb_forall. intros e He.
      rewrite (lookup_export _ _ _ _ (fst e) (snd e) Hnd (In_lookup_field _ _ Hnd He)).
      rewrite item_lookup by (rewrite Hk; now apply In_keys).
      destruct (is_default L (snd e) (item kv (fst e))); [reflexivity|].
      exact (IH e He (Hds e He) _ (Hf e He)).
Qed.

Lemma unique_keys_dict (kv : list (string * data)) :
  unique_keys (DDict kv) = true ->
  NoDup (keys kv) /\ forall k v, lookup k kv = Some v -> unique_keys v = true.
Proof.
  simpl. intros H. apply andb_true_iff in H. destruct H as [H1 H2].
  split; [now apply nodup_keys_NoDup|].
  intros k v Hl. rewrite forallb_forall in H2.
  exact (H2 (k, v) (lookup_In _ _ _ _ Hl)).
Qed.

Section composite.
Hypothesis HR : Revalidates L.

(** A mapping of validated values validates, where the defaults do. *)
Lemma partial_constructs (s : schema) :
  forall x, construct L s None <> None -> partial L s x = true ->
            construct L s (Some x) <> None.
Proof.
  induction s as [t d|fs IH] using schema_ind; intros x Hd Hx.
  - simpl in Hx. simpl. now rewrite (revalidate_field HR t d x Hx).
  - destruct (partial_model _ _ Hx) as [kv [-> [Hnd [Hk Hp]]]].
    rewrite Forall_forall in IH.
    destruct (construct L (model fs) None) as [d0|] eqn:Ed; [|contradiction].
    destruct (construct_model_defaults _ _ Ed) as [kd [-> Hkd]].
    rewrite construct_model_eq. simpl as_mapping. cbv iota.
    replace (forallb (fun k => mem k (keys fs)) (keys kv)) with true
      by (symmetry; apply forallb_forall; intros k Hin; now apply mem_In, Hk).
    destruct (build_total (construct L) kv fs) as [r ->]; [|discriminate].
    intros e He. pose proof (build_each _ _ _ _ Hkd e He) as Hde. simpl in Hde.
    destruct (lookup (fst e) kv) as [v|] eqn:Ev; [|exact Hde].
    exact (IH e He v Hde (Hp e v He Ev)).
Qed.

(** An override that validates alone validates over any such mapping:
    what fails in the composite fails in the override. *)
Lemma composite_constructs (s : schema) :
  forall raw b,
    unique_keys raw = true -> partial L s b = true ->
    construct L s (Some raw) <> None ->
    construct L s (Some (deep_update_value (Some b) raw)) <> None.
Proof.
  induction s as [t d|fs IH] using schema_ind; intros raw b Hu Hb Hc.
  - rewrite deep_update_value_over_leaf; [exact Hc|].
    intros kv. now apply (conforms_leaf_not_dict t d).
  - destruct (partial_model _ _ Hb) as [kb [-> [Hndb [Hkb Hpb]]]].
    destruct raw as [| | | | | | | | | |kr]; try exact Hc.
    destruct (unique_keys_dict _ Hu) as [Hndr Hur].
    destruct (construct L (model fs) (Some (DDict kr))) as [c|] eqn:Ec;
      [|contradiction].
    destruct (construct_model_inv _ _ _ Ec) as [kv [kc [Hkv [-> [Hkr Hbr]]]]].
    simpl in Hkv. injection Hkv as <-.
    rewrite Forall_forall in IH.
    rewrite deep_update_value_dicts, construct_model_eq. simpl as_mapping. cbv iota.
    replace (forallb (fun k => mem k (keys fs)) (keys (deep_update kb kr))) with true.
    2:{ symmetry. apply forallb_forall. intros k Hin. apply mem_In.
        apply keys_update_loop in Hin. destruct Hin; auto. }
    destruct (build_total (construct L) (deep_update kb kr) fs) as [r ->];
      [|discriminate].
    intros e He. pose proof (build_each _ _ _ _ Hbr e He) as Hre.
    rewrite (lookup_deep_update kb kr (fst e) Hndr).
    destruct (lookup (fst e) kr) as [x|] eqn:Ex; simpl.
    + destruct (lookup (fst e) kb) as [vb|] eqn:Evb.
      * exact (IH e He x vb (Hur _ _ Ex) (Hpb e vb He Evb) Hre).
      * now rewrite deep_update_value_new.
    + destruct (lookup (fst e) kb) as [vb|] eqn:Evb; [|exact Hre].
      exact (partial_constructs (snd e) vb Hre (Hpb e vb He Evb)).
Qed.
End composite.


(** *** The example of the specification *)

Lemma valid_unique_keys (t : ftype) : forall v,
  valid L t v = true -> unique_keys v = true.
Proof.
  induction t as [| | | | | | | | e | t' IH]; intros v H;
    destruct v; simpl in H; try discriminate; try reflexivity.
  simpl. rewrite forallb_forall in H. apply forallb_forall.
  intros x Hx. exact (IH x (H x Hx)).
Qed.

Lemma In_export (skip : schema -> data -> bool) (f : schema -> data -> data)
  (kv : list (string * data)) (fs : list (string * schema)) (k : string) (x : data) :
  In (k, x) (export skip f kv fs) ->
  exists s' v, In (k, s') fs /\ lookup k kv = Some v /\ x = f s' v.
Proof.
  induction fs as [|[n s1] rest IH]; simpl; [contradiction|].
  destruct (lookup n kv) as [v|] eqn:Ev.
  - destruct (skip s1 v).
    + intros H. destruct (IH H) as [s' [v' [H1 H2]]]. exists s', v'. tauto.
    + intros [H|H].
      * injection H as <- <-. exists s1, v. tauto.
      * destruct (IH H) as [s' [v' [H1 H2]]]. exists s', v'. tauto.
  - intros H. destruct (IH H) as [s' [v' [H1 H2]]]. exists s', v'. tauto.
Qed.

Lemma exported_unique_keys (s : schema) :
  distinct_fields s = true ->
  forall c, conforms L s c = true ->
  unique_keys (dict_exclude_defaults L s c) = true.
Proof.
  induction s as [t d|fs IH] using schema_ind; intros Hdist c Hc.
  - assert (Hself : dict_exclude_defaults L (field t d) c = c) by (now destruct c).
    rewrite Hself. simpl in Hc. apply orb_true_iff in Hc. destruct Hc as [Hc|Hc].
    + apply andb_true_iff in Hc. destruct Hc as [_ Hc]. now destruct c.
    + exact (valid_unique_keys t c Hc).
  - destruct (distinct_model _ Hdist) as [Hnd Hds].
    destruct (conforms_model _ _ Hc) as [kv [-> [Hk Hf]]].
    rewrite Forall_forall in IH. simpl.
    apply andb_true_iff. split.
    + now apply nodup_keys_NoDup, NoDup_keys_export.
    + apply forallb_forall. intros [k x] Hin. simpl.
      destruct (In_export _ _ _ _ _ _ Hin) as [s' [v [Hs' [Hv ->]]]].
      apply (IH (k, s') Hs' (Hds _ Hs')).
      pose proof (Hf (k, s') Hs') as Hcv. simpl in Hcv.
      unfold item in Hcv. now rewrite Hv in Hcv.
Qed.


Section example.
Hypothesis HR : Revalidates L.
Variable d0 : data.
Hypothesis Hd0 : construct L (AnalysisConfig L) None = Some d0.

(** The merge of two instances validates. *)
Lemma update_returns (base ov : data) :
  conforms L (AnalysisConfig L) base = true ->
  conforms L (AnalysisConfig L) ov = true ->
  comparable L (AnalysisConfig L) d0 base = true ->
  comparable L (AnalysisConfig L) d0 ov = true ->
  exists r, update L (a_config ov) base = (Ok (Some r), base)
            /\ conforms L (AnalysisConfig L) r = true.
Proof.
  intros Hb Ho Hcb Hco.
  assert (Hdist : distinct_fields (AnalysisConfig L) = true) by reflexivity.
  pose proof (to_dict_returns HR _ d0 base Hdist Hd0 Hb Hcb) as Htb.
  pose proof (to_dict_returns HR _ d0 ov Hdist Hd0 Ho Hco) as Hto.
  assert (HAC : exists fs, AnalysisConfig L = model fs) by (eexists; reflexivity).
  destruct HAC as [fs HAC].
  unfold update, new_AnalysisConfig.
  cbv beta iota delta [bind ret get_self lift raise].
  rewrite Htb. cbv beta iota. rewrite Hto. cbv beta iota. clear Htb Hto Hcb Hco.
  pose proof Hd0 as Hd. rewrite HAC in *.
  destruct (conforms_model _ _ Hb) as [kb [Eb _]].
  destruct (conforms_model _ _ Ho) as [ko [Eo _]].
  assert (Hm : dict_exclude_defaults L (model fs) base
               = DDict (export (is_default L) (dict_exclude_defaults L) kb fs))
    by (now rewrite Eb).
  assert (Hu : dict_exclude_defaults L (model fs) ov
               = DDict (export (is_default L) (dict_exclude_defaults L) ko fs))
    by (now rewrite Eo).
  pose proof (exported_partial (model fs) Hdist base Hb) as Hpm.
  pose proof (exported_partial (model fs) Hdist ov Ho) as Hpu.
  pose proof (exported_unique_keys (model fs) Hdist ov Ho) as Huu.
  rewrite Hm in *. rewrite Hu in *. cbv beta iota.
  set (m := export (is_default L) (dict_exclude_defaults L) kb fs) in *.
  set (u := export (is_default L) (dict_exclude_defaults L) ko fs) in *.
  destruct (construct L (model fs) (Some (DDict (deep_update m u)))) as [r|] eqn:Er.
  - exists r. split; [reflexivity|].
    exact (construct_conforms HR (model fs) Hdist _ _ Er).
  - exfalso. rewrite <- deep_update_value_dicts in Er. revert Er.
    apply (composite_constructs HR (model fs) (DDict u) (DDict m) Huu Hpm).
    apply (partial_constructs HR (model fs)); [rewrite Hd; discriminate | exact Hpu].
Qed.

End example.

End Properties.

(** ** The reference instance meets the contracts *)

Lemma Ref_revalidates : Revalidates Ref.lib.
Proof. constructor; reflexivity. Qed.

Lemma Ref_literal_eq : LiteralEq Ref.lib.
Proof.
  assert (Hread : forall s x0 : string,
             (if Ref.is_array s then None else Some s) = Some x0 ->
             Ref.is_array s = false /\ x0 = s).
  { intros s x0 H. destruct (Ref.is_array s); [discriminate|].
    injection H as <-. now split. }
  constructor; intros s x0 H; destruct (Hread s x0 H) as [E ->]; try intros x;
    simpl; unfold Ref.text_several, Ref.several; rewrite ?E; reflexivity.
Qed.

(** ** The merge *)




(** The law needs that contract: where text never equals an Angle or a
    Quantity, an override that sets only the number of bins also exports
    the default energy bounds of its class, and they replace the bound the
    base had set. *)
Remark textual_default_overwrites_base :
  get ["flux_points"; "energy"; "min"] (Ref.instance Ref.strict Ref.base_min)
  = Some (DQuantity "1 TeV")
  /\ get ["flux_points"; "energy"; "min"] (Ref.instance Ref.strict Ref.more_bins)
     = Some (DQuantity "0.1 TeV")
  /\ exists r,
       update Ref.strict (a_dict Ref.more_bins) (Ref.instance Ref.strict Ref.base_min)
       = (Ok (Some r), Ref.instance Ref.strict Ref.base_min)
       /\ get ["flux_points"; "energy"; "min"] r = Some (DQuantity "0.1 TeV").
Proof.
  split; [vm_compute; reflexivity|]. split; [vm_compute; reflexivity|].
  eexists. split; vm_compute; reflexivity.
Qed.

(** ** The round trip through YAML *)

(** C2, as amended.  For a configuration [c] whose every Angle,
    Quantity and Time is read back by its constructor, from the text its
    encoder writes, as an equal object, where PyYAML reads back the document
    it dumps, [from_yaml (to_yaml c)] is a configuration equal to [c]
    ([==], with a truth value), and equal at every leaf. *)
Theorem yaml_round_trip
  (angle quantity time : Type) (L : Lib angle quantity time)
  (c : data angle quantity time) :
  conforms L (AnalysisConfig L) c = true ->
  read_back L c = true ->
  yaml_load L (yaml_dump L (jsonable L c)) = Some (jsonable L c) ->
  exists c',
    from_yaml L (to_yaml L c) = Ok c'
    /\ conforms L (AnalysisConfig L) c' = true
    /\ py_eq L c c' = true
    /\ ambiguous L c c' = false
    /\ forall p t d,
         leaf_at p (AnalysisConfig L) = Some (t, d) ->
         exists v v', get p c = Some v /\ get p c' = Some v' /\ py_eq L v v' = true.
Proof.
  intros Hc Hrb Hy.
  assert (Hdist : distinct_fields (AnalysisConfig L) = true) by reflexivity.
  destruct (round_trip_instance _ _ _ L (AnalysisConfig L) Hdist c Hc Hrb)
    as [c' [Hc' [Hcf [He Ha]]]].
  exists c'. split; [|split; [exact Hcf | split; [exact He | split; [exact Ha|]]]].
  - unfold from_yaml, to_yaml. rewrite Hy.
    assert (HAC : exists fs, AnalysisConfig L = model fs) by (eexists; reflexivity).
    destruct HAC as [fs HAC]. pose proof Hc as Hc2. rewrite HAC in Hc2.
    destruct (conforms_model _ _ _ L fs c Hc2) as [kv [-> _]].
    rewrite jsonable_dict in *. cbv beta iota.
    unfold new_AnalysisConfig. now rewrite Hc'.
  - intros p t d Hp. exact (py_eq_get _ _ _ L p _ t d c c' Hdist Hp Hc Hcf He).
Qed.

Lemma yaml_round_trip_witness :
  exists c',
    from_yaml Ref.lib (to_yaml Ref.lib Ref.survey) = Ok c'
    /\ conforms Ref.lib (AnalysisConfig Ref.lib) c' = true
    /\ py_eq Ref.lib Ref.survey c' = true
    /\ ambiguous Ref.lib Ref.survey c' = false
    /\ forall p t d,
         leaf_at p (AnalysisConfig Ref.lib) = Some (t, d) ->
         exists v v', get p Ref.survey = Some v /\ get p c' = Some v'
                      /\ py_eq Ref.lib v v' = true.
Proof.
  apply (yaml_round_trip _ _ _ Ref.lib Ref.survey); vm_compute; reflexivity.
Defined.

(** C2 fails as the specification states it.  A configuration that
    validates, with an Angle of two values for a width, is written as a
    document that PyYAML reads back, and [from_yaml] raises on it: no
    constructor reads what the encoder wrote for the Angle. *)
Lemma yaml_round_trip_counterexample :
  new_AnalysisConfig Ref.lib Ref.wide_dict = Ok Ref.wide
  /\ conforms Ref.lib (AnalysisConfig Ref.lib) Ref.wide = true
  /\ get ["datasets"; "geom"; "wcs"; "fov"; "width"] (jsonable Ref.lib Ref.wide)
     = Some (DStr "[1. 2.] deg")
  /\ yaml_load Ref.lib (yaml_dump Ref.lib (jsonable Ref.lib Ref.wide))
     = Some (jsonable Ref.lib Ref.wide)
  /\ from_yaml Ref.lib (to_yaml Ref.lib Ref.wide) = Raise ValidationError.
Proof. repeat split; vm_compute; reflexivity. Qed.

(** ** An override that does not validate *)




(** * Further properties *)

(** *** Text *)

Lemma append_assoc (a b c : string) : (a ++ b) ++ c = a ++ (b ++ c).
Proof. induction a as [|x a IH]; simpl; [reflexivity | now rewrite IH]. Qed.

Lemma append_nil_r (a : string) : a ++ "" = a.
Proof. induction a as [|x a IH]; simpl; [reflexivity | now rewrite IH]. Qed.

(** *** The sections of the docs file *)

Lemma keys_set_item_eq {A : Type} (kv : list (string * A)) (k : string) (v : A) :
  keys (set_item k v kv) = add_key (keys kv) k.
Proof.
  unfold add_key. induction kv as [|[k' v'] kv IH]; simpl; [reflexivity|].
  destruct (String.eqb k k'); simpl; [reflexivity|].
  rewrite IH. now destruct (mem k (keys kv)).
Qed.

Lemma add_key_NoDup (acc : list string) (k : string) :
  NoDup acc -> NoDup (add_key acc k).
Proof.
  intros H. unfold add_key. destruct (mem k acc) eqn:E; [exact H|].
  apply mem_false in E. apply NoDup_app; [exact H | repeat constructor; intros [] | ].
  intros x Hx [<-|[]]. contradiction.
Qed.

Lemma seen_NoDup (ks : list string) : forall acc,
  NoDup acc -> NoDup (fold_left add_key ks acc).
Proof.
  induction ks as [|k ks IH]; intros acc H; simpl; [exact H|].
  apply IH. now apply add_key_NoDup.
Qed.

Lemma doc_get_set_item (doc : list (string * string)) (k k' text : string) :
  doc_get (set_item k' text doc) k = if String.eqb k k' then text else doc_get doc k.
Proof.
  unfold doc_get. rewrite lookup_set_item. now destruct (String.eqb k k').
Qed.

(** Once a keyword is bound the loop runs to its end. *)
Lemma doc_loop_bound (lines : list string) : forall (k : string) (doc : list (string * string)),
  exists doc', doc_loop lines (Some k) doc = Return doc'.
Proof.
  induction lines as [|raw rest IH]; intros k doc; simpl.
  - now exists doc.
  - destruct (startswith raw "---"); [apply IH|].
    destruct (startswith (strip_nl raw) section_mark); apply IH.
Qed.

(** What the loop returns: under each keyword its lines, and the keywords
    in the order of their first line. *)
Lemma doc_loop_blocks (lines : list string) :
  forall (kw : option string) (doc doc' : list (string * string)),
    doc_loop lines kw doc = Return doc' ->
    keys doc' = fold_left add_key (keywords (tagged lines kw)) (keys doc)
    /\ forall k, doc_get doc' k = doc_get doc k ++ block k (tagged lines kw).
Proof.
  induction lines as [|raw rest IH]; intros kw doc doc' H; simpl in H |- *.
  - injection H as <-. split; [reflexivity|]. intros k. now rewrite append_nil_r.
  - destruct (startswith raw "---"); [exact (IH kw doc doc' H)|].
    destruct (if startswith (strip_nl raw) section_mark
              then Some (replace section_mark "" (strip_nl raw)) else kw)
      as [k0|]; [|discriminate].
    destruct (IH _ _ _ H) as [Hk Hb]. split.
    + simpl. now rewrite Hk, keys_set_item_eq.
    + intros k. rewrite (Hb k), doc_get_set_item. simpl.
      rewrite (String.eqb_sym k0 k).
      destruct (String.eqb_spec k k0) as [->|_]; [|reflexivity].
      now rewrite !append_assoc.
Qed.

Lemma printed_blocks (P : string -> bool) (doc : list (string * string)) :
  NoDup (keys doc) ->
  map snd (filter (fun e => P (fst e)) doc) = map (doc_get doc) (filter P (keys doc)).
Proof.
  induction doc as [|[k v] doc IH]; intros Hnd; [reflexivity|].
  inversion Hnd as [|? ? Hout Hnd']; subst. simpl.
  assert (Hrest : map (doc_get ((k, v) :: doc)) (filter P (keys doc))
                  = map (doc_get doc) (filter P (keys doc))).
  { apply map_ext_in. intros k' Hk'. apply filter_In in Hk'. destruct Hk' as [Hk' _].
    unfold doc_get. simpl. destruct (String.eqb_spec k' k) as [->|_]; [contradiction|reflexivity]. }
  destruct (P k); simpl; rewrite ?Hrest, <- (IH Hnd'); [|reflexivity].
  unfold doc_get at 1. simpl. now rewrite String.eqb_refl.
Qed.

(** *** Tabs *)

Lemma no_tab_app (a b : string) : no_tab (a ++ b) = no_tab a && no_tab b.
Proof.
  induction a as [|x a IH]; simpl; [reflexivity|]. rewrite IH. apply andb_assoc.
Qed.

Lemma no_tab_spaces (n : nat) : no_tab (spaces n) = true.
Proof. induction n as [|n IH]; simpl; [reflexivity | exact IH]. Qed.

Lemma expandtabs_no_tab (s : string) : forall col, no_tab (expandtabs col s) = true.
Proof.
  induction s as [|c r IH]; intros col; simpl; [reflexivity|].
  destruct (Ascii.eqb c tab) eqn:Et.
  - now rewrite no_tab_app, no_tab_spaces, IH.
  - destruct (Ascii.eqb c nl || Ascii.eqb c cr); simpl; now rewrite Et, IH.
Qed.

Lemma prefix_nil (s : string) : String.prefix "" s = true.
Proof. now destruct s. Qed.

Lemma replace_from_cons (old new : string) (c : ascii) (r : string) :
  replace_from old new 0 (String c r)
  = if String.prefix old (String c r)
    then new ++ replace_from old new (String.length old - 1) r
    else String c (replace_from old new 0 r).
Proof. reflexivity. Qed.

Lemma prefix_cons (a b : ascii) (s1 s2 : string) :
  String.prefix (String a s1) (String b s2)
  = if ascii_dec a b then String.prefix s1 s2 else false.
Proof. reflexivity. Qed.

Lemma replace_nl_step (new : string) (c : ascii) (r : string) :
  replace (String nl "") new (String c r)
  = if Ascii.eqb c nl then new ++ replace (String nl "") new r
    else String c (replace (String nl "") new r).
Proof.
  unfold replace. rewrite replace_from_cons, prefix_cons, prefix_nil.
  destruct (ascii_dec nl c) as [<-|Hne].
  - now rewrite Ascii.eqb_refl.
  - destruct (Ascii.eqb_spec c nl) as [->|_]; [contradiction | reflexivity].
Qed.

(** After a newline a tab is four spaces: the lines are indented alike. *)
Lemma expandtabs_indent (s : string) :
  no_tab s = true ->
  forall col,
    expandtabs col (replace (String nl "") (String nl (String tab "")) s)
    = replace (String nl "") (String nl "    ") s.
Proof.
  induction s as [|c r IH]; intros Hs col; [reflexivity|].
  simpl in Hs. apply andb_true_iff in Hs. destruct Hs as [Hc Hr].
  apply negb_true_iff in Hc. rewrite !replace_nl_step.
  destruct (Ascii.eqb c nl) eqn:En.
  - simpl. now rewrite (IH Hr).
  - simpl. rewrite Hc, En. simpl. destruct (Ascii.eqb c cr); now rewrite (IH Hr).
Qed.

(** *** Construction, the merge and the methods *)

Section More_properties.

Variables angle quantity time : Type.
Variable L : Lib angle quantity time.
Variable sys : Sys angle quantity time.

#[local] Abbreviation data := (data angle quantity time).
#[local] Abbreviation schema := (schema angle quantity time).

(** *** What construction refuses *)

Lemma construct_None_field (fs : list (string * schema)) (kv : list (string * data))
  (name : string) (s' : schema) :
  lookup name fs = Some s' ->
  construct L s' (lookup name kv) = None ->
  construct L (model fs) (Some (DDict kv)) = None.
Proof.
  intros Hs Hc. rewrite construct_model_eq. simpl as_mapping. cbv beta iota.
  rewrite (build_None _ _ _ (construct L) kv fs (name, s') (lookup_In _ _ _ _ Hs) Hc).
  now destruct (forallb _ _).
Qed.

Lemma extra_key_refused (p : list string) : forall (k : string) (s : schema) (raw : data),
  extra_key p k s raw = true -> construct L s (Some raw) = None.
Proof.
  induction p as [|name p IH]; intros k s raw H;
    destruct s as [t d|fs]; try discriminate;
    destruct raw as [| | | | | | | | | |kv]; try discriminate; simpl in H.
  - apply andb_true_iff in H. destruct H as [Hin Hout].
    apply negb_true_iff in Hout.
    rewrite construct_model_eq. simpl as_mapping. cbv beta iota.
    replace (forallb (fun k0 => mem k0 (keys fs)) (keys kv)) with false; [reflexivity|].
    symmetry. apply not_true_is_false. intros Hall.
    rewrite forallb_forall in Hall. apply mem_In in Hin.
    rewrite (Hall k Hin) in Hout. discriminate.
  - destruct (lookup name fs) as [s'|] eqn:Es; [|discriminate].
    destruct (lookup name kv) as [v|] eqn:Ev; [|discriminate].
    apply (construct_None_field fs kv name s' Es). rewrite Ev. exact (IH k s' v H).
Qed.

Lemma rejected_leaf_refused (p : list string) : forall (s : schema) (t : ftype)
  (d raw v : data),
  leaf_at p s = Some (t, d) -> get p raw = Some v ->
  validate_field L t d v = None ->
  construct L s (Some raw) = None.
Proof.
  induction p as [|name p IH]; intros s t d raw v Hs Hg Hv.
  - destruct s as [t' d'|]; [|discriminate]. simpl in Hs, Hg.
    injection Hs as -> ->. injection Hg as ->. exact Hv.
  - destruct s as [|fs]; [discriminate|]. simpl in Hs, Hg.
    destruct (lookup name fs) as [s'|] eqn:Es; [|discriminate].
    destruct raw as [| | | | | | | | | |kv]; try discriminate.
    destruct (lookup name kv) as [v'|] eqn:Ev; [|discriminate].
    apply (construct_None_field fs kv name s' Es). rewrite Ev.
    exact (IH s' t d v' v Hs Hg Hv).
Qed.

Lemma find_eqb_None (s0 : string) (l : list string) :
  mem s0 l = false -> find (fun s' => String.eqb s' s0) l = None.
Proof.
  intros H. destruct (find (fun s' => String.eqb s' s0) l) as [s|] eqn:E; [|reflexivity].
  apply find_eqb_Some in E. destruct E as [_ Hin]. apply mem_In in Hin. congruence.
Qed.

Lemma all_leaves_at (P : ftype -> data -> bool) (p : list string) :
  forall (s : schema) (t : ftype) (d : data),
    all_leaves P s = true -> leaf_at p s = Some (t, d) -> P t d = true.
Proof.
  induction p as [|name p IH]; intros s t d Ha Hs.
  - destruct s; [|discriminate]. simpl in Hs. injection Hs as -> ->. exact Ha.
  - destruct s as [|fs]; [discriminate|]. simpl in Hs, Ha.
    destruct (lookup name fs) as [s'|] eqn:Es; [|discriminate].
    rewrite forallb_forall in Ha.
    exact (IH s' t d (Ha (name, s') (lookup_In _ _ _ _ Es)) Hs).
Qed.

(** Each leaf of a constructed instance is what its validator returned. *)
Lemma leaf_validated (p : list string) : forall (s : schema) (t : ftype)
  (d : data) (v : option data) (c : data),
  distinct_fields s = true ->
  leaf_at p s = Some (t, d) -> construct L s v = Some c ->
  exists w x, get p c = Some x /\ validate_field L t d w = Some x.
Proof.
  induction p as [|name p IH]; intros s t d v c Hdist Hs Hc.
  - destruct s as [t' d'|]; [|discriminate]. simpl in Hs. injection Hs as -> ->.
    simpl in Hc. eexists. exists c. split; [reflexivity | exact Hc].
  - destruct s as [|fs]; [discriminate|]. simpl in Hs.
    destruct (lookup name fs) as [s'|] eqn:Es; [|discriminate].
    destruct (distinct_model _ _ _ _ Hdist) as [Hnd Hds].
    destruct (construct_model_inv _ _ _ L _ _ _ Hc) as [kv [kc [Hkv [-> [_ Hb]]]]].
    destruct (construct_get _ _ _ L fs v kv (DDict kc) name s' Hnd Hkv Hc Es)
      as [x [Hx Hcx]].
    destruct (IH s' t d _ x (Hds _ (lookup_In _ _ _ _ Es)) Hs Hcx) as [w [y [Hy Hw]]].
    exists w, y. split; [|exact Hw]. now rewrite (get_cons _ _ _ name p (DDict kc) x Hx).
Qed.


(** *** A configuration validates as itself *)

Lemma rebuild_items (fs : list (string * schema)) : forall (kv : list (string * data)),
  NoDup (keys fs) -> keys kv = keys fs ->
  map (fun e => (fst e, item kv (fst e))) fs = kv.
Proof.
  induction fs as [|[k s] fs IH]; intros [|[k' v] kv] Hnd Hk; try discriminate.
  - reflexivity.
  - simpl in Hk. injection Hk as -> Hk. inversion Hnd as [|? ? Hout Hnd']; subst.
    simpl. unfold item at 1. simpl. rewrite String.eqb_refl. f_equal.
    transitivity (map (fun e => (fst e, item kv (fst e))) fs); [|exact (IH kv Hnd' Hk)].
    apply map_ext_in. intros e He.
    unfold item. simpl. destruct (String.eqb_spec (fst e) k) as [E|_]; [|reflexivity].
    exfalso. apply Hout. rewrite <- E. now apply In_keys.
Qed.

Lemma keys_all_mem (ks : list string) : forallb (fun k => mem k ks) ks = true.
Proof. apply forallb_forall. intros k Hk. now apply mem_In. Qed.

Lemma construct_fixed (s : schema) :
  Revalidates L -> distinct_fields s = true ->
  forall c, conforms L s c = true -> construct L s (Some c) = Some c.
Proof.
  intros HR. induction s as [t d|fs IH] using schema_ind; intros Hdist c Hc.
  - simpl. exact (revalidate_field _ _ _ L HR t d c Hc).
  - destruct (distinct_model _ _ _ _ Hdist) as [Hnd Hds].
    destruct (conforms_model _ _ _ L fs c Hc) as [kv [-> [Hk Hf]]].
    rewrite construct_model_eq. simpl as_mapping. cbv beta iota.
    rewrite Hk, keys_all_mem.
    rewrite (build_map _ _ _ (construct L) kv fs (fun e => item kv (fst e))).
    + simpl. now rewrite (rebuild_items fs kv Hnd Hk).
    + intros e He. rewrite Forall_forall in IH.
      rewrite (item_lookup _ _ _ kv (fst e)) by (rewrite Hk; now apply In_keys).
      exact (IH e He (Hds e He) _ (Hf e He)).
Qed.

(** *** The overlay applied twice *)

Lemma overlay_leaf_twice (d b o : data) :
  overlay_leaf L d (overlay_leaf L d b o) o = overlay_leaf L d b o.
Proof.
  unfold overlay_leaf. destruct (py_eq L d o) eqn:Eo; [|reflexivity].
  destruct (py_eq L d b) eqn:Eb.
  - now destruct (py_eq L d d).
  - now rewrite Eb.
Qed.

Lemma overlay_twice (s : schema) :
  distinct_fields s = true ->
  forall d b o,
    conforms L s d = true -> conforms L s b = true -> conforms L s o = true ->
    overlay L s d (overlay L s d b o) o = overlay L s d b o.
Proof.
  induction s as [t d0|fs IH] using schema_ind; intros Hdist d b o Hd Hb Ho.
  - simpl. apply overlay_leaf_twice.
  - destruct (distinct_model _ _ _ _ Hdist) as [Hnd Hds].
    destruct (conforms_model _ _ _ L fs d Hd) as [kd [-> [Hkd Hfd]]].
    destruct (conforms_model _ _ _ L fs b Hb) as [kb [-> [Hkb Hfb]]].
    destruct (conforms_model _ _ _ L fs o Ho) as [ko [-> [Hko Hfo]]].
    simpl. f_equal. apply map_ext_in. intros e He. f_equal.
    rewrite (item_map_fields _ _ _ fs
               (fun e => overlay L (snd e) (item kd (fst e)) (item kb (fst e))
                           (item ko (fst e))) e Hnd He).
    rewrite Forall_forall in IH.
    exact (IH e He (Hds e He) _ _ _ (Hfd e He) (Hfb e He) (Hfo e He)).
Qed.

(** *** The document [to_yaml] dumps *)




(** *** Writing and reading a file *)

Lemma written (self : data) (path : string) (overwrite : bool) (fs fs' : files) :
  write L sys self path overwrite fs = (Return tt, fs') ->
  fs' = write_text fs (make_path sys path) (to_yaml L self).
Proof.
  unfold write. cbv zeta.
  destruct (fs (make_path sys path)); [destruct overwrite|]; simpl;
    try discriminate;
    (destruct (open_w sys fs (make_path sys path)); intros H; now inversion H).
Qed.

Lemma read_written (c : data) (path : string) (fs : files) :
  read_yaml_loads L sys ->
  conforms L (AnalysisConfig L) c = true ->
  read_back L c = true ->
  yaml_load L (yaml_dump L (jsonable L c)) = Some (jsonable L c) ->
  exists c',
    read L sys (write_text fs (make_path sys path) (to_yaml L c)) path = Return c'
    /\ conforms L (AnalysisConfig L) c' = true /\ py_eq L c c' = true
    /\ ambiguous L c c' = false.
Proof.
  intros HS Hc Hrb Hy.
  assert (Hdist : distinct_fields (AnalysisConfig L) = true) by reflexivity.
  destruct (round_trip_instance _ _ _ L (AnalysisConfig L) Hdist c Hc Hrb)
    as [c' [Hc' [Hcf [He Ha]]]].
  exists c'. split; [|split; [exact Hcf | split; [exact He | exact Ha]]].
  unfold read. rewrite HS. unfold write_text. rewrite String.eqb_refl.
  unfold to_yaml. rewrite Hy.
  assert (HAC : exists fs, AnalysisConfig L = model fs) by (eexists; reflexivity).
  destruct HAC as [fs0 HAC]. pose proof Hc as Hc2. rewrite HAC in Hc2.
  destruct (conforms_model _ _ _ L fs0 c Hc2) as [kv [-> _]].
  rewrite jsonable_dict in *. cbv beta iota.
  unfold new_AnalysisConfig. now rewrite Hc'.
Qed.

(** *** Assignment *)

Lemma keys_set_item_same {A : Type} (kv : list (string * A)) (k : string) (v : A) :
  In k (keys kv) -> keys (set_item k v kv) = keys kv.
Proof.
  intros H. rewrite keys_set_item_eq. unfold add_key.
  apply mem_In in H. now rewrite H.
Qed.

Lemma item_set_item (kv : list (string * data)) (k k' : string) (v : data) :
  item (set_item k' v kv) k = if String.eqb k k' then v else item kv k.
Proof. unfold item. rewrite lookup_set_item. now destruct (String.eqb k k'). Qed.

Lemma conforms_set_item (fs : list (string * schema)) (kv : list (string * data))
  (name : string) (s' : schema) (v : data) :
  NoDup (keys fs) -> lookup name fs = Some s' ->
  conforms L (model fs) (DDict kv) = true -> conforms L s' v = true ->
  conforms L (model fs) (DDict (set_item name v kv)) = true.
Proof.
  intros Hnd Hs Hc Hv.
  destruct (conforms_model _ _ _ L fs _ Hc) as [kv' [E [Hk Hf]]]. injection E as <-.
  simpl. rewrite keys_set_item_same by (rewrite Hk; exact (lookup_Some_key _ _ _ _ Hs)).
  rewrite Hk. replace (keys_eqb (keys fs) (keys fs)) with true
    by (symmetry; now apply keys_eqb_eq).
  simpl. apply forallb_forall. intros e He. rewrite item_set_item.
  destruct (String.eqb_spec (fst e) name) as [E|_]; [|exact (Hf e He)].
  rewrite <- E, (In_lookup_field _ _ _ fs e Hnd He) in Hs. injection Hs as ->. exact Hv.
Qed.

(** An assignment at a leaf stores what the leaf's validator returns and
    keeps every other leaf; a value the validator refuses is a
    [ValidationError]. *)
Lemma assign_leaf (p : list string) : forall (name : string) (s : schema)
  (t : ftype) (d self value : data),
  distinct_fields s = true -> conforms L s self = true ->
  leaf_at (name :: p) s = Some (t, d) ->
  match validate_field L t d value with
  | Some x =>
      exists self',
        assign L s self (name :: p) value = Return self'
        /\ get (name :: p) self' = Some x
        /\ (Revalidates L -> conforms L s self' = true)
        /\ forall q t' d', leaf_at q s = Some (t', d') -> q <> name :: p ->
                           get q self' = get q self
  | None => assign L s self (name :: p) value = Throw (Exn ValidationError)
  end.
Proof.
  induction p as [|name' p IH]; intros name s t d self value Hdist Hc Hs;
    (destruct s as [|fs]; [discriminate|]);
    destruct (distinct_model _ _ _ _ Hdist) as [Hnd Hds];
    destruct (conforms_model _ _ _ L fs self Hc) as [kv [-> [Hk Hf]]];
    simpl in Hs; destruct (lookup name fs) as [s'|] eqn:Es; try discriminate;
    pose proof (lookup_In _ _ _ _ Es) as Hin;
    assert (Hkv : lookup name kv = Some (item kv name))
      by (apply item_lookup; rewrite Hk; exact (lookup_Some_key _ _ _ _ Es)).
  - destruct s' as [t0 d0|]; [|discriminate]. simpl in Hs. injection Hs as -> ->.
    simpl assign. unfold setattr. rewrite Es. simpl construct.
    destruct (validate_field L t d value) as [x|] eqn:Ev; [|reflexivity].
    eexists. split; [reflexivity|]. split; [|split].
    + simpl. now rewrite lookup_set_item, String.eqb_refl.
    + intros HR. apply (conforms_set_item fs kv name (field t d) x Hnd Es Hc).
      exact (validate_field_conforms _ _ _ L HR t d value x Ev).
    + intros q t' d' Hq Hne. destruct q as [|k q]; [discriminate|].
      simpl in Hq |- *. rewrite lookup_set_item.
      destruct (String.eqb_spec k name) as [->|_]; [|reflexivity].
      rewrite Es in Hq. destruct q; [contradiction | discriminate].
  - change (assign L (model fs) (DDict kv) (name :: name' :: p) value)
      with (match lookup name fs, lookup name kv with
            | Some s', Some v =>
                match assign L s' v (name' :: p) value with
                | Return v' => Return (DDict (set_item name v' kv))
                | Throw e => Throw e
                end
            | _, _ => Throw AttributeError
            end).
    rewrite Es, Hkv.
    pose proof (IH name' s' t d (item kv name) value (Hds _ Hin) (Hf _ Hin) Hs) as H.
    destruct (validate_field L t d value) as [x|]; [|now rewrite H].
    destruct H as [v' [Ha [Hg [Hcf Hfr]]]]. rewrite Ha.
    eexists. split; [reflexivity|]. split; [|split].
    + change (get (name :: name' :: p) (DDict (set_item name v' kv)))
        with (match lookup name (set_item name v' kv) with
              | Some v => get (name' :: p) v
              | None => None
              end).
      now rewrite lookup_set_item, String.eqb_refl.
    + intros HR. exact (conforms_set_item fs kv name s' v' Hnd Es Hc (Hcf HR)).
    + intros q t' d' Hq Hne. destruct q as [|k q]; [discriminate|].
      simpl in Hq.
      change (get (k :: q) (DDict (set_item name v' kv)))
        with (match lookup k (set_item name v' kv) with
              | Some v => get q v
              | None => None
              end).
      change (get (k :: q) (DDict kv))
        with (match lookup k kv with Some v => get q v | None => None end).
      rewrite lookup_set_item.
      destruct (String.eqb_spec k name) as [->|_]; [|reflexivity].
      rewrite Es in Hq. rewrite Hkv.
      apply (Hfr q t' d' Hq). intros ->. now apply Hne.
Qed.


(** *** Refusals of the constructor, as [update] meets them *)

Lemma update_refused (kv : list (string * data)) (base : data) :
  construct L (AnalysisConfig L) (Some (DDict kv)) = None ->
  update L (a_dict kv) base = (Raise ValidationError, base).
Proof.
  intros Hn. unfold update. cbv beta iota delta [bind ret get_self lift raise].
  unfold new_AnalysisConfig. rewrite Hn. reflexivity.
Qed.

Lemma update_returned (c base r self' : data) :
  update L (a_config c) base = (Ok (Some r), self') ->
  export_raises L (AnalysisConfig L) base = false
  /\ export_raises L (AnalysisConfig L) c = false.
Proof.
  unfold update. cbv beta iota delta [bind ret get_self lift raise]. unfold to_dict.
  destruct (export_raises L (AnalysisConfig L) base); [discriminate|]. cbv beta iota.
  destruct (export_raises L (AnalysisConfig L) c); [discriminate|]. now split.
Qed.

Lemma new_refused (kv : list (string * data)) :
  construct L (AnalysisConfig L) (Some (DDict kv)) = None ->
  new_AnalysisConfig L kv = Raise ValidationError.
Proof. intros Hn. unfold new_AnalysisConfig. now rewrite Hn. Qed.

Lemma new_returned (kv : list (string * data)) (c : data) :
  new_AnalysisConfig L kv = Ok c ->
  construct L (AnalysisConfig L) (Some (DDict kv)) = Some c.
Proof.
  unfold new_AnalysisConfig.
  destruct (construct L (AnalysisConfig L) (Some (DDict kv))); [|discriminate].
  now intros [= ->].
Qed.

(** No energy of the schema is optional. *)
Lemma energy_default_set (p : list string) (d : data) :
  leaf_at p (AnalysisConfig L) = Some (EnergyType, d) -> is_None d = false.
Proof.
  intros H. apply negb_true_iff.
  refine (all_leaves_at
            (fun t d => match t with EnergyType => negb (is_None d) | _ => true end)
            p (AnalysisConfig L) EnergyType d _ H).
  reflexivity.
Qed.

Lemma energy_refused (d v : data) (q : quantity) :
  is_None d = false -> Quantity L v = Some q -> is_energy L q = false ->
  validate_field L EnergyType d v = None.
Proof.
  intros Hd HQ Hq. destruct v; simpl; rewrite ?Hd, ?HQ, ?Hq; reflexivity.
Qed.

Lemma energy_validated (d w x : data) :
  is_None d = false -> validate_field L EnergyType d w = Some x ->
  exists q, x = DQuantity q /\ is_energy L q = true.
Proof.
  intros Hd H.
  assert (Hv : validate L EnergyType w = Some x).
  { destruct w; simpl in H |- *; try exact H. rewrite Hd in H. discriminate. }
  assert (Hq : match Quantity L w with
               | Some q => if is_energy L q then Some (DQuantity q) else None
               | None => None
               end = Some x) by (destruct w; simpl in Hv; try discriminate; exact Hv).
  destruct (Quantity L w) as [q|]; [|discriminate].
  destruct (is_energy L q) eqn:Eq; [|discriminate].
  injection Hq as <-. now exists q.
Qed.

Lemma enum_refused (e : enum) (d : data) (s : string) :
  mem s (enum_values e) = false -> validate_field L (t_Enum e) d (DStr s) = None.
Proof.
  intros H. simpl. unfold enum_validator.
  change (find (fun s0 => py_eq L (DStr s0) (DStr s)) (enum_values e))
    with (find (fun s0 => String.eqb s0 s) (enum_values e)).
  now rewrite (find_eqb_None s (enum_values e) H).
Qed.

Lemma conforms_get (p : list string) : forall (s : schema) (t : ftype) (d c x : data),
  distinct_fields s = true -> leaf_at p s = Some (t, d) -> conforms L s c = true ->
  get p c = Some x -> conforms L (field t d) x = true.
Proof.
  induction p as [|k p IH]; intros s t d c x Hdist Hs Hc Hg.
  - destruct s; [|discriminate]. simpl in Hs, Hg. injection Hs as -> ->.
    injection Hg as ->. exact Hc.
  - destruct s as [|fs]; [discriminate|]. simpl in Hs.
    destruct (lookup k fs) as [s'|] eqn:Ek; [|discriminate].
    destruct (distinct_model _ _ _ _ Hdist) as [Hnd Hds].
    destruct (conforms_model _ _ _ L fs c Hc) as [kv [-> [Hk Hf]]].
    pose proof (lookup_In _ _ _ _ Ek) as Hin.
    simpl in Hg. rewrite (item_lookup _ _ _ kv k) in Hg
      by (rewrite Hk; exact (lookup_Some_key _ _ _ _ Ek)).
    exact (IH s' t d _ x (Hds _ Hin) Hs (Hf _ Hin) Hg).
Qed.

Lemma returned_inj (a a' b b' : data) :
  (Ok (Some a), b) = (Ok (Some a'), b') -> a = a'.
Proof. now intros [= -> _]. Qed.

Lemma get_two (k1 k2 : string) (p : list string) (c x : data) :
  get (k1 :: k2 :: p) c = Some x -> exists y, get [k1; k2] c = Some y.
Proof.
  simpl. destruct c as [| | | | | | | | | |kv]; try discriminate.
  destruct (lookup k1 kv) as [[| | | | | | | | | |kv']|]; try discriminate.
  destruct (lookup k2 kv') as [y|]; [|discriminate]. intros _. now exists y.
Qed.

Lemma new_conforms (kv : list (string * data)) (c : data) :
  Revalidates L -> new_AnalysisConfig L kv = Ok c ->
  conforms L (AnalysisConfig L) c = true.
Proof.
  intros HR H. apply new_returned in H.
  exact (construct_conforms _ _ _ L HR (AnalysisConfig L) eq_refl _ c H).
Qed.

Lemma read_conforms (fs : files) (path : string) (c : data) :
  Revalidates L -> read L sys fs path = Return c ->
  conforms L (AnalysisConfig L) c = true.
Proof.
  intros HR H. unfold read in H.
  destruct (read_yaml sys fs path) as [[| | | | | | | | | |kv]|]; try discriminate.
  destruct (new_AnalysisConfig L kv) as [c'|] eqn:E; [|discriminate].
  simpl in H. injection H as ->. exact (new_conforms kv c HR E).
Qed.

Lemma traverse_None {A B : Type} (f : A -> option B) (l : list A) (x : A) :
  In x l -> f x = None -> traverse f l = None.
Proof.
  induction l as [|y l IH]; intros Hin Hx; [contradiction|].
  destruct Hin as [<-|Hin]; simpl.
  - now rewrite Hx.
  - rewrite (IH Hin Hx). now destruct (f y).
Qed.

Lemma list_refused (t : ftype) (d x : data) (l : list data) :
  In x l -> validate L t x = None -> validate_field L (t_List t) d (DList l) = None.
Proof.
  intros Hin Hx. simpl. now rewrite (traverse_None (validate L t) l x Hin Hx).
Qed.

Lemma rejected_field_refused (p : list string) : forall (s s' : schema) (raw v : data),
  field_at p s = Some s' -> get p raw = Some v ->
  construct L s' (Some v) = None ->
  construct L s (Some raw) = None.
Proof.
  induction p as [|name p IH]; intros s s' raw v Hs Hg Hv.
  - simpl in Hs, Hg. injection Hs as ->. injection Hg as ->. exact Hv.
  - destruct s as [|fs]; [discriminate|]. simpl in Hs, Hg.
    destruct (lookup name fs) as [s1|] eqn:Es; [|discriminate].
    destruct raw as [| | | | | | | | | |kv]; try discriminate.
    destruct (lookup name kv) as [v'|] eqn:Ev; [|discriminate].
    apply (construct_None_field fs kv name s1 Es). rewrite Ev.
    exact (IH s1 s' v' v Hs Hg Hv).
Qed.

Lemma None_refused (s : schema) :
  optional s = false -> construct L s (Some DNone) = None.
Proof.
  destruct s as [t d|fs]; intros H.
  - simpl in H. simpl. now rewrite H.
  - now rewrite construct_model_eq.
Qed.

(** An assignment at a field, a leaf or a nested class, stores what the
    field's validation returns and keeps every leaf outside the field; a
    value the validation refuses is a [ValidationError]. *)
Lemma assign_field (p : list string) : forall (name : string) (s s' : schema)
  (self value : data),
  distinct_fields s = true -> conforms L s self = true ->
  field_at (name :: p) s = Some s' ->
  match construct L s' (Some value) with
  | Some x =>
      exists self',
        assign L s self (name :: p) value = Return self'
        /\ get (name :: p) self' = Some x
        /\ (Revalidates L -> conforms L s self' = true)
        /\ forall q t d, leaf_at q s = Some (t, d) ->
                         starts_with q (name :: p) = false ->
                         get q self' = get q self
  | None => assign L s self (name :: p) value = Throw (Exn ValidationError)
  end.
Proof.
  induction p as [|name' p IH]; intros name s s' self value Hdist Hc Hs;
    (destruct s as [|fs]; [discriminate|]);
    destruct (distinct_model _ _ _ _ Hdist) as [Hnd Hds];
    destruct (conforms_model _ _ _ L fs self Hc) as [kv [-> [Hk Hf]]];
    simpl in Hs; destruct (lookup name fs) as [s1|] eqn:Es; try discriminate;
    pose proof (lookup_In _ _ _ _ Es) as Hin;
    assert (Hkv : lookup name kv = Some (item kv name))
      by (apply item_lookup; rewrite Hk; exact (lookup_Some_key _ _ _ _ Es)).
  - injection Hs as ->.
    simpl assign. unfold setattr. rewrite Es.
    destruct (construct L s' (Some value)) as [x|] eqn:Ev; [|reflexivity].
    eexists. split; [reflexivity|]. split; [|split].
    + simpl. now rewrite lookup_set_item, String.eqb_refl.
    + intros HR. apply (conforms_set_item fs kv name s' x Hnd Es Hc).
      exact (construct_conforms _ _ _ L HR s' (Hds _ Hin) _ x Ev).
    + intros q t' d' Hq Hne. destruct q as [|k q]; [discriminate|].
      change (starts_with (k :: q) [name])
        with (String.eqb name k && starts_with q []) in Hne.
      replace (starts_with q []) with true in Hne by now destruct q.
      rewrite andb_true_r, String.eqb_sym in Hne.
      change (get (k :: q) (DDict (set_item name x kv)))
        with (match lookup k (set_item name x kv) with
              | Some v => get q v
              | None => None
              end).
      change (get (k :: q) (DDict kv))
        with (match lookup k kv with Some v => get q v | None => None end).
      now rewrite lookup_set_item, Hne.
  - change (assign L (model fs) (DDict kv) (name :: name' :: p) value)
      with (match lookup name fs, lookup name kv with
            | Some s', Some v =>
                match assign L s' v (name' :: p) value with
                | Return v' => Return (DDict (set_item name v' kv))
                | Throw e => Throw e
                end
            | _, _ => Throw AttributeError
            end).
    rewrite Es, Hkv.
    pose proof (IH name' s1 s' (item kv name) value (Hds _ Hin) (Hf _ Hin) Hs) as H.
    destruct (construct L s' (Some value)) as [x|]; [|now rewrite H].
    destruct H as [v' [Ha [Hg [Hcf Hfr]]]]. rewrite Ha.
    eexists. split; [reflexivity|]. split; [|split].
    + change (get (name :: name' :: p) (DDict (set_item name v' kv)))
        with (match lookup name (set_item name v' kv) with
              | Some v => get (name' :: p) v
              | None => None
              end).
      now rewrite lookup_set_item, String.eqb_refl.
    + intros HR. exact (conforms_set_item fs kv name s1 v' Hnd Es Hc (Hcf HR)).
    + intros q t' d' Hq Hne. destruct q as [|k q]; [discriminate|].
      simpl in Hq.
      change (get (k :: q) (DDict (set_item name v' kv)))
        with (match lookup k (set_item name v' kv) with
              | Some v => get q v
              | None => None
              end).
      change (get (k :: q) (DDict kv))
        with (match lookup k kv with Some v => get q v | None => None end).
      rewrite lookup_set_item.
      change (starts_with (k :: q) (name :: name' :: p))
        with (String.eqb name k && starts_with q (name' :: p)) in Hne.
      rewrite (String.eqb_sym name k) in Hne.
      destruct (String.eqb_spec k name) as [->|_]; [|reflexivity].
      rewrite Es in Hq. rewrite Hkv. simpl in Hne.
      exact (Hfr q t' d' Hq Hne).
Qed.

End More_properties.

Lemma filter_eqb_NoDup (s : string) (l : list string) :
  NoDup l -> filter (String.eqb s) l = if mem s l then [s] else [].
Proof.
  induction l as [|k l IH]; intros H; [reflexivity|].
  inversion H as [|? ? Hout Hnd]; subst. simpl.
  destruct (String.eqb_spec s k) as [->|Hne]; simpl.
  - rewrite (IH Hnd). apply mem_false in Hout. now rewrite Hout.
  - exact (IH Hnd).
Qed.

(** ** The reference system meets its contract *)

Lemma RefSys_read_yaml_loads : read_yaml_loads Ref.lib RefSys.sys.
Proof. intros fs path. reflexivity. Qed.

(** ** What the constructor refuses *)

(** X1.  A key that is no field of the class it is given to, at the root
    or in any nested class, makes [AnalysisConfig(...)] raise a
    [ValidationError] ([extra = "forbid"]), and so [update] with that
    mapping, which leaves its receiver as it was. *)
Theorem unknown_key_forbidden
  (angle quantity time : Type) (L : Lib angle quantity time)
  (p : list string) (k : string) (kv : list (string * data angle quantity time))
  (base : data angle quantity time) :
  extra_key p k (AnalysisConfig L) (DDict kv) = true ->
  new_AnalysisConfig L kv = Raise ValidationError
  /\ update L (a_dict kv) base = (Raise ValidationError, base).
Proof.
  intros H.
  pose proof (extra_key_refused _ _ _ L p k (AnalysisConfig L) (DDict kv) H) as Hn.
  split; [exact (new_refused _ _ _ L kv Hn) | exact (update_refused _ _ _ L kv base Hn)].
Qed.

Lemma unknown_key_forbidden_witness :
  new_AnalysisConfig Ref.lib
    [("datasets", DDict [("geom", DDict [("bogus_field", DInt 1)])])]
  = Raise ValidationError
  /\ update Ref.lib
       (a_dict [("datasets", DDict [("geom", DDict [("bogus_field", DInt 1)])])])
       Ref.base
     = (Raise ValidationError, Ref.base).
Proof.
  apply (unknown_key_forbidden _ _ _ Ref.lib ["datasets"; "geom"] "bogus_field").
  vm_compute; reflexivity.
Defined.

(** X2.  A value given for an energy field of any class that [Quantity]
    reads as a quantity of another physical type makes the construction
    raise a [ValidationError]: [EnergyType.validate] raises and no
    configuration is returned. *)
Theorem energy_unit_checked
  (angle quantity time : Type) (L : Lib angle quantity time)
  (p : list string) (d v : data angle quantity time) (q : quantity)
  (kv : list (string * data angle quantity time)) :
  leaf_at p (AnalysisConfig L) = Some (EnergyType, d) ->
  get p (DDict kv) = Some v ->
  Quantity L v = Some q -> is_energy L q = false ->
  new_AnalysisConfig L kv = Raise ValidationError.
Proof.
  intros Hp Hg HQ Hq. apply new_refused.
  apply (rejected_leaf_refused _ _ _ L p (AnalysisConfig L) EnergyType d (DDict kv) v Hp Hg).
  exact (energy_refused _ _ _ L d v q (energy_default_set _ _ _ L p d Hp) HQ Hq).
Qed.

Lemma energy_unit_checked_witness :
  new_AnalysisConfig Ref.lib
    [("fit", DDict [("fit_range", DDict [("min", DStr "5 deg")])])]
  = Raise ValidationError.
Proof.
  apply (energy_unit_checked _ _ _ Ref.lib ["fit"; "fit_range"; "min"]
           (DStr "0.1 TeV") (DStr "5 deg") "5 deg");
    vm_compute; reflexivity.
Defined.

(** X3.  Every energy field of a configuration that the constructor
    returns holds a [Quantity] whose physical type is energy, whether it
    was given or taken from the textual default ([validate_all]). *)
Theorem energy_leaves_are_energies
  (angle quantity time : Type) (L : Lib angle quantity time)
  (p : list string) (d c : data angle quantity time)
  (kv : list (string * data angle quantity time)) :
  leaf_at p (AnalysisConfig L) = Some (EnergyType, d) ->
  new_AnalysisConfig L kv = Ok c ->
  exists q, get p c = Some (DQuantity q) /\ is_energy L q = true.
Proof.
  intros Hp Hc. apply new_returned in Hc.
  assert (Hdist : distinct_fields (AnalysisConfig L) = true) by reflexivity.
  destruct (leaf_validated _ _ _ L p (AnalysisConfig L) EnergyType d _ c Hdist Hp Hc)
    as [w [x [Hx Hw]]].
  destruct (energy_validated _ _ _ L d w x (energy_default_set _ _ _ L p d Hp) Hw)
    as [q [-> Hq]].
  now exists q.
Qed.

Lemma energy_leaves_are_energies_witness :
  exists q, get ["flux_points"; "energy"; "max"] Ref.cube = Some (DQuantity q)
            /\ is_energy Ref.lib q = true.
Proof.
  apply (energy_leaves_are_energies _ _ _ Ref.lib ["flux_points"; "energy"; "max"]
           (DStr "10 TeV") Ref.cube Ref.cube_dict);
    vm_compute; reflexivity.
Defined.

(** X4.  Text given for an enum field of any class that is not the value
    of a member of the enum makes the construction raise a
    [ValidationError]. *)
Theorem enum_member_required
  (angle quantity time : Type) (L : Lib angle quantity time)
  (p : list string) (e : enum) (d : data angle quantity time) (s : string)
  (kv : list (string * data angle quantity time)) :
  leaf_at p (AnalysisConfig L) = Some (t_Enum e, d) ->
  get p (DDict kv) = Some (DStr s) ->
  mem s (enum_values e) = false ->
  new_AnalysisConfig L kv = Raise ValidationError.
Proof.
  intros Hp Hg Hs. apply new_refused.
  apply (rejected_leaf_refused _ _ _ L p (AnalysisConfig L) (t_Enum e) d (DDict kv)
           (DStr s) Hp Hg).
  exact (enum_refused _ _ _ L e d s Hs).
Qed.

Lemma enum_member_required_witness :
  new_AnalysisConfig Ref.lib
    [("observations", DDict [("obs_cone", DDict [("frame", DStr "ICRS")])])]
  = Raise ValidationError.
Proof.
  apply (enum_member_required _ _ _ Ref.lib ["observations"; "obs_cone"; "frame"]
           FrameEnum DNone "ICRS");
    vm_compute; reflexivity.
Defined.

(** X5.  A list given for a list field of any class with an element
    that the validator of the elements refuses makes the construction raise
    a [ValidationError]: so a map selection with a name that is no member
    of [MapSelectionEnum]. *)
Theorem list_elements_validated
  (angle quantity time : Type) (L : Lib angle quantity time)
  (p : list string) (t : ftype) (d x : data angle quantity time)
  (l : list (data angle quantity time))
  (kv : list (string * data angle quantity time)) :
  leaf_at p (AnalysisConfig L) = Some (t_List t, d) ->
  get p (DDict kv) = Some (DList l) ->
  In x l -> validate L t x = None ->
  new_AnalysisConfig L kv = Raise ValidationError.
Proof.
  intros Hp Hg Hin Hx. apply new_refused.
  apply (rejected_leaf_refused _ _ _ L p (AnalysisConfig L) (t_List t) d (DDict kv)
           (DList l) Hp Hg).
  exact (list_refused _ _ _ L t d x l Hin Hx).
Qed.

Lemma list_elements_validated_witness :
  new_AnalysisConfig Ref.lib
    [("datasets", DDict [("map_selection", DList [DStr "counts"; DStr "flux"])])]
  = Raise ValidationError.
Proof.
  apply (list_elements_validated _ _ _ Ref.lib ["datasets"; "map_selection"]
           (t_Enum MapSelectionEnum)
           (DList (map DStr ["counts"; "exposure"; "background"; "psf"; "edisp"]))
           (DStr "flux") [DStr "counts"; DStr "flux"]).
  - vm_compute; reflexivity.
  - vm_compute; reflexivity.
  - right; left; reflexivity.
  - vm_compute; reflexivity.
Defined.

(** X6.  [None] given for a field of any class that is a nested class,
    or whose declared default is not [None], makes the construction raise a
    [ValidationError]: only the fields declared with the default [None]
    are optional. *)
Theorem none_refused_unless_default
  (angle quantity time : Type) (L : Lib angle quantity time)
  (p : list string) (s' : schema angle quantity time)
  (kv : list (string * data angle quantity time)) :
  field_at p (AnalysisConfig L) = Some s' ->
  optional s' = false ->
  get p (DDict kv) = Some DNone ->
  new_AnalysisConfig L kv = Raise ValidationError.
Proof.
  intros Hp Hd Hg. apply new_refused.
  apply (rejected_field_refused _ _ _ L p (AnalysisConfig L) s' (DDict kv) DNone Hp Hg).
  exact (None_refused _ _ _ L s' Hd).
Qed.

Lemma none_refused_unless_default_witness :
  new_AnalysisConfig Ref.lib [("datasets", DDict [("stack", DNone)])]
  = Raise ValidationError
  /\ new_AnalysisConfig Ref.lib [("datasets", DDict [("geom", DNone)])]
     = Raise ValidationError
  /\ new_AnalysisConfig Ref.lib [("fit", DNone)] = Raise ValidationError.
Proof.
  split; [|split].
  - apply (none_refused_unless_default _ _ _ Ref.lib ["datasets"; "stack"]
             (field t_bool (DBool true))); vm_compute; reflexivity.
  - apply (none_refused_unless_default _ _ _ Ref.lib ["datasets"; "geom"] GeomConfig);
      vm_compute; reflexivity.
  - apply (none_refused_unless_default _ _ _ Ref.lib ["fit"] FitConfig);
      vm_compute; reflexivity.
Defined.

(** ** What the constructor returns *)

(** X7.  What [from_yaml] or [read] returns is a valid configuration:
    every class holds exactly its fields in the order of their declaration,
    every field a value of its type, [None] only where the default is
    [None]. *)
Theorem parsed_config_is_valid
  (angle quantity time : Type) (L : Lib angle quantity time)
  (sys : Sys angle quantity time) (s path : string) (fs : files)
  (c : data angle quantity time) :
  Revalidates L ->
  from_yaml L s = Ok c \/ read L sys fs path = Return c ->
  conforms L (AnalysisConfig L) c = true.
Proof.
  intros HR [H|H].
  - unfold from_yaml in H. destruct (yaml_load L s) as [[| | | | | | | | | |kv]|];
      try discriminate. exact (new_conforms _ _ _ L kv c HR H).
  - exact (read_conforms _ _ _ L sys fs path c HR H).
Qed.

Lemma parsed_config_is_valid_witness :
  conforms Ref.lib (AnalysisConfig Ref.lib) Ref.cube = true.
Proof.
  apply (parsed_config_is_valid _ _ _ Ref.lib RefSys.sys Ref.cube_text "" RefSys.no_files
           Ref.cube Ref_revalidates).
  left. vm_compute; reflexivity.
Defined.

(** X8.  A valid configuration given back to the constructor, field by
    field, is returned as it is: the validators change nothing that is
    already of their type. *)
Theorem valid_config_validates_as_itself
  (angle quantity time : Type) (L : Lib angle quantity time)
  (kv : list (string * data angle quantity time)) :
  Revalidates L ->
  conforms L (AnalysisConfig L) (DDict kv) = true ->
  new_AnalysisConfig L kv = Ok (DDict kv).
Proof.
  intros HR Hc. unfold new_AnalysisConfig.
  now rewrite (construct_fixed _ _ _ L (AnalysisConfig L) HR eq_refl (DDict kv) Hc).
Qed.

Lemma valid_config_validates_as_itself_witness :
  exists kv, Ref.base = DDict kv /\ new_AnalysisConfig Ref.lib kv = Ok (DDict kv).
Proof.
  eexists. split; [vm_compute; reflexivity|].
  apply (valid_config_validates_as_itself _ _ _ Ref.lib _ Ref_revalidates).
  vm_compute; reflexivity.
Defined.

(** ** [update] *)

(** X9.  Updating twice with the same override is updating once: the
    result of [update], updated again with the override, is returned as it
    is. *)
Theorem update_twice
  (angle quantity time : Type) (L : Lib angle quantity time)
  (d0 base ov r : data angle quantity time) (config : arg angle quantity time) :
  Revalidates L -> LiteralEq L ->
  construct L (AnalysisConfig L) None = Some d0 ->
  conforms L (AnalysisConfig L) base = true ->
  denotes L config ov ->
  update L config base = (Ok (Some r), base) ->
  update L config r = (Ok (Some r), r).
Proof.
  intros HR HE Hd0 Hb Hden Hr.
  assert (Hdist : distinct_fields (AnalysisConfig L) = true) by reflexivity.
  pose proof (wf_AnalysisConfig _ _ _ L HR) as Hwf.
  pose proof (denotes_conforms _ _ _ L HR config ov Hden) as Ho.
  pose proof (defaults_conform _ _ _ L HR d0 Hd0) as Hd.
  rewrite (update_denoted _ _ _ L config base ov Hden) in Hr.
  destruct (update_returned _ _ _ L ov base r base Hr) as [Hxb Hxo].
  assert (HAC : exists fs, AnalysisConfig L = model fs) by (eexists; reflexivity).
  destruct HAC as [fs HAC].
  assert (Hcb : comparable L (AnalysisConfig L) d0 base = true).
  { rewrite HAC in *.
    exact (exported_comparable _ _ _ L HR HE fs d0 base Hwf Hd0 Hb Hxb). }
  assert (Hco : comparable L (AnalysisConfig L) d0 ov = true).
  { rewrite HAC in *.
    exact (exported_comparable _ _ _ L HR HE fs d0 ov Hwf Hd0 Ho Hxo). }
  pose proof (defaults_comparable _ _ _ L HE (AnalysisConfig L) Hwf d0 Hd0) as Hcd.
  rewrite (update_config _ _ _ L HR HE d0 Hd0 base ov Hb Ho Hcb Hco) in Hr.
  apply returned_inj in Hr. subst r.
  assert (Hcr : conforms L (AnalysisConfig L) (overlay L (AnalysisConfig L) d0 base ov)
                = true).
  { destruct (update_returns _ _ _ L HR d0 Hd0 base ov Hb Ho Hcb Hco) as [r [Hr Hcr]].
    rewrite (update_config _ _ _ L HR HE d0 Hd0 base ov Hb Ho Hcb Hco) in Hr.
    apply returned_inj in Hr. now subst r. }
  pose proof (comparable_overlay _ _ _ L (AnalysisConfig L) Hdist d0 base ov
                Hd Hb Ho Hcd Hcb Hco) as Hcmp.
  rewrite (update_denoted _ _ _ L config _ ov Hden).
  rewrite (update_config _ _ _ L HR HE d0 Hd0 _ ov Hcr Ho Hcmp Hco).
  now rewrite (overlay_twice _ _ _ L (AnalysisConfig L) Hdist d0 base ov Hd Hb Ho).
Qed.

Lemma update_twice_witness :
  exists r,
    update Ref.lib (a_config Ref.cube) Ref.base = (Ok (Some r), Ref.base)
    /\ update Ref.lib (a_config Ref.cube) r = (Ok (Some r), r).
Proof.
  assert (H : exists r, update Ref.lib (a_config Ref.cube) Ref.base
                        = (Ok (Some r), Ref.base))
    by (eexists; vm_compute; reflexivity).
  destruct H as [r Hr]. exists r. split; [exact Hr|].
  apply (update_twice _ _ _ Ref.lib Ref.defaults Ref.base Ref.cube r (a_config Ref.cube)
           Ref_revalidates Ref_literal_eq); try exact Hr.
  - vm_compute; reflexivity.
  - vm_compute; reflexivity.
  - split; [reflexivity | vm_compute; reflexivity].
Defined.

(** X10.  An override given as text that [from_yaml] reads is merged as
    the configuration [from_yaml] makes of it. *)
Theorem update_text_as_from_yaml
  (angle quantity time : Type) (L : Lib angle quantity time)
  (s : string) (c base : data angle quantity time) :
  from_yaml L s = Ok c ->
  update L (a_str s) base = update L (a_config c) base.
Proof.
  intros H. apply update_denoted. simpl. unfold from_yaml in H. unfold dict_of_yaml.
  destruct (yaml_load L s) as [[| | | | | | | | | |kv]|]; try discriminate.
  now exists kv.
Qed.

Lemma update_text_as_from_yaml_witness :
  update Ref.lib (a_str Ref.cube_text) Ref.base
  = update Ref.lib (a_config Ref.cube) Ref.base.
Proof.
  apply (update_text_as_from_yaml _ _ _ Ref.lib Ref.cube_text Ref.cube Ref.base).
  vm_compute; reflexivity.
Defined.

(** Text that is a document but no mapping is refused by [dict]: quoted
    text with [ValueError], a number with [TypeError]. *)
Remark update_text_no_mapping :
  update Ref.lib (a_str (String Ref.quote ("foo" ++ String Ref.quote ""))) Ref.base
  = (Raise PyValueError, Ref.base)
  /\ update Ref.lib (a_str "3") Ref.base = (Raise TypeError, Ref.base).
Proof. split; vm_compute; reflexivity. Qed.

(** ** [to_yaml], [write], [read] and [__str__] *)

(** X11.  [from_template] raises [KeyError] for a name that is neither
    "1d" nor "3d", whatever the files hold; for these two it returns what
    [read] returns from the file of the template, a valid configuration. *)
Theorem template_read_by_name
  (angle quantity time : Type) (L : Lib angle quantity time)
  (sys : Sys angle quantity time) (fs : files) (template : string) :
  Revalidates L ->
  (template <> "1d" -> template <> "3d" ->
   from_template L sys fs template = Throw KeyError)
  /\ forall c,
       from_template L sys fs template = Return c ->
       (template = "1d" \/ template = "3d")
       /\ read L sys fs (config_file sys ("template-" ++ template ++ ".yaml")) = Return c
       /\ conforms L (AnalysisConfig L) c = true.
Proof.
  intros HR. unfold from_template, ANALYSIS_TEMPLATES. cbn [lookup].
  destruct (String.eqb_spec template "1d") as [->|H1];
    [|destruct (String.eqb_spec template "3d") as [->|H3]].
  - split; [intros H; now contradiction H|].
    intros c Hc. split; [now left|]. split; [exact Hc|].
    exact (read_conforms _ _ _ L sys fs _ c HR Hc).
  - split; [intros _ H; now contradiction H|].
    intros c Hc. split; [now right|]. split; [exact Hc|].
    exact (read_conforms _ _ _ L sys fs _ c HR Hc).
  - split; [reflexivity | discriminate].
Qed.

Lemma template_read_by_name_witness :
  from_template Ref.lib RefSys.sys RefSys.templates "2d" = Throw KeyError
  /\ read Ref.lib RefSys.sys RefSys.templates "config/template-3d.yaml" = Return Ref.cube
  /\ conforms Ref.lib (AnalysisConfig Ref.lib) Ref.cube = true.
Proof.
  split.
  - apply (template_read_by_name _ _ _ Ref.lib RefSys.sys RefSys.templates "2d"
             Ref_revalidates); discriminate.
  - apply (template_read_by_name _ _ _ Ref.lib RefSys.sys RefSys.templates "3d"
             Ref_revalidates).
    vm_compute; reflexivity.
Defined.



(** X13.  [write] returns, or raises and changes no file.  It raises
    [IOError] when the file exists and [overwrite] is not set; else it
    raises what opening the path for writing raises (so
    [FileNotFoundError] where the directory is missing), if that does.
    When it returns, the file did not exist or [overwrite] was set, the
    path could be opened, the file now holds the YAML text of the
    configuration, every other file is as it was, and a second [write] to
    the path without [overwrite] raises [IOError]. *)
Theorem write_guards_existing
  (angle quantity time : Type) (L : Lib angle quantity time)
  (sys : Sys angle quantity time) (self other : data angle quantity time)
  (path : string) (overwrite : bool) (fs : files) :
  match write L sys self path overwrite fs with
  | (Return _, fs') =>
      (overwrite = true \/ fs (make_path sys path) = None)
      /\ open_w sys fs (make_path sys path) = None
      /\ fs' (make_path sys path) = Some (to_yaml L self)
      /\ (forall q, q <> make_path sys path -> fs' q = fs q)
      /\ write L sys other path false fs' = (Throw IOError, fs')
  | (Throw e, fs') =>
      fs' = fs
      /\ ((e = IOError /\ overwrite = false /\ fs (make_path sys path) <> None)
          \/ ((overwrite = true \/ fs (make_path sys path) = None)
              /\ open_w sys fs (make_path sys path) = Some e))
  end.
Proof.
  assert (Hw : forall text,
             write_text fs (make_path sys path) text (make_path sys path) = Some text)
    by (intros text; unfold write_text; now rewrite String.eqb_refl).
  assert (Hf : forall text q, q <> make_path sys path ->
                              write_text fs (make_path sys path) text q = fs q).
  { intros text q Hq. unfold write_text.
    now destruct (String.eqb_spec q (make_path sys path)). }
  assert (Hagain : forall text,
             write L sys other path false (write_text fs (make_path sys path) text)
             = (Throw IOError, write_text fs (make_path sys path) text)).
  { intros text. unfold write. cbv zeta. now rewrite Hw. }
  unfold write. cbv zeta.
  destruct (fs (make_path sys path)) as [old|] eqn:E; [destruct overwrite|]; simpl;
    try (split; [reflexivity | left; repeat split; discriminate]);
    (destruct (open_w sys fs (make_path sys path)) as [e|] eqn:Eo;
     [split; [reflexivity | right; split; [tauto | reflexivity]]
     | repeat split; [tauto | apply Hw | apply Hf | apply Hagain]]).
Qed.

(** The failure of [write_text] is met: in the reference system a path
    under the missing directory cannot be written, and [write] raises
    [FileNotFoundError] though no file exists. *)
Remark write_missing_directory :
  write Ref.lib RefSys.sys Ref.survey "nodir/config.yaml" false RefSys.no_files
  = (Throw FileNotFoundError, RefSys.no_files).
Proof. reflexivity. Qed.

(** X14.  What [write] has written, [read] reads back from the same
    path as a configuration equal to the one written, for a configuration
    whose every Angle, Quantity and Time is read back by its constructor,
    from the text its encoder writes, as an equal object, where [read_yaml]
    loads the text at the path with PyYAML and PyYAML reads back the
    document it dumps. *)
Theorem write_then_read
  (angle quantity time : Type) (L : Lib angle quantity time)
  (sys : Sys angle quantity time) (c : data angle quantity time)
  (path : string) (overwrite : bool) (fs fs' : files) :
  read_yaml_loads L sys ->
  conforms L (AnalysisConfig L) c = true ->
  read_back L c = true ->
  yaml_load L (yaml_dump L (jsonable L c)) = Some (jsonable L c) ->
  write L sys c path overwrite fs = (Return tt, fs') ->
  exists c',
    read L sys fs' path = Return c'
    /\ conforms L (AnalysisConfig L) c' = true
    /\ py_eq L c c' = true
    /\ ambiguous L c c' = false.
Proof.
  intros HS Hc Hrb Hy Hw. rewrite (written _ _ _ L sys c path overwrite fs fs' Hw).
  exact (read_written _ _ _ L sys c path fs HS Hc Hrb Hy).
Qed.

Lemma write_then_read_witness :
  exists c',
    read Ref.lib RefSys.sys
      (snd (write Ref.lib RefSys.sys Ref.survey "survey.yaml" false RefSys.templates))
      "survey.yaml" = Return c'
    /\ conforms Ref.lib (AnalysisConfig Ref.lib) c' = true
    /\ py_eq Ref.lib Ref.survey c' = true
    /\ ambiguous Ref.lib Ref.survey c' = false.
Proof.
  apply (write_then_read _ _ _ Ref.lib RefSys.sys Ref.survey "survey.yaml" false
           RefSys.templates _ RefSys_read_yaml_loads).
  - vm_compute; reflexivity.
  - vm_compute; reflexivity.
  - vm_compute; reflexivity.
  - reflexivity.
Defined.

(** X15.  The text [__str__] returns holds no tab; where the YAML text
    holds none, it is the class name, an empty line, and the YAML text with
    each of its lines after four spaces. *)
Theorem str_indents_yaml
  (angle quantity time : Type) (L : Lib angle quantity time)
  (self : data angle quantity time) :
  no_tab (to_yaml L self) = true ->
  no_tab (__str__ L self) = true
  /\ __str__ L self
     = "AnalysisConfig" ++ String nl (String nl "    ")
       ++ replace (String nl "") (String nl "    ") (to_yaml L self).
Proof.
  intros H. split; [apply expandtabs_no_tab|].
  unfold __str__. cbv zeta.
  change (expandtabs 0
            (("AnalysisConfig" ++ String nl (String nl (String tab "")))
             ++ replace (String nl "") (String nl (String tab "")) (to_yaml L self)))
    with ("AnalysisConfig" ++ String nl (String nl "    ")
          ++ expandtabs 4 (replace (String nl "") (String nl (String tab ""))
                             (to_yaml L self))).
  now rewrite (expandtabs_indent (to_yaml L self) H 4).
Qed.

Lemma str_indents_yaml_witness :
  no_tab (__str__ Ref.lib Ref.survey) = true
  /\ __str__ Ref.lib Ref.survey
     = "AnalysisConfig" ++ String nl (String nl "    ")
       ++ replace (String nl "") (String nl "    ") (to_yaml Ref.lib Ref.survey).
Proof.
  apply (str_indents_yaml _ _ _ Ref.lib Ref.survey). vm_compute; reflexivity.
Defined.

(** ** Assignment and [set_logging] *)

(** X16.  An assignment to a field of a configuration or of one of its
    nested classes, a leaf or itself a nested class, is validated
    ([validate_assignment]): the field then holds what its validation
    returns for the value, the configuration is still valid and every leaf
    outside the field is as it was; a value the validation refuses raises
    a [ValidationError]. *)
Theorem assignment_validated
  (angle quantity time : Type) (L : Lib angle quantity time)
  (name : string) (p : list string) (s' : schema angle quantity time)
  (self value : data angle quantity time) :
  Revalidates L ->
  conforms L (AnalysisConfig L) self = true ->
  field_at (name :: p) (AnalysisConfig L) = Some s' ->
  match construct L s' (Some value) with
  | Some x =>
      exists self',
        assign L (AnalysisConfig L) self (name :: p) value = Return self'
        /\ get (name :: p) self' = Some x
        /\ conforms L (AnalysisConfig L) self' = true
        /\ forall q t d, leaf_at q (AnalysisConfig L) = Some (t, d) ->
                         starts_with q (name :: p) = false ->
                         get q self' = get q self
  | None =>
      assign L (AnalysisConfig L) self (name :: p) value = Throw (Exn ValidationError)
  end.
Proof.
  intros HR Hc Hp.
  assert (Hdist : distinct_fields (AnalysisConfig L) = true) by reflexivity.
  pose proof (assign_field _ _ _ L p name (AnalysisConfig L) s' self value Hdist Hc Hp)
    as H.
  destruct (construct L s' (Some value)) as [x|]; [|exact H].
  destruct H as [self' [Ha [Hg [Hcf Hfr]]]].
  exists self'. split; [exact Ha|]. split; [exact Hg|]. split; [exact (Hcf HR) | exact Hfr].
Qed.

Lemma assignment_validated_witness :
  (exists self',
     assign Ref.lib (AnalysisConfig Ref.lib) Ref.survey ["fit"]
       (DDict [("fit_range", DDict [("max", DStr "20 TeV")])]) = Return self'
     /\ get ["fit"] self'
        = Some (DDict [("fit_range", DDict [("min", DQuantity "0.1 TeV");
                                            ("max", DQuantity "20 TeV")])])
     /\ conforms Ref.lib (AnalysisConfig Ref.lib) self' = true
     /\ forall q t d, leaf_at q (AnalysisConfig Ref.lib) = Some (t, d) ->
                      starts_with q ["fit"] = false ->
                      get q self' = get q Ref.survey)
  /\ (exists self',
        assign Ref.lib (AnalysisConfig Ref.lib) Ref.survey ["fit"; "fit_range"; "max"]
          (DStr "20 TeV") = Return self'
        /\ get ["fit"; "fit_range"; "max"] self' = Some (DQuantity "20 TeV")
        /\ conforms Ref.lib (AnalysisConfig Ref.lib) self' = true
        /\ forall q t d, leaf_at q (AnalysisConfig Ref.lib) = Some (t, d) ->
                         starts_with q ["fit"; "fit_range"; "max"] = false ->
                         get q self' = get q Ref.survey)
  /\ assign Ref.lib (AnalysisConfig Ref.lib) Ref.survey ["fit"; "fit_range"]
       (DDict [("max", DStr "20 deg")]) = Throw (Exn ValidationError).
Proof.
  split; [|split].
  - apply (assignment_validated _ _ _ Ref.lib "fit" [] FitConfig Ref.survey
             (DDict [("fit_range", DDict [("max", DStr "20 TeV")])]) Ref_revalidates);
      vm_compute; reflexivity.
  - apply (assignment_validated _ _ _ Ref.lib "fit" ["fit_range"; "max"]
             (field EnergyType (DStr "10 TeV")) Ref.survey (DStr "20 TeV")
             Ref_revalidates);
      vm_compute; reflexivity.
  - apply (assignment_validated _ _ _ Ref.lib "fit" ["fit_range"] EnergyRangeConfig
             Ref.survey (DDict [("max", DStr "20 deg")]) Ref_revalidates);
      vm_compute; reflexivity.
Defined.

(** X17.  [set_logging] writes the level of the log settings in upper
    case and nothing else, before it calls [logging.basicConfig] with the
    log settings: the configuration is still valid and keeps the new level
    whether logging accepts the settings or raises. *)
Theorem set_logging_upper_cases_level
  (angle quantity time : Type) (L : Lib angle quantity time)
  (sys : Sys angle quantity time) (self : data angle quantity time) :
  Revalidates L ->
  conforms L (AnalysisConfig L) self = true ->
  exists level self' log,
    get ["general"; "log"; "level"] self = Some (DStr level)
    /\ get ["general"; "log"; "level"] self' = Some (DStr (upper sys level))
    /\ get ["general"; "log"] self' = Some log
    /\ set_logging L sys self
       = (if basicConfig sys log then Return tt else Throw ValueError, self')
    /\ conforms L (AnalysisConfig L) self' = true
    /\ forall q t d, leaf_at q (AnalysisConfig L) = Some (t, d) ->
                     q <> ["general"; "log"; "level"] ->
                     get q self' = get q self.
Proof.
  intros HR Hc.
  assert (Hdist : distinct_fields (AnalysisConfig L) = true) by reflexivity.
  assert (Hp : leaf_at ["general"; "log"; "level"] (AnalysisConfig L)
               = Some (t_str, DStr "info")) by reflexivity.
  destruct (get_conforms _ _ _ L _ _ _ _ self Hdist Hp Hc) as [v Hv].
  pose proof (conforms_get _ _ _ L _ _ _ _ self v Hdist Hp Hc Hv) as Hcv.
  assert (Hl : exists level, v = DStr level)
    by (destruct v; try discriminate; eexists; reflexivity).
  destruct Hl as [level ->].
  pose proof (assign_leaf _ _ _ L ["log"; "level"] "general" (AnalysisConfig L)
                t_str (DStr "info") self (DStr (upper sys level)) Hdist Hc Hp) as H.
  change (validate_field L t_str (DStr "info") (DStr (upper sys level)))
    with (Some (DStr (upper sys level) : data angle quantity time)) in H.
  destruct H as [self' [Ha [Hg [Hcf Hfr]]]].
  destruct (get_two _ _ _ _ _ _ self' _ Hg) as [log Hlog].
  exists level, self', log.
  split; [exact Hv|]. split; [exact Hg|]. split; [exact Hlog|].
  split; [|split; [exact (Hcf HR) | exact Hfr]].
  unfold set_logging. rewrite Hv. cbv beta iota. rewrite Ha. cbv beta iota.
  rewrite Hlog. cbv beta iota. now destruct (basicConfig sys log).
Qed.

Lemma set_logging_upper_cases_level_witness :
  exists level self' log,
    get ["general"; "log"; "level"] Ref.defaults = Some (DStr level)
    /\ get ["general"; "log"; "level"] self' = Some (DStr (upper RefSys.sys level))
    /\ get ["general"; "log"] self' = Some log
    /\ set_logging Ref.lib RefSys.sys Ref.defaults
       = (if basicConfig RefSys.sys log then Return tt else Throw ValueError, self')
    /\ conforms Ref.lib (AnalysisConfig Ref.lib) self' = true
    /\ forall q t d, leaf_at q (AnalysisConfig Ref.lib) = Some (t, d) ->
                     q <> ["general"; "log"; "level"] ->
                     get q self' = get q Ref.defaults.
Proof.
  apply (set_logging_upper_cases_level _ _ _ Ref.lib RefSys.sys Ref.defaults
           Ref_revalidates).
  vm_compute; reflexivity.
Defined.

(** ** The docs file *)

(** X18.  [_get_doc_sections] raises [UnboundLocalError] when the first
    line of the docs file that does not start with [---] is no section
    header, and returns otherwise; from a file with no such line it returns
    the empty dict. *)
Theorem doc_sections_need_header (lines : list string) :
  match find (fun raw => negb (startswith raw "---")) lines with
  | Some raw =>
      if startswith (strip_nl raw) section_mark
      then exists doc, _get_doc_sections lines = Return doc
      else _get_doc_sections lines = Throw UnboundLocalError
  | None => _get_doc_sections lines = Return []
  end.
Proof.
  unfold _get_doc_sections.
  induction lines as [|raw rest IH]; simpl; [reflexivity|].
  destruct (startswith raw "---"); simpl; [exact IH|].
  destruct (startswith (strip_nl raw) section_mark); [apply doc_loop_bound | reflexivity].
Qed.

(** X19.  The dict [_get_doc_sections] returns holds the keywords of the
    headers, each once, in the order of their first header, and under each
    keyword all the lines that follow a header of that keyword, headers
    included, each with a newline; the lines that start with [---] are
    left out. *)
Theorem doc_sections_collect_lines (lines : list string)
  (doc : list (string * string)) :
  _get_doc_sections lines = Return doc ->
  keys doc = sections lines
  /\ NoDup (keys doc)
  /\ forall k, doc_get doc k = block k (tagged lines None).
Proof.
  intros H. destruct (doc_loop_blocks lines None [] doc H) as [Hk Hb].
  split; [exact Hk|]. split; [|exact Hb].
  rewrite Hk. apply seen_NoDup. constructor.
Qed.

Lemma doc_sections_collect_lines_witness :
  exists doc,
    _get_doc_sections RefSys.docs = Return doc
    /\ keys doc = sections RefSys.docs
    /\ NoDup (keys doc)
    /\ forall k, doc_get doc k = block k (tagged RefSys.docs None).
Proof.
  eexists. split; [vm_compute; reflexivity|].
  apply (doc_sections_collect_lines RefSys.docs). vm_compute; reflexivity.
Defined.

(** X20.  [help] prints, in the order of the first headers, the block
    of every section when the section asked for is empty, and else the
    block of that section alone, or nothing when the docs file has no such
    section; it raises only where [_get_doc_sections] does. *)
Theorem help_prints_blocks (lines : list string) (section : string)
  (out : list string) :
  help lines section = Return out ->
  out = map (fun k => block k (tagged lines None))
          (filter (fun k => String.eqb section "" || String.eqb section k)
             (sections lines))
  /\ (section <> "" ->
      out = if mem section (sections lines)
            then [block section (tagged lines None)]
            else []).
Proof.
  intros H. unfold help in H.
  destruct (_get_doc_sections lines) as [doc|] eqn:E; [|discriminate].
  injection H as <-.
  destruct (doc_loop_blocks lines None [] doc E) as [Hk Hb].
  assert (Hnd : NoDup (keys doc)) by (rewrite Hk; apply seen_NoDup; constructor).
  pose proof (printed_blocks
                (fun k => String.eqb section "" || String.eqb section k) doc Hnd) as Hp.
  cbv beta in Hp. rewrite Hp.
  assert (Hout : map (doc_get doc)
                   (filter (fun k => String.eqb section "" || String.eqb section k)
                      (keys doc))
                 = map (fun k => block k (tagged lines None))
                     (filter (fun k => String.eqb section "" || String.eqb section k)
                        (sections lines))).
  { rewrite Hk. apply map_ext. exact Hb. }
  split; [exact Hout|].
  intros Hs. rewrite Hout.
  assert (Hf : filter (fun k => String.eqb section "" || String.eqb section k)
                 (sections lines)
               = filter (String.eqb section) (sections lines)).
  { apply filter_ext. intros k. now destruct (String.eqb_spec section ""). }
  rewrite Hf, filter_eqb_NoDup by (apply seen_NoDup; constructor).
  now destruct (mem section (sections lines)).
Qed.

Lemma help_prints_blocks_witness :
  help RefSys.docs "datasets"
  = Return [block "datasets" (tagged RefSys.docs None)]
  /\ help RefSys.docs "fit" = Return [].
Proof.
  split.
  - assert (H : exists out, help RefSys.docs "datasets" = Return out)
      by (eexists; vm_compute; reflexivity).
    destruct H as [out H]. rewrite H. f_equal.
    exact (proj2 (help_prints_blocks RefSys.docs "datasets" out H)
             ltac:(discriminate)).
  - assert (H : exists out, help RefSys.docs "fit" = Return out)
      by (eexists; vm_compute; reflexivity).
    destruct H as [out H]. rewrite H. f_equal.
    exact (proj2 (help_prints_blocks RefSys.docs "fit" out H) ltac:(discriminate)).
Defined.
